(** * MindForge harness: a shallow embedding of the evaluation engine

    The development follows the layout of the Python package
    [mindforge_harness]:

    - [Py]           the fragment of Python the harness relies on: exceptions,
                     string helpers, insertion-ordered dictionaries, JSON
                     values and a small object store for mutable lists;
    - [Utils]        [utils.py]: crash-detail extraction and the spec hasher;
    - [ImageBuilder] [docker/image_builder.py]: Dockerfile formatting, image
                     names and the build orchestrator with its failed set;
    - [RunInstance]  [run_instance.py]: result gathering and reconciliation;
    - [Evaluate]     [evaluate.py]: the batch scheduler;
    - [Dataset]      [utils.py]: the preparation of the dataset;
    - [Produce]      [produce.py]: the differential classifier;
    - [DockerUtils]  [docker/docker_utils.py]: the lookup of a local image;
    - [BuildAll]     [docker/image_builder.py]: the loop over a data file;
    - [Patches]      [utils.py]: the test files of a patch;
    - [EvalScript]   [run_instance.py]: the test command of the entry script;
    - [EvaluateReport] [evaluate.py]: streaming mode and the report;
    - [ProducePrepare] [produce.py]: the preparation of the two rounds;
    - [PatchCode]    [docker/consts.py]: the patch script of the image.

    Definitions come first, the properties of each module afterwards. *)

From stdpp Require Import gmap strings list fin_maps pretty sorting.
From Stdlib Require Import Ascii String.

Open Scope string_scope.
Set Warnings "-register-all,-clear-no-such-hyp".

(* ===================================================================== *)
(** * Python fragment *)
(* ===================================================================== *)

Module Py.

(** Exceptions raised by the modelled code. *)
Inductive exn :=
| KeyError (key : string)
| UnboundLocalError (var : string)
| AttributeError (attr : string)
| TypeError (msg : string)
| ValueError (msg : string)
| AssertionError (msg : string)
| DockerError (msg : string)
| TimeoutError (msg : string)
| Exception (msg : string).

(** A computation that either raises or returns. *)
Definition res (A : Type) : Type := exn + A.

Definition ret {A} (a : A) : res A := inr a.
Definition raise {A} (e : exn) : res A := inl e.

Definition bind {A B} (m : res A) (k : A -> res B) : res B :=
  match m with
  | inl e => inl e
  | inr a => k a
  end.

Definition raises {A} (m : res A) : Prop :=
  match m with inl _ => True | inr _ => False end.

Definition returns {A} (m : res A) : Prop :=
  match m with inl _ => False | inr _ => True end.

(** [for x in xs: st = body st x], stopping at the first exception. *)
Fixpoint for_each {S A} (body : S -> A -> res S) (xs : list A) (st : S) : res S :=
  match xs with
  | [] => ret st
  | x :: xs' => bind (body st x) (for_each body xs')
  end.

(** ** Strings *)

Definition nl : string := String (ascii_of_nat 10) EmptyString.

(** [sub in s] *)
Fixpoint contains (sub s : string) : bool :=
  if String.prefix sub s then true
  else match s with
       | EmptyString => false
       | String _ s' => contains sub s'
       end.

(** [s.startswith(p)] *)
Definition startswith (p s : string) : bool := String.prefix p s.

(** [s.endswith("/")], the only suffix test the harness makes. *)
Fixpoint endswith_char (c : ascii) (s : string) : bool :=
  match s with
  | EmptyString => false
  | String a EmptyString => Ascii.eqb a c
  | String _ s' => endswith_char c s'
  end.

(** [s.replace(a, b)] for one-character [a] and [b]. *)
Fixpoint replace_char (a b : ascii) (s : string) : string :=
  match s with
  | EmptyString => EmptyString
  | String c s' => String (if Ascii.eqb c a then b else c) (replace_char a b s')
  end.

Definition lower_ascii (c : ascii) : ascii :=
  let n := nat_of_ascii c in
  if (65 <=? n)%nat && (n <=? 90)%nat then ascii_of_nat (n + 32) else c.

(** [s.lower()] on ASCII letters; repository names are ASCII. *)
Fixpoint lower (s : string) : string :=
  match s with
  | EmptyString => EmptyString
  | String c s' => String (lower_ascii c) (lower s')
  end.

(** [s[:n]] *)
Definition slice_to (n : nat) (s : string) : string := String.substring 0 n s.

(** [sep.join(xs)] *)
Definition join (sep : string) (xs : list string) : string := String.concat sep xs.

(** [x in xs] for a list of strings. *)
Definition mem (x : string) (xs : list string) : bool :=
  existsb (String.eqb x) xs.

(** [posixpath.join(a, b)]; [os.path] is [posixpath] on the harness host. *)
Definition path_join (a b : string) : string :=
  if startswith "/" b then b
  else if String.eqb a "" || endswith_char "/" a then a ++ b
  else a ++ "/" ++ b.

(** ** Insertion-ordered dictionaries

    A [dict] keeps its keys in insertion order; assigning to an existing key
    keeps the key's position. *)

Definition dict (V : Type) : Type := list (string * V).

Fixpoint dict_get {V} (k : string) (d : dict V) : option V :=
  match d with
  | [] => None
  | (k', v) :: d' => if String.eqb k k' then Some v else dict_get k d'
  end.

(** [d[k] = v] *)
Fixpoint dict_set {V} (k : string) (v : V) (d : dict V) : dict V :=
  match d with
  | [] => [(k, v)]
  | (k', v') :: d' =>
      if String.eqb k k' then (k, v) :: d' else (k', v') :: dict_set k v d'
  end.

(** [d[k]] *)
Definition getitem {V} (k : string) (d : dict V) : res V :=
  match dict_get k d with
  | Some v => ret v
  | None => raise (KeyError k)
  end.

(** ** JSON values, as [orjson.loads] and [json.loads] produce them

    A float is kept as its literal: the harness only passes floats on. *)

Inductive pyval :=
| PNone
| PBool (b : bool)
| PInt (n : Z)
| PFloat (literal : string)
| PStr (s : string)
| PList (xs : list pyval)
| PDict (kvs : list (string * pyval)).

(** ** Object store

    Lists and dictionaries are heap objects: two names may refer to the same
    list, and an in-place update through one is seen through the other. *)

Definition loc := positive.

Inductive value :=
| VNone
| VBool (b : bool)
| VInt (n : Z)
| VFloat (literal : string)
| VStr (s : string)
| VRef (l : loc).

Inductive object :=
| OList (xs : list value)
| ODict (kvs : dict value).

#[global] Instance value_eq_dec : EqDecision value.
Proof. solve_decision. Defined.

Abbreviation store := (gmap loc object).

(** The JSON value a store value denotes; [fuel] bounds the nesting depth. *)
Fixpoint reify (fuel : nat) (σ : store) (v : value) : option pyval :=
  match v with
  | VNone => Some PNone
  | VBool b => Some (PBool b)
  | VInt n => Some (PInt n)
  | VFloat x => Some (PFloat x)
  | VStr s => Some (PStr s)
  | VRef l =>
      match fuel with
      | O => None
      | S fuel' =>
          match σ !! l with
          | None => None
          | Some (OList xs) => PList <$> mapM (reify fuel' σ) xs
          | Some (ODict kvs) =>
              PDict <$> mapM (fun kv => pair kv.1 <$> reify fuel' σ kv.2) kvs
          end
      end
  end.

End Py.

Import Py.

(* ===================================================================== *)
(** * Structured test reports *)
(* ===================================================================== *)

(** The report that the test command writes inside the container, as the
    harness reads it: only the keys the harness looks at are kept. A key that
    may be missing from the JSON object is an [option]; [nodeid] and [outcome]
    are in every record the report plugin writes. Crash and long
    representations are kept as text. *)

Module Report.

(** A phase record ([setup], [call] or [teardown]) of one test. *)
Record stage := {
  stage_outcome : string;
  longrepr : option string;
  stage_crash : option string;
}.

Record test := {
  nodeid : string;
  outcome : string;
  crash : option string;
  setup : option stage;
  call : option stage;
  teardown : option stage;
}.

Record collector := {
  c_nodeid : string;
  c_outcome : string;
  c_longrepr : option string;
}.

Record report := {
  tests : option (list test);
  collectors : option (list collector);
  root : option string;
}.

(** [report.get('tests', [])] *)
Definition get_tests (r : report) : list test := default [] (tests r).

End Report.

Import Report.

(* ===================================================================== *)
(** * utils.py *)
(* ===================================================================== *)

Module Utils.

(** ** Crash details *)

(** [stage.get('longrepr', "")] *)
Definition get_longrepr (s : stage) : string := default "" (longrepr s).

(** ['crash' in test[phase]] guarded by [phase in test]. *)
Definition has_crash (s : option stage) : bool :=
  match s with
  | Some st => bool_decide (is_Some (stage_crash st))
  | None => false
  end.

(** [test['crash']] *)
Definition test_crash (t : test) : res string :=
  match crash t with
  | Some c => ret c
  | None => raise (KeyError "crash")
  end.

(** [test[phase]['crash']], reached only when [has_crash] holds. *)
Definition phase_crash (phase : string) (s : option stage) : res string :=
  match s with
  | Some st =>
      match stage_crash st with
      | Some c => ret c
      | None => raise (KeyError "crash")
      end
  | None => raise (KeyError phase)
  end.

(** The text gathered for a test whose outcome is [error]: the long
    representations of the phases that are present, in running order. *)
Definition error_text (t : test) : string :=
  let o := "" in
  let o := match setup t with Some s => o ++ (get_longrepr s ++ nl) | None => o end in
  let o := match call t with Some s => o ++ (get_longrepr s ++ nl) | None => o end in
  let o := match teardown t with Some s => o ++ get_longrepr s | None => o end in
  o.

(** The choice made for a test whose outcome is [failed]. The [setup] branch
    reads [test['crash']], although the first branch found that key missing. *)
Definition failed_text (t : test) : res string :=
  if bool_decide (is_Some (crash t)) then test_crash t
  else if has_crash (setup t) then test_crash t
  else if has_crash (call t) then phase_crash "call" (call t)
  else if has_crash (teardown t) then phase_crash "teardown" (teardown t)
  else ret "".

(** The body of the loop over [tests]. *)
Definition crash_step (output : gmap string string) (t : test)
  : res (gmap string string) :=
  if String.eqb (outcome t) "error" then
    ret (<[nodeid t := error_text t]> output)
  else if String.eqb (outcome t) "failed" then
    bind (failed_text t) (fun c => ret (<[nodeid t := c]> output))
  else ret output.

Definition extract_crash_details_from_report (r : report)
  : res (gmap string string) :=
  for_each crash_step (get_tests r) ∅.

(** A failed test that takes the [setup] branch: no top-level [crash] key,
    a [crash] key in its [setup] record. *)
Definition takes_setup_branch (t : test) : bool :=
  String.eqb (outcome t) "failed"
  && negb (bool_decide (is_Some (crash t)))
  && has_crash (setup t).

(** A report none of whose tests takes the [setup] branch. *)
Definition no_setup_crash (r : report) : Prop :=
  forall t, t ∈ get_tests r -> takes_setup_branch t = false.

(** ** Spec hasher *)

(** What [make_hashable] builds: scalars and tuples. *)
Inductive hval :=
| HNone
| HBool (b : bool)
| HInt (n : Z)
| HFloat (literal : string)
| HStr (s : string)
| HTuple (xs : list hval).

(** [sorted(items)] on the items of a dictionary. Keys of a dictionary are
    distinct, so the tuple comparison is decided by the keys; insertion keeps
    the order of equal keys. *)
Fixpoint insert_item {V} (kv : string * V) (l : list (string * V))
  : list (string * V) :=
  match l with
  | [] => [kv]
  | kv' :: l' =>
      if String.leb kv.1 kv'.1 then kv :: l else kv' :: insert_item kv l'
  end.

Definition sorted_items {V} (l : list (string * V)) : list (string * V) :=
  foldr insert_item [] l.

Definition pair_tuple (kv : string * hval) : hval := HTuple [HStr kv.1; kv.2].

(** The nested helper of [consistent_hash]. A value read from JSON holds no
    Python set, so the [set] branch has no counterpart here. The source sorts
    the items and then converts the values; converting first and sorting by
    key afterwards gives the same tuple ([sorted_items_values]). *)
Fixpoint make_hashable (obj : pyval) : hval :=
  match obj with
  | PDict kvs =>
      HTuple (pair_tuple <$>
              sorted_items (map (fun '(k, v) => (k, make_hashable v)) kvs))
  | PList xs => HTuple (map make_hashable xs)
  | PNone => HNone
  | PBool b => HBool b
  | PInt n => HInt n
  | PFloat x => HFloat x
  | PStr s => HStr s
  end.

Definition unhash_fields : list string := ["install"; "test_cmd"; "eval_commands"].

(** The library functions and the module constant that [consistent_hash]
    uses: [orjson.dumps] with [OPT_SORT_KEYS], [hashlib.sha256(..).hexdigest()]
    and the template fingerprint [DOCKER_IMAGE_COMBINED] of [consts.py]. *)
Record hash_lib := {
  orjson_dumps : hval -> string;
  sha256_hexdigest : string -> string;
  DOCKER_IMAGE_COMBINED : string;
}.

(** [{k: v for k, v in data.items() if k not in unhash_fields}] *)
Definition hashed_fields (data : dict pyval) : dict pyval :=
  List.filter (fun kv => negb (mem kv.1 unhash_fields)) data.

(** The tuple that is serialized and hashed. *)
Definition canonical (data : dict pyval) : hval :=
  make_hashable (PDict (hashed_fields data)).

(** Several assignments [data[k] = v] in a row. *)
Definition dict_update {V} (updates : list (string * V)) (d : dict V) : dict V :=
  foldl (fun d kv => dict_set kv.1 kv.2 d) d updates.

Definition consistent_hash (lib : hash_lib) (data : dict pyval) : string :=
  let data := hashed_fields data in
  let hashable_data := make_hashable (PDict data) in
  let serialized := orjson_dumps lib hashable_data in
  let combined_data := serialized ++ DOCKER_IMAGE_COMBINED lib in
  sha256_hexdigest lib combined_data.

(** The order in which [sorted] puts two items of a dictionary: by key. *)
Definition key_le {V} (kv kv' : string * V) : Prop := String.leb kv.1 kv'.1 = true.

End Utils.

Import Utils.

(* ===================================================================== *)
(** * docker/image_builder.py *)
(* ===================================================================== *)

Module ImageBuilder.

(** ** Dockerfile formatting *)

Record template_vars := {
  tv_repo_path : string;
  tv_python : string;
  tv_pre_install : string;
  tv_pip_install : string;
  tv_certificates : string;
}.

(** The templates of [consts.py] with their [str.format], and the two proxy
    variables of the process environment. Template text is outside the
    engine; [DOCKER_FILE_R2E_format] raises when formatting fails. *)
Record templates := {
  GREEN_ZONE_CERTIFICATES_format : string -> string -> string;
  DOCKER_FILE_R2E_format : template_vars -> res string;
  http_proxy : string;
  https_proxy : string;
}.

Definition dquote : string := String (ascii_of_nat 34) EmptyString.

(** The strings of a list object; a list of [str] is what the annotations of
    [format_dockerfile] promise. *)
Definition str_items (xs : list value) : res (list string) :=
  foldr (fun v acc =>
           match v with
           | VStr s => bind acc (fun l => ret (s :: l))
           | _ => raise (TypeError "expected str")
           end) (ret []) xs.

(** The lines of [pip_install]: one for [packages], one for [pip_packages]. *)
Definition pip_install_lines (pip_packages : list string) (packages : option string)
  : string :=
  let pip_install := "" in
  let pip_install :=
    match packages with
    | Some p =>
        if String.eqb p "" then pip_install
        else pip_install ++ ("uv pip install --system -U " ++ p ++ nl)
    | None => pip_install
    end in
  match pip_packages with
  | [] => pip_install
  | _ =>
      let tmp := join " " (map (fun pkg => dquote ++ pkg ++ dquote) pip_packages) in
      pip_install ++ ("uv pip install --system -U " ++ tmp ++ nl)
  end.

(** The two branches on [pre_install]: a missing or empty list is replaced by
    a fresh [['true']], bound to the local name only; a list without
    ["apt-get update"] gets it inserted at index 0, in the list object that
    the caller holds. The result is the store and the steps to join. The
    argument follows its annotation [list[str]]: a value that is neither
    [None] nor a list is a [TypeError] here, whatever its truth value. *)
Definition prepare_pre_install (pre_install : value) (σ : store)
  : store * res (list string) :=
  match pre_install with
  | VNone => (σ, ret ["true"])
  | VRef l =>
      match σ !! l with
      | Some (OList []) => (σ, ret ["true"])
      | Some (OList xs) =>
          if bool_decide (VStr "apt-get update" ∈ xs) then (σ, str_items xs)
          else
            let xs' := VStr "apt-get update" :: xs in
            (<[l := OList xs']> σ, str_items xs')
      | _ => (σ, raise (TypeError "pre_install is not a list"))
      end
  | _ => (σ, raise (TypeError "pre_install is not a list"))
  end.

(** [format_dockerfile]. [pip_packages] is only read; [pre_install] is the
    list object the caller holds (or [None]), and [insert] updates that object
    in the store. The result is [None] when the template fails to format.
    Arguments follow the annotations ([list[str]], [str]); a [pre_install]
    that is neither [None] nor a list is a [TypeError] here. *)
Definition format_dockerfile (tpl : templates) (repo_path python_version : string)
    (pip_packages : list string) (packages : option string) (pre_install : value)
    (green_zone : bool) (σ : store) : store * res (option string) :=
  let certificates :=
    if green_zone
    then GREEN_ZONE_CERTIFICATES_format tpl (http_proxy tpl) (https_proxy tpl)
    else "" in
  let pip_install := pip_install_lines pip_packages packages in
  let '(σ, pre_install) := prepare_pre_install pre_install σ in
  match pre_install with
  | inl e => (σ, inl e)
  | inr pre_install =>
      let template_vars_dockerfile := {|
        tv_repo_path := repo_path;
        tv_python :=
          if startswith "python" python_version
          then slice_to 6 python_version else python_version;
        tv_pre_install := join " && " pre_install;
        tv_pip_install := pip_install;
        tv_certificates := certificates |} in
      match DOCKER_FILE_R2E_format tpl template_vars_dockerfile with
      | inr text => (σ, ret (Some text))
      | inl _ => (σ, ret None)
      end
  end.

(** ** Image names *)

Definition get_image_name (lib : hash_lib) (repo_name : string)
    (spec_dict : dict pyval) : string :=
  let repo_name := lower repo_name in
  let spec_hash := consistent_hash lib spec_dict in
  "eval-" ++ replace_char "/" "-" repo_name ++ "-" ++ slice_to 8 spec_hash.

(** ** Build orchestrator *)

(** The registry switches of [DockerRegisteryConfig] that the builder reads. *)
Record registry := {
  push_to_registry : bool;
  pull_from_registry : bool;
}.

(** One entry of the build log stream: its [stream] and [error] keys. *)
Record log_entry := {
  log_stream : option string;
  log_error : option string;
}.

(** How the stream ends once its entries are consumed. *)
Inductive stream_end :=
| StreamDone
| StreamDockerError (msg : string)
| StreamTimeout.

(** The collaborators of the builder: the container runtime, the source
    provider and the registry client, each by what it answers. *)
Record docker := {
  get_from_existing_image : string -> option string;
  get_cached_or_clone_repo : string -> bool -> res string;
  images_build : string -> string -> list log_entry * stream_end;
  push_img_to_registry : string -> res unit;
  session_timeout : string;
}.

(** What the builder asks of its collaborators, in program order. *)
Inductive event :=
| EvAcquire (image : string)
| EvRelease (image : string)
| EvCacheCheck (image : string)
| EvPullCoroutine (image : string)
| EvClone (repo : string)
| EvWriteDockerfile (image text : string)
| EvBuild (image : string)
| EvPush (image : string).

(** Process-wide state: the module globals [image_build_locks] (its keys) and
    [failed_images], the object store, and the trace of requests. *)
Record world := {
  failed_images : gset string;
  image_build_locks : gset string;
  heap : store;
  trace : list event;
}.

Definition emit (e : event) (w : world) : world :=
  {| failed_images := failed_images w;
     image_build_locks := image_build_locks w;
     heap := heap w;
     trace := trace w ++ [e] |}.

Definition set_heap (σ : store) (w : world) : world :=
  {| failed_images := failed_images w;
     image_build_locks := image_build_locks w;
     heap := σ;
     trace := trace w |}.

(** [failed_images.add(image_name)] *)
Definition mark_failed (image : string) (w : world) : world :=
  {| failed_images := {[image]} ∪ failed_images w;
     image_build_locks := image_build_locks w;
     heap := heap w;
     trace := trace w |}.

(** [image_build_locks[image_name]]: the [defaultdict] creates the lock. *)
Definition touch_lock (image : string) (w : world) : world :=
  {| failed_images := failed_images w;
     image_build_locks := {[image]} ∪ image_build_locks w;
     heap := heap w;
     trace := trace w |}.

(** What the call returns: the image name, or the coroutine object of
    [pull_img_from_registry], which the builder returns without awaiting. *)
Inductive built :=
| ImageName (name : string)
| PullCoroutine (name : string).

(** [os.path.basename] *)
Fixpoint basename_aux (acc s : string) : string :=
  match s with
  | EmptyString => acc
  | String c s' =>
      if Ascii.eqb c "/" then basename_aux "" s'
      else basename_aux (acc ++ String c EmptyString) s'
  end.

Definition basename (p : string) : string := basename_aux "" p.

(** The dictionary object behind [spec_dict]. *)
Definition spec_fields (σ : store) (spec_dict : value) : res (dict value) :=
  match spec_dict with
  | VRef l =>
      match σ !! l with
      | Some (ODict kvs) => ret kvs
      | _ => raise (AttributeError "items")
      end
  | _ => raise (AttributeError "items")
  end.

(** The JSON value of [spec_dict] as [consistent_hash] traverses it. *)
Definition spec_json (σ : store) (spec_dict : value) : res (dict pyval) :=
  match reify (S (size σ)) σ spec_dict with
  | Some (PDict kvs) => ret kvs
  | _ => raise (AttributeError "items")
  end.

(** [spec_dict.get("pip_packages", [])] read as a list of strings, as the
    annotation [list[str]] of [format_dockerfile] has it. A value of another
    type, which the f-string of [format_dockerfile] would format, is a
    [TypeError] here. *)
Definition get_pip_packages (σ : store) (fields : dict value) : res (list string) :=
  match dict_get "pip_packages" fields with
  | None | Some VNone => ret []
  | Some (VRef l) =>
      match σ !! l with
      | Some (OList xs) => str_items xs
      | _ => raise (TypeError "pip_packages is not a list")
      end
  | Some _ => raise (TypeError "pip_packages is not a list")
  end.

(** [spec_dict['python']] *)
Definition get_python (fields : dict value) : res string :=
  bind (getitem "python" fields) (fun v =>
    match v with
    | VStr s => ret s
    | _ => raise (AttributeError "startswith")
    end).

(** [spec_dict.get("packages")] *)
Definition get_packages (fields : dict value) : res (option string) :=
  match dict_get "packages" fields with
  | None | Some VNone => ret None
  | Some (VStr s) => ret (Some s)
  | Some _ => raise (TypeError "packages is not a str")
  end.

(** The loop over the build log: entries with a [stream] key are logged; the
    first other entry with an [error] key ends the build. *)
Fixpoint first_build_error (logs : list log_entry) : option string :=
  match logs with
  | [] => None
  | l :: logs' =>
      match log_stream l, log_error l with
      | Some _, _ => first_build_error logs'
      | None, Some e => Some e
      | None, None => first_build_error logs'
      end
  end.

(** The two exceptions of the builder that concern the failed set. *)
Definition failed_before (image_name : string) : exn :=
  Exception ("Failed to build image " ++ image_name ++ " before. Skipping the build.").

Definition build_failed (err : string) : exn :=
  Exception ("Build failed: " ++ err ++ "." ++ nl ++ "For more details, check the logs").

(** The requests that get past the cache and the registry: a forced
    rebuild, or no local image and no pull configured. *)
Definition reaches_build (d : docker) (image_name : string) (force_rebuild : bool)
    (registry_config : option registry) : Prop :=
  force_rebuild = true \/
  (get_from_existing_image d image_name = None /\
   match registry_config with
   | Some cfg => pull_from_registry cfg = false
   | None => True
   end).

(** The build proper: what the body does once the cache and the registry
    gave no image. *)
Definition build_image (tpl : templates) (d : docker) (repo_name image_name : string)
    (fields : dict value) (force_rebuild green_zone : bool)
    (registry_config : option registry) (w : world) : world * res built :=
  let w := emit (EvClone repo_name) w in
  match get_cached_or_clone_repo d repo_name force_rebuild with
  | inl e => (w, inl e)
  | inr repo_path =>
  match get_python fields with
  | inl e => (w, inl e)
  | inr python_version =>
  match get_pip_packages (heap w) fields with
  | inl e => (w, inl e)
  | inr pip_packages =>
  match get_packages fields with
  | inl e => (w, inl e)
  | inr packages =>
  let pre_install := default VNone (dict_get "pre_install" fields) in
  let '(σ, formatted) :=
    format_dockerfile tpl (basename repo_path) python_version pip_packages
      packages pre_install green_zone (heap w) in
  let w := set_heap σ w in
  match formatted with
  | inl e => (w, inl e)
  | inr None => (w, raise (TypeError "write() argument must be str, not None"))
  | inr (Some formatted_docker) =>
  let w := emit (EvWriteDockerfile image_name formatted_docker) w in
  let w := emit (EvBuild image_name) w in
  let '(logs, fin) := images_build d image_name formatted_docker in
  match first_build_error logs with
  | Some err => (mark_failed image_name w, raise (build_failed err))
  | None =>
  match fin with
  | StreamDockerError msg => (w, raise (DockerError msg))
  | StreamTimeout =>
      (w, raise (TimeoutError ("Build timeout after " ++ session_timeout d
                               ++ " seconds.")))
  | StreamDone =>
      match registry_config with
      | Some cfg =>
          if push_to_registry cfg then
            let w := emit (EvPush image_name) w in
            match push_img_to_registry d image_name with
            | inl e => (w, inl e)
            | inr _ => (w, ret (ImageName image_name))
            end
          else (w, ret (ImageName image_name))
      | None => (w, ret (ImageName image_name))
      end
  end end end end end end end.

(** The body of [async with image_build_locks[image_name]]. *)
Definition build_locked (tpl : templates) (d : docker) (repo_name image_name : string)
    (fields : dict value) (force_rebuild green_zone : bool)
    (registry_config : option registry) (w : world) : world * res built :=
  let build :=
    build_image tpl d repo_name image_name fields force_rebuild green_zone
      registry_config in
  if bool_decide (image_name ∈ failed_images w) then
    (w, raise (failed_before image_name))
  else if force_rebuild then build w
  else
    let w := emit (EvCacheCheck image_name) w in
    match get_from_existing_image d image_name with
    | Some _ => (w, ret (ImageName image_name))
    | None =>
        match registry_config with
        | Some cfg =>
            if pull_from_registry cfg then
              (emit (EvPullCoroutine image_name) w, ret (PullCoroutine image_name))
            else build w
        | None => build w
        end
    end.

Definition build_docker_image_from_specs (lib : hash_lib) (tpl : templates)
    (d : docker) (repo_name : string) (spec_dict : value)
    (force_rebuild green_zone : bool) (registry_config : option registry)
    (w : world) : world * res built :=
  match spec_json (heap w) spec_dict with
  | inl e => (w, inl e)
  | inr json =>
      let image_name := get_image_name lib repo_name json in
      let w := emit (EvAcquire image_name) (touch_lock image_name w) in
      let '(w, r) :=
        match spec_fields (heap w) spec_dict with
        | inl e => (w, inl e)
        | inr fields =>
            build_locked tpl d repo_name image_name fields force_rebuild
              green_zone registry_config w
        end in
      (emit (EvRelease image_name) w, r)
  end.

(** A build request and a run of requests against one process state. The
    collaborators may answer differently at every request. *)
Record request := {
  rq_docker : docker;
  rq_repo_name : string;
  rq_spec_dict : value;
  rq_force_rebuild : bool;
  rq_green_zone : bool;
  rq_registry_config : option registry;
}.

Definition serve (lib : hash_lib) (tpl : templates) (w : world) (rq : request)
  : world :=
  (build_docker_image_from_specs lib tpl (rq_docker rq) (rq_repo_name rq)
     (rq_spec_dict rq) (rq_force_rebuild rq) (rq_green_zone rq)
     (rq_registry_config rq) w).1.

Definition serve_all (lib : hash_lib) (tpl : templates) (w : world)
    (rqs : list request) : world :=
  foldl (serve lib tpl) w rqs.

End ImageBuilder.

Import ImageBuilder.

(* ===================================================================== *)
(** * run_instance.py *)
(* ===================================================================== *)

Module RunInstance.

(** [compose_a_report_for_missing_test]; [not longrepr] holds for [None] and
    for the empty string. *)
Definition compose_a_report_for_missing_test (test : string)
    (longrepr : option string) : Report.test :=
  let missing := test ++ " not found in the working directory." in
  match longrepr with
  | Some text =>
      if String.eqb text "" then
        {| nodeid := test; outcome := "error"; crash := None;
           setup := Some {| stage_outcome := "failed"; Report.longrepr := Some missing;
                            stage_crash := None |};
           call := None;
           teardown := Some {| stage_outcome := "skipped"; Report.longrepr := Some missing;
                               stage_crash := None |} |}
      else
        {| nodeid := test; outcome := "error"; crash := None;
           setup := Some {| stage_outcome := "failed"; Report.longrepr := Some text;
                            stage_crash := None |};
           call := None;
           teardown := None |}
  | None =>
      {| nodeid := test; outcome := "error"; crash := None;
         setup := Some {| stage_outcome := "failed"; Report.longrepr := Some missing;
                          stage_crash := None |};
         call := None;
         teardown := Some {| stage_outcome := "skipped"; Report.longrepr := Some missing;
                             stage_crash := None |} |}
  end.

(** [{x['nodeid']: ... for x in results['tests']}]: a later entry with the
    same node id replaces an earlier one. *)
Definition summarize (skipped_ok : bool) (ts : list Report.test) : gmap string bool :=
  foldl (fun m x =>
           <[nodeid x :=
               if skipped_ok
               then mem (outcome x) ["passed"; "skipped"]
               else String.eqb (outcome x) "passed"]> m)
        ∅ ts.

Definition is_import_error (longrepr : string) : bool :=
  contains "ModuleNotFoundError" longrepr || contains "ImportError" longrepr.

(** The body of the loop over [results['collectors']]. *)
Definition collector_step (problematic_collectors : dict string) (c : collector)
  : res (dict string) :=
  if String.eqb (c_outcome c) "failed" then
    match c_longrepr c with
    | None => raise (KeyError "longrepr")
    | Some text =>
        if is_import_error text then
          raise (Exception ("Failed to collect tests due to an ImportError: "
                            ++ c_nodeid c ++ nl ++ text))
        else ret (dict_set (c_nodeid c) text problematic_collectors)
    end
  else ret problematic_collectors.

(** The validation block: skipped unless tests were requested and the report
    has a [collectors] key. *)
Definition validate_collectors (results : report) (tests : list string)
    (ignore_collector_errors : bool) : res (dict string) :=
  match tests, collectors results with
  | _ :: _, Some cs =>
      bind (for_each collector_step cs []) (fun problematic_collectors =>
        match problematic_collectors with
        | _ :: _ =>
            if negb ignore_collector_errors
            then raise (Exception "Failed to collect tests")
            else ret problematic_collectors
        | [] => ret problematic_collectors
        end)
  | _, _ => ret []
  end.

(** The text of the first problematic collector whose node id occurs in the
    test id. *)
Fixpoint matching_longrepr (problematic_collectors : dict string) (test : string)
  : option string :=
  match problematic_collectors with
  | [] => None
  | (pcollectors, text) :: rest =>
      if contains pcollectors test then Some text
      else matching_longrepr rest test
  end.

(** The state of the reconciliation loop. *)
Record gathering := {
  short_results : gmap string bool;
  result_tests : list Report.test;
}.

Definition reconcile_step (short : bool) (problematic_collectors : dict string)
    (g : gathering) (test : string) : gathering :=
  {| short_results := <[test := false]> (short_results g);
     result_tests :=
       if short then result_tests g
       else result_tests g ++
            [compose_a_report_for_missing_test test
               (matching_longrepr problematic_collectors test)] |}.

(** What [gather_results] returns: the short map or the full report. *)
Inductive gathered :=
| Short (m : gmap string bool)
| Full (r : report).

(** [gather_results] from the point where the report file has been parsed
    into [results]. *)
Definition gather_results (results : report) (tests : list string)
    (skipped_ok short ignore_collector_errors : bool) : res gathered :=
  match Report.tests results with
  | None => raise (KeyError "tests")
  | Some ts =>
      let short_results := summarize skipped_ok ts in
      bind (validate_collectors results tests ignore_collector_errors)
        (fun problematic_collectors =>
           let g0 := {| short_results := short_results; result_tests := ts |} in
           let g :=
             match tests with
             | _ :: _ =>
                 if (List.length ts <? List.length tests)%nat then
                   let tests_missing :=
                     List.filter (fun t => bool_decide (short_results !! t = None)) tests in
                   foldl (reconcile_step short problematic_collectors) g0 tests_missing
                 else g0
             | [] => g0
             end in
           if short then ret (Short (RunInstance.short_results g))
           else ret (Full {| Report.tests := Some (result_tests g);
                             collectors := collectors results;
                             root := root results |}))
  end.

(** The requested ids that the report does not list, in request order. *)
Definition tests_missing (ts : list Report.test) (tests : list string) : list string :=
  List.filter (fun t => bool_decide (t ∉ map nodeid ts)) tests.

(** A collector that failed on an import or module-resolution error. *)
Definition import_failure (c : collector) : Prop :=
  c_outcome c = "failed" /\
  exists text, c_longrepr c = Some text /\ is_import_error text = true.

(** A collector that, if it failed, carries a text without such an error. *)
Definition plain_failure (c : collector) : Prop :=
  c_outcome c = "failed" ->
  exists text, c_longrepr c = Some text /\ is_import_error text = false.

End RunInstance.

Import RunInstance.

(* ===================================================================== *)
(** * evaluate.py *)
(* ===================================================================== *)

Module Evaluate.

(** One entry of the prepared dataset. *)
Record instance := {
  repo : string;
  instance_id : string;
  base_commit : string;
  patches : list string;
  inst_tests : list string;
  spec_dict : value;
}.

(** What a worker records for an instance: the captured error, the short map
    under the [tests] key, or the full report itself. *)
Inductive eval_result :=
| EvalError (error traceback : string)
| EvalShort (tests : gmap string bool)
| EvalFull (r : report).

(** ["error" in result] *)
Definition has_error (r : eval_result) : bool :=
  match r with
  | EvalError _ _ => true
  | _ => false
  end.

(** [str(e)] *)
Definition exn_message (e : exn) : string :=
  match e with
  | KeyError m | UnboundLocalError m | AttributeError m | TypeError m
  | ValueError m | AssertionError m | DockerError m | TimeoutError m
  | Exception m => m
  end.

(** The worker pool seen from the scheduler: [attempt] is what building the
    image and running the instance returns or raises, [traceback_of] the text
    of [traceback.format_exc()], and [completion] the order in which the
    instances of a submitted chunk finish. *)
Record pool := {
  attempt : instance -> res gathered;
  traceback_of : exn -> string;
  completion : list instance -> list instance;
}.

(** What a worker records for an instance: the result, or the exception it
    caught. *)
Definition result_of (p : pool) (i : instance) : eval_result :=
  match attempt p i with
  | inr (Short m) => EvalShort m
  | inr (Full r) => EvalFull r
  | inl e => EvalError (exn_message e) (traceback_of p e)
  end.

(** The assignment a worker makes to [results] when an instance finishes. *)
Definition record_result (p : pool) (results : gmap string eval_result)
    (i : instance) : gmap string eval_result :=
  <[instance_id i := result_of p i]> results.

(** Putting a chunk on the queue and [await queue.join()]. *)
Definition drain (p : pool) (batch : list instance)
    (results : gmap string eval_result) : gmap string eval_result :=
  foldl (record_result p) results (completion p batch).

(** The scheduler's state: [results] and the chunks put on the queue. *)
Record sched := {
  results : gmap string eval_result;
  submitted : list (list instance);
}.

(** [range(0, stop, step)] for a positive step. *)
Definition range_step (stop step : nat) : list nat :=
  map (fun j => j * step)%nat (seq 0 ((stop + step - 1) / step)).

(** [instance_datas[i:i+max_workers]] *)
Definition slice {A} (l : list A) (i n : nat) : list A := take n (drop i l).

(** The chunks of batch mode, in submission order. *)
Definition chunks {A} (l : list A) (n : nat) : list (list A) :=
  map (fun i => slice l i n) (range_step (List.length l) n).

(** [all("error" in results[iid] for iid in instance_ids)]: stops at the
    first id without an error, raises on an id without a result. *)
Fixpoint all_errors (results : gmap string eval_result) (instance_ids : list string)
  : res bool :=
  match instance_ids with
  | [] => ret true
  | iid :: rest =>
      match results !! iid with
      | None => raise (KeyError iid)
      | Some r => if has_error r then all_errors results rest else ret false
      end
  end.

(** The loop of batch mode over the start indices. *)
Fixpoint batch_loop (p : pool) (instance_datas : list instance) (max_workers : nat)
    (starts : list nat) (st : sched) : res sched :=
  match starts with
  | [] => ret st
  | i :: starts' =>
      let batch := slice instance_datas i max_workers in
      let instance_ids := map instance_id batch in
      let st := {| results := drain p batch (results st);
                   submitted := submitted st ++ [batch] |} in
      bind (all_errors (results st) instance_ids) (fun stop =>
        if stop then ret st
        else batch_loop p instance_datas max_workers starts' st)
  end.

(** [evaluate] with [batch_mode=True]: the chunks submitted and the results
    returned. A zero step makes [range] raise. *)
Definition evaluate_batch (p : pool) (instance_datas : list instance)
    (max_workers : nat) : res sched :=
  match max_workers with
  | O => raise (ValueError "range() arg 3 must not be zero")
  | S _ =>
      batch_loop p instance_datas max_workers
        (range_step (List.length instance_datas) max_workers)
        {| results := ∅; submitted := [] |}
  end.

(** Every instance of the batch raised. *)
Definition all_raise (p : pool) (batch : list instance) : Prop :=
  Forall (fun i => raises (attempt p i)) batch.

(** Workers finish every instance of a submitted chunk, in some order. *)
Definition fair (p : pool) : Prop := forall batch, completion p batch ≡ₚ batch.

(** The results once the chunks [cs] were put on the queue and drained, one
    after the other, starting from [results]. *)
Definition drain_all (p : pool) (cs : list (list instance))
    (results : gmap string eval_result) : gmap string eval_result :=
  foldl (fun results batch => drain p batch results) results cs.

(** Every instance of the chunk has an error result: the condition that
    [all("error" in results[iid] for iid in instance_ids)] tests. *)
Definition chunk_failed (results : gmap string eval_result) (batch : list instance)
  : Prop :=
  forall i, i ∈ batch ->
    exists r, results !! instance_id i = Some r /\ has_error r = true.

End Evaluate.

(* ===================================================================== *)
(** * utils.py: dataset preparation *)
(* ===================================================================== *)

Module Dataset.

Import Evaluate.

(** One record of the raw dataset, with the keys that
    [prepare_dataset_for_evaluation] reads. [d_spec_dict] is what
    [data.get('spec_dict')] returns: the reference held by the record, or
    [None]. *)
Record raw := {
  d_instance_id : string;
  d_repo : string;
  d_base_commit : string;
  d_test_patch : string;
  d_patch : string;
  d_PASS_TO_PASS : list string;
  d_FAIL_TO_PASS : list string;
  d_spec_dict : value;
}.

(** A dictionary comprehension [{k: v for ...}] over pairs. *)
Definition dict_of {V} (kvs : list (string * V)) : dict V := dict_update kvs [].

(** [set(instance_ids) - dataset_dict.keys()] is not empty. *)
Definition has_missing_id {V} (instance_ids : list string) (dataset_dict : dict V) : bool :=
  existsb (fun iid => bool_decide (dict_get iid dataset_dict = None)) instance_ids.

(** The entry built for [iid] from its raw record. *)
Definition prepared (predictions : dict string) (iid : string) (data : raw) : instance :=
  {| repo := d_repo data;
     instance_id := iid;
     base_commit := d_base_commit data;
     patches := [d_test_patch data; default (d_patch data) (dict_get iid predictions)];
     inst_tests := (d_PASS_TO_PASS data ++ d_FAIL_TO_PASS data)%list;
     spec_dict := d_spec_dict data |}.

(** [prepare_dataset_for_evaluation]. [predictions] holds the records of the
    prediction file, or nothing when no path is given; [instance_ids] is [None]
    or a list, and an empty list selects everything, as [None] does. *)
Definition prepare_dataset_for_evaluation (raw_dataset : list raw)
    (instance_ids : option (list string)) (predictions : list (string * string))
  : res (dict instance) :=
  let dataset_dict := dict_of (map (fun data => (d_instance_id data, data)) raw_dataset) in
  let selected :=
    match instance_ids with
    | Some ((_ :: _) as ids) =>
        if has_missing_id ids dataset_dict
        then raise (ValueError "Instance IDs not found in the dataset")
        else ret (dict_of (omap (fun iid => pair iid <$> dict_get iid dataset_dict) ids))
    | _ => ret dataset_dict
    end in
  let predictions := dict_of predictions in
  bind selected (fun dataset_dict =>
    ret (dict_of (map (fun '(iid, data) => (iid, prepared predictions iid data))
                      dataset_dict))).

(** The ids that a request selects: [None] and the empty list select every
    id. *)
Definition selects (instance_ids : option (list string)) (iid : string) : Prop :=
  match instance_ids with
  | Some ((_ :: _) as ids) => iid ∈ ids
  | _ => True
  end.

(** [list(dataset.values())], the order in which [evaluate] takes the
    instances. *)
Definition values {V} (d : dict V) : list V := map snd d.

End Dataset.

(* ===================================================================== *)
(** * produce.py *)
(* ===================================================================== *)

Module Produce.

Definition PASS_OUTCOMES : list string := ["passed"; "skipped"].
Definition FAIL_OUTCOMES : list string := ["failed"; "error"].

(** The result of one instance in one round, as [evaluate] returns it with
    [short=False]: a captured error or the full report. *)
Inductive round_result :=
| RoundError (error traceback : string)
| RoundReport (r : report).

Record result_entry := {
  p2p : list string;
  f2p : list string;
  f2f : list string;
  p2f : list string;
  f2f_test_details : gmap string string;
  p2f_test_details : gmap string string;
}.

(** The value stored for an instance. *)
Inductive classification :=
| ClsError (error : string)
| ClsEntry (e : result_entry).

(** [{test['nodeid'] for test in tests if test['outcome'] in outcomes}] *)
Definition nodeids_with (outcomes : list string) (ts : list Report.test) : gset string :=
  list_to_set (map nodeid (List.filter (fun t => mem (outcome t) outcomes) ts)).

(** [{test: crash_details[test] for test in keys}] *)
Definition restrict (keys : gset string) (crash_details : gmap string string)
  : gmap string string :=
  filter (fun kv => kv.1 ∈ keys) crash_details.

(** The entry built from the two rounds, before the root marker is applied:
    [golden_tests_passed] and [crash_details] are the locals of the same
    names. *)
Definition classify (pre_golden_round_result : round_result)
    (golden_tests_passed : gset string) (crash_details : gmap string string)
  : result_entry :=
  let golden_pass := golden_tests_passed in
  let golden_fail : gset string := dom crash_details in
  match pre_golden_round_result with
  | RoundError _ _ =>
      {| p2p := []; f2p := elements golden_tests_passed;
         f2f := elements (dom crash_details : gset string); p2f := [];
         f2f_test_details := crash_details; p2f_test_details := ∅ |}
  | RoundReport pre =>
      let pre_golden_pass := nodeids_with PASS_OUTCOMES (get_tests pre) in
      let pre_golden_fail := nodeids_with FAIL_OUTCOMES (get_tests pre) in
      {| f2p := elements (pre_golden_fail ∩ golden_pass);
         p2p := elements (pre_golden_pass ∩ golden_pass);
         f2f := elements (pre_golden_fail ∩ golden_fail);
         p2f := elements (pre_golden_pass ∩ golden_fail);
         f2f_test_details := restrict (pre_golden_fail ∩ golden_fail) crash_details;
         p2f_test_details := restrict (pre_golden_pass ∩ golden_fail) crash_details |}
  end.

(** [{os.path.join(root_dir, k): v for k, v in details.items()}]. Keys that
    collide after the join keep one of their values; which one depends on the
    iteration order of the dictionary, which a [gmap] does not record. *)
Definition relocate_details (root_dir : string) (details : gmap string string)
  : gmap string string :=
  list_to_map (map (fun kv => (path_join root_dir kv.1, kv.2)) (map_to_list details)).

(** The rewrite of the emitted node ids under a root marker. *)
Definition relocate (root_dir : option string) (e : result_entry) : result_entry :=
  match root_dir with
  | Some dir =>
      if negb (String.eqb dir "") && negb (String.eqb dir "/workspace") then
        {| f2p := map (path_join dir) (f2p e);
           p2p := map (path_join dir) (p2p e);
           f2f := map (path_join dir) (f2f e);
           p2f := map (path_join dir) (p2f e);
           f2f_test_details := relocate_details dir (f2f_test_details e);
           p2f_test_details := relocate_details dir (p2f_test_details e) |}
      else e
  | None => e
  end.

(** The locals that outlive one iteration of the loop: [crash_details] stays
    bound to the map of an earlier instance when the extraction of the
    current one raises, and [instance_id2results] accumulates. *)
Record loop_state := {
  crash_details_var : option (gmap string string);
  instance_id2results : gmap string classification;
}.

(** One iteration of the loop over [golden_round_results.items()]. *)
Definition gather_step (pre_golden_round_results : gmap string round_result)
    (st : loop_state) (item : string * round_result) : res loop_state :=
  let '(instance_id, golden_round_result) := item in
  match pre_golden_round_results !! instance_id with
  | None => ret st
  | Some pre_golden_round_result =>
      match golden_round_result with
      | RoundError error _ =>
          ret {| crash_details_var := crash_details_var st;
                 instance_id2results :=
                   <[instance_id := ClsError error]> (instance_id2results st) |}
      | RoundReport golden =>
          let golden_tests_passed := nodeids_with PASS_OUTCOMES (get_tests golden) in
          let crash_details_var :=
            match extract_crash_details_from_report golden with
            | inr crash_details => Some crash_details
            | inl _ => crash_details_var st
            end in
          match crash_details_var with
          | None => raise (UnboundLocalError "crash_details")
          | Some crash_details =>
              let result_entry :=
                classify pre_golden_round_result golden_tests_passed crash_details in
              let result_entry := relocate (root golden) result_entry in
              ret {| crash_details_var := Some crash_details;
                     instance_id2results :=
                       <[instance_id := ClsEntry result_entry]> (instance_id2results st) |}
          end
      end
  end.

(** A golden-round result whose crash details can be extracted. *)
Definition extractable (golden_round_result : round_result) : Prop :=
  match golden_round_result with
  | RoundReport golden => returns (extract_crash_details_from_report golden)
  | RoundError _ _ => True
  end.

(** The root markers that leave the node ids as they are. *)
Definition default_root (root_dir : option string) : Prop :=
  root_dir = None \/ root_dir = Some "" \/ root_dir = Some "/workspace".

(** A report in which no node id carries both a passing and a failing
    outcome. *)
Definition single_class (r : report) : Prop :=
  nodeids_with PASS_OUTCOMES (get_tests r) ## nodeids_with FAIL_OUTCOMES (get_tests r).

Definition single_class_result (r : round_result) : Prop :=
  match r with
  | RoundReport rep => single_class rep
  | RoundError _ _ => True
  end.

(** A report all of whose node ids are relative paths. *)
Definition relative_ids (r : report) : Prop :=
  forall t, t ∈ get_tests r -> startswith "/" (nodeid t) = false.

(** The four emitted lists share no node id. *)
Definition pairwise_disjoint (e : result_entry) : Prop :=
  f2p e ## p2p e /\ f2p e ## f2f e /\ f2p e ## p2f e /\
  p2p e ## f2f e /\ p2p e ## p2f e /\ f2f e ## p2f e.

(** [gather_results]: the golden round is traversed in insertion order. *)
Definition gather_results (pre_golden_round_results : gmap string round_result)
    (golden_round_results : list (string * round_result))
  : res (gmap string classification) :=
  bind (for_each (gather_step pre_golden_round_results) golden_round_results
          {| crash_details_var := None; instance_id2results := ∅ |})
       (fun st => ret (instance_id2results st)).

End Produce.

Import Evaluate Produce.

(* ===================================================================== *)
(** * docker/docker_utils.py *)
(* ===================================================================== *)

Module DockerUtils.

(** The inner loop: the first tag of the list that contains the image
    name. *)
Fixpoint find_tag (image_name : string) (tags : list string) : option string :=
  match tags with
  | [] => None
  | tag :: tags' => if contains image_name tag then Some tag else find_tag image_name tags'
  end.

(** [existing_images]: the tag lists of the images that have one. An image
    is given by its [RepoTags] entry, [None] when the key is missing or
    null. *)
Definition existing_images (images : list (option (list string))) : list (list string) :=
  omap (fun img => match img with
                   | Some (tag :: tags) => Some (tag :: tags)
                   | _ => None
                   end) images.

(** The loop over [existing_images]. *)
Fixpoint find_image (image_name : string) (existing : list (list string)) : option string :=
  match existing with
  | [] => None
  | tags :: rest =>
      match find_tag image_name tags with
      | Some tag => Some tag
      | None => find_image image_name rest
      end
  end.

(** [get_from_existing_image] on the answer of [client.images.list()]. *)
Definition get_from_existing_image (images : list (option (list string)))
    (image_name : string) : option string :=
  find_image image_name (existing_images images).

(** Every tag of the listing, in listing order. *)
Definition all_tags (images : list (option (list string))) : list string :=
  List.concat (map (default []) images).

End DockerUtils.

(* ===================================================================== *)
(** * docker/image_builder.py: building a data file *)
(* ===================================================================== *)

Module BuildAll.

(** The loop of [build_all_images] over the records of the data file: one
    build per record, in order, with the one client [d] and the global
    registry configuration; an exception ends the loop. A [repo] that is not
    a string fails at [repo_name.lower()]. *)
Fixpoint build_all_images (lib : hash_lib) (tpl : templates) (d : docker)
    (GLOBAL_REGISTRY_CONFIG : registry) (data : list (dict value))
    (force_build green_zone : bool) (w : world) : world * res unit :=
  match data with
  | [] => (w, ret ())
  | instance :: data' =>
      match getitem "repo" instance with
      | inl e => (w, inl e)
      | inr repo =>
      match getitem "spec_dict" instance with
      | inl e => (w, inl e)
      | inr spec_dict =>
      match repo with
      | VStr repo =>
          let '(w, r) :=
            build_docker_image_from_specs lib tpl d repo spec_dict force_build
              green_zone (Some GLOBAL_REGISTRY_CONFIG) w in
          match r with
          | inl e => (w, inl e)
          | inr _ =>
              build_all_images lib tpl d GLOBAL_REGISTRY_CONFIG data' force_build
                green_zone w
          end
      | _ => (w, raise (AttributeError "lower"))
      end end end
  end.

End BuildAll.

(* ===================================================================== *)
(** * utils.py: test files of a patch *)
(* ===================================================================== *)

Module Patches.

(** [s.split(c)] for a one-character separator. *)
Fixpoint split_on (c : ascii) (s : string) : list string :=
  match s with
  | EmptyString => [EmptyString]
  | String a s' =>
      if Ascii.eqb a c then EmptyString :: split_on c s'
      else match split_on c s' with
           | h :: t => String a h :: t
           | [] => [String a EmptyString]
           end
  end.

(** The locals of the loop of [extract_modified_test_files]. *)
Record scan := {
  modified_files : gset string;
  current_file : option string;
  is_deleted : bool;
}.

(** [current_file in black_list.split()]; [None] is in no list of words. *)
Definition blocked (black_list : list string) (st : scan) : bool :=
  match current_file st with
  | Some f => mem f black_list
  | None => false
  end.

(** The body of the loop. [test_file_of] stands for the [re.match] of the
    header pattern: the captured path of a header that names a test file.
    [black_list] is the list of words [black_list.split()]. *)
Definition scan_line (test_file_of : string -> option string) (black_list : list string)
    (st : scan) (line : string) : scan :=
  if blocked black_list st then st
  else if startswith "diff --git" line then
    match test_file_of line with
    | Some f =>
        {| modified_files := modified_files st; current_file := Some f;
           is_deleted := false |}
    | None =>
        {| modified_files := modified_files st; current_file := None;
           is_deleted := false |}
    end
  else if startswith "+++" line then
    if startswith "+++ /dev/null" line || startswith "--- /dev/null" line then
      {| modified_files := modified_files st; current_file := current_file st;
         is_deleted := true |}
    else st
  else if startswith "@@" line then
    match current_file st with
    | Some f =>
        if negb (String.eqb f "") && negb (is_deleted st) then
          {| modified_files := {[f]} ∪ modified_files st;
             current_file := current_file st; is_deleted := is_deleted st |}
        else st
    | None => st
    end
  else st.

Definition scan_lines (test_file_of : string -> option string) (black_list : list string)
    (lines : list string) (st : scan) : scan :=
  foldl (scan_line test_file_of black_list) st lines.

(** [extract_modified_test_files]; the result is the set behind the returned
    list. *)
Definition extract_modified_test_files (test_file_of : string -> option string)
    (test_patch : string) (black_list : list string) : gset string :=
  modified_files
    (scan_lines test_file_of black_list (split_on (ascii_of_nat 10) test_patch)
       {| modified_files := ∅; current_file := None; is_deleted := false |}).

End Patches.

(* ===================================================================== *)
(** * run_instance.py: the test command *)
(* ===================================================================== *)

Module EvalScript.

Definition JSON_REPORT_FLAGS : string :=
  "--tb=short --json-report --json-report-file=/pass_report.json -W ignore::DeprecationWarning".

(** The local [test_cmd] of [format_eval_script] at the point where the
    template is filled. [shlex_quote] stands for [shlex.quote]. *)
Definition eval_test_cmd (shlex_quote : string -> string) (tests : list string)
    (test_cmd : string) (timeout : Z) (failfast : bool) : string :=
  match tests with
  | [] =>
      "echo 'No test to run' && " ++ test_cmd
        ++ " my_dummy_test_that_has_a_very_unique_name.py"
  | _ :: _ =>
      let test_cmd :=
        if failfast && negb (contains "-x " test_cmd)
           && negb (contains "--exitfirst" test_cmd)
        then test_cmd ++ " --exitfirst" else test_cmd in
      let test_cmd :=
        if contains "json-report" test_cmd then test_cmd
        else test_cmd ++ " " ++ JSON_REPORT_FLAGS in
      test_cmd ++ (" --timeout " ++ pretty timeout ++ " ")
        ++ join " " (map shlex_quote tests)
  end.

End EvalScript.

(* ===================================================================== *)
(** * evaluate.py: streaming mode and the evaluation report *)
(* ===================================================================== *)

Module EvaluateReport.

Import Evaluate.

(** [evaluate] with [batch_mode=False]: every instance is put on the queue
    and [queue.join()] waits until the workers have taken them all. Without
    a worker nothing is ever taken, and the call returns only for an empty
    dataset; [None] stands for a call that does not return. *)
Definition evaluate_stream (p : pool) (instance_datas : list instance)
    (max_workers : nat) : option (gmap string eval_result) :=
  match max_workers, instance_datas with
  | O, _ :: _ => None
  | _, _ => Some (drain p instance_datas ∅)
  end.

(** The counters and the id collections of [json_output]. The two
    dictionaries are kept as their key lists, in insertion order; their
    values are the running times. *)
Record json_output := {
  resolved : nat;
  unresolved : nat;
  errors : nat;
  total : nat;
  resolved_instances : list string;
  unresolved_instances : list string;
  errors_instances : list string;
}.

(** [all([code for code in result['tests'].values()])] *)
Definition all_codes (tests : gmap string bool) : bool :=
  bool_decide (map_Forall (fun _ code => code = true) tests).

(** The body of the loop over [results.items()]. A full report has a list
    under [tests], which has no [values]. *)
Definition report_step (out : json_output) (item : string * eval_result)
  : res json_output :=
  let '(iid, result) := item in
  match result with
  | EvalError _ _ =>
      ret {| resolved := resolved out; unresolved := unresolved out;
             errors := errors out + 1; total := total out;
             resolved_instances := resolved_instances out;
             unresolved_instances := unresolved_instances out;
             errors_instances := errors_instances out ++ [iid] |}
  | EvalShort tests =>
      if all_codes tests then
        ret {| resolved := resolved out + 1; unresolved := unresolved out;
               errors := errors out; total := total out;
               resolved_instances := resolved_instances out ++ [iid];
               unresolved_instances := unresolved_instances out;
               errors_instances := errors_instances out |}
      else
        ret {| resolved := resolved out; unresolved := unresolved out + 1;
               errors := errors out; total := total out;
               resolved_instances := resolved_instances out;
               unresolved_instances := unresolved_instances out ++ [iid];
               errors_instances := errors_instances out |}
  | EvalFull _ => raise (AttributeError "values")
  end.

(** The report that [run_evaluate] composes from [results.items()]. *)
Definition compose_report (items : list (string * eval_result)) : res json_output :=
  for_each report_step items
    {| resolved := 0; unresolved := 0; errors := 0; total := List.length items;
       resolved_instances := []; unresolved_instances := [];
       errors_instances := [] |}.

(** The three classes of the report. *)
Definition is_resolved (r : eval_result) : bool :=
  match r with
  | EvalShort tests => all_codes tests
  | _ => false
  end.

Definition is_unresolved (r : eval_result) : bool :=
  match r with
  | EvalShort tests => negb (all_codes tests)
  | _ => false
  end.

(** The ids of the items of one class, in the order of the items. *)
Definition ids_where (class : eval_result -> bool)
    (items : list (string * eval_result)) : list string :=
  (List.filter (fun kv => class kv.2) items).*1.

End EvaluateReport.

(* ===================================================================== *)
(** * produce.py: preparing the rounds *)
(* ===================================================================== *)

Module ProducePrepare.

Import Evaluate.

Definition CONTINUE_FLAG : string := " --continue-on-collection-errors".

(** [instance_data['spec_dict']['test_cmd'] = instance_data['spec_dict']['test_cmd'] + flag]:
    an update of the dictionary object that the instance refers to. *)
Definition append_flag (σ : store) (spec_dict : value) : res store :=
  match spec_dict with
  | VRef l =>
      match σ !! l with
      | Some (ODict kvs) =>
          bind (getitem "test_cmd" kvs) (fun cmd =>
            match cmd with
            | VStr cmd =>
                ret (<[l := ODict (dict_set "test_cmd" (VStr (cmd ++ CONTINUE_FLAG)) kvs)]> σ)
            | _ => raise (TypeError "unsupported operand type(s) for +")
            end)
      | _ => raise (TypeError "list indices must be integers or slices, not str")
      end
  | _ => raise (TypeError "object is not subscriptable")
  end.

(** The loop of [run_produce] over the prepared dataset: the tests of each
    instance become the test files of its test patch, in the order in which
    [list] enumerates the set, and the test command of its spec gets the
    flag. An empty [patches] list fails with an [IndexError], which is an
    [Exception]. *)
Definition prepare_step (test_file_of : string -> option string)
    (black_list : list string) (st : store * list instance) (i : instance)
  : res (store * list instance) :=
  match patches i with
  | [] => raise (Exception "list index out of range")
  | test_patch :: _ =>
      let tests :=
        elements (Patches.extract_modified_test_files test_file_of test_patch
                    black_list) in
      let i' := {| repo := repo i; instance_id := instance_id i;
                   base_commit := base_commit i; patches := patches i;
                   inst_tests := tests;
                   spec_dict := spec_dict i |} in
      bind (append_flag st.1 (spec_dict i)) (fun σ => ret (σ, (st.2 ++ [i'])%list))
  end.

Definition prepare_rounds (test_file_of : string -> option string)
    (black_list : list string) (σ : store) (dataset : list instance)
  : res (store * list instance) :=
  for_each (prepare_step test_file_of black_list) dataset (σ, []).

(** [spec_dict['test_cmd']] as the runner reads it. *)
Definition test_cmd_of (σ : store) (spec_dict : value) : option string :=
  match spec_dict with
  | VRef l =>
      match σ !! l with
      | Some (ODict kvs) =>
          match dict_get "test_cmd" kvs with
          | Some (VStr cmd) => Some cmd
          | _ => None
          end
      | _ => None
      end
  | _ => None
  end.

(** [n] copies of a string in a row. *)
Fixpoint repeated (s : string) (n : nat) : string :=
  match n with
  | O => ""
  | S n' => s ++ repeated s n'
  end.

End ProducePrepare.

(* ===================================================================== *)
(** * docker/consts.py: the patch script *)
(* ===================================================================== *)

Module PatchCode.

(** The programs that the script of [PATCH_CODE_PY] runs: [patch -p1] on a
    patch file, [echo] with the file name and the literal ["> tmp.patch"] as
    arguments, and [patch -R] on [tmp.patch]. *)
Inductive command :=
| Apply (patch_file : string)
| Echo (patch_file : string)
| RevertTmp.

(** How the script ends: it returns, or it leaves through [sys.exit]. *)
Inductive ending :=
| Returned
| Exited (code : Z).

(** [patch_files.index(x)] *)
Fixpoint index (x : string) (patch_files : list string) : res nat :=
  match patch_files with
  | [] => raise (ValueError "x not in list")
  | y :: rest =>
      if String.eqb y x then ret 0%nat
      else bind (index x rest) (fun i => ret (S i))
  end.

(** [_rollback_patches]: one [echo] and one reverse run per patch, last
    patch first; a failed reverse run is reported and the loop goes on. *)
Definition _rollback_patches (patch_files : list string) (applied_up_to : string)
  : res (list command) :=
  bind (index applied_up_to patch_files) (fun idx =>
    ret (List.concat (map (fun patch => [Echo patch; RevertTmp])
                         (rev (take (idx + 1) patch_files))))).

(** The loop of [apply_patch] over the patch files still to apply.
    [patch_ok] tells whether [patch -p1] succeeds on a file. *)
Fixpoint apply_loop (patch_ok : string -> bool) (patch_files todo : list string)
  : res (list command * ending) :=
  match todo with
  | [] => ret ([], Returned)
  | patch_file :: todo' =>
      if patch_ok patch_file then
        bind (apply_loop patch_ok patch_files todo') (fun '(cmds, e) =>
          ret (Apply patch_file :: cmds, e))
      else
        bind (_rollback_patches patch_files patch_file) (fun cmds =>
          ret (Apply patch_file :: cmds, Exited 1))
  end.

(** [apply_patch] on the sorted patch files of [/patches]. *)
Definition apply_patch (patch_ok : string -> bool) (patch_files : list string)
  : res (list command * ending) :=
  apply_loop patch_ok patch_files patch_files.

End PatchCode.

(* ===================================================================== *)
(** * utils.py: values without dictionaries *)
(* ===================================================================== *)

Module Hashable.

(** A JSON value that holds no dictionary at any depth: a scalar, or a list
    of such values. *)
Fixpoint dict_free (v : pyval) : bool :=
  match v with
  | PDict _ => false
  | PList xs => forallb dict_free xs
  | _ => true
  end.

End Hashable.

(* ===================================================================== *)
(** * Sample inputs *)
(* ===================================================================== *)

Module Samples.

(** A test entry with a node id and an outcome and no phase record. *)
Definition bare_test (id out : string) : Report.test :=
  {| nodeid := id; outcome := out; crash := None;
     setup := None; call := None; teardown := None |}.

Definition report_of (ts : list Report.test) : report :=
  {| tests := Some ts; collectors := None; root := None |}.

(** The two rounds of the classification scenario: [t1] and [t2] fail before
    the patch and [t3] passes; afterwards [t1] and [t3] pass and [t2] still
    fails. *)
Definition pre_round : report :=
  report_of [bare_test "t1" "failed"; bare_test "t2" "error"; bare_test "t3" "passed"].

Definition post_round : report :=
  report_of [bare_test "t1" "passed"; bare_test "t3" "skipped"; bare_test "t2" "error"].

(** A round that could not be evaluated. *)
Definition failed_round : round_result :=
  RoundError "Container timed out after 300 seconds." "Traceback".

(** A report that lists [t1] twice, once passing and once failing. *)
Definition twice_round : report :=
  report_of [bare_test "t1" "passed"; bare_test "t1" "failed"].

Definition once_round : report := report_of [bare_test "t1" "passed"].

Definition crashed (text : string) : stage :=
  {| stage_outcome := "failed"; longrepr := None; stage_crash := Some text |}.

(** A failed test that records a crash at the top level and in its call
    phase. *)
Definition failed_with_both : Report.test :=
  {| nodeid := "t"; outcome := "failed"; crash := Some "top-level crash";
     setup := None; call := Some (crashed "call crash"); teardown := None |}.

(** A failed test that records a crash in its call and teardown phases. *)
Definition failed_in_call : Report.test :=
  {| nodeid := "t"; outcome := "failed"; crash := None;
     setup := None; call := Some (crashed "call crash");
     teardown := Some (crashed "teardown crash") |}.

(** A failed test that records a crash in its setup and call phases. *)
Definition failed_in_setup : Report.test :=
  {| nodeid := "t"; outcome := "failed"; crash := None;
     setup := Some (crashed "setup crash"); call := Some (crashed "call crash");
     teardown := None |}.

(** A stand-in for the two library functions: a plain rendering of tuples
    and a digest that prefixes its input with its length. *)
Fixpoint render (h : hval) : string :=
  match h with
  | HNone => "null"
  | HBool b => if b then "true" else "false"
  | HInt n => pretty n
  | HFloat x => x
  | HStr s => dquote ++ s ++ dquote
  | HTuple xs => "[" ++ join "," (map render xs) ++ "]"
  end.

Definition plain_lib : hash_lib :=
  {| orjson_dumps := render;
     sha256_hexdigest := fun text => pretty (String.length text) ++ "-" ++ text;
     DOCKER_IMAGE_COMBINED := "FROM ubuntu:22.04" |}.

(** Templates that render the certificates block only, as the R2E template
    does. *)
Definition plain_templates : templates :=
  {| GREEN_ZONE_CERTIFICATES_format :=
       fun http https => "ENV http_proxy=" ++ http ++ nl ++ "ENV https_proxy=" ++ https;
     DOCKER_FILE_R2E_format :=
       fun vars => ret ("FROM ubuntu:22.04" ++ nl ++ tv_certificates vars);
     http_proxy := "";
     https_proxy := "" |}.

(** A runtime without any image, whose builds succeed. *)
Definition fresh_docker : docker :=
  {| get_from_existing_image := fun _ => None;
     get_cached_or_clone_repo := fun repo _ => ret ("/cache/" ++ replace_char "/" "_" repo);
     images_build := fun _ _ =>
       ([{| log_stream := Some "Step 1/9 : FROM ubuntu:22.04"; log_error := None |}],
        StreamDone);
     push_img_to_registry := fun _ => ret ();
     session_timeout := "300" |}.

(** A runtime without any image, whose builds end on an error entry. *)
Definition failing_docker : docker :=
  {| get_from_existing_image := fun _ => None;
     get_cached_or_clone_repo := fun repo _ => ret ("/cache/" ++ replace_char "/" "_" repo);
     images_build := fun _ _ =>
       ([{| log_stream := Some "Step 1/9 : FROM ubuntu:22.04"; log_error := None |};
         {| log_stream := None;
            log_error := Some "The command returned a non-zero code: 1" |}],
        StreamDone);
     push_img_to_registry := fun _ => ret ();
     session_timeout := "300" |}.

(** A process that holds one spec dictionary, at location 1, whose
    [pre_install] list is the object at location 2. *)
Definition spec_ref : value := VRef 1%positive.

Definition fresh_world : world :=
  {| failed_images := ∅;
     image_build_locks := ∅;
     heap := {[ 1%positive := ODict [("python", VStr "3.9");
                                     ("pre_install", VRef 2%positive);
                                     ("test_cmd", VStr "pytest")];
                2%positive := OList [VStr "sleep 100"] ]};
     trace := [] |}.

Definition request_with (d : docker) : request :=
  {| rq_docker := d; rq_repo_name := "encode/httpx"; rq_spec_dict := spec_ref;
     rq_force_rebuild := false; rq_green_zone := false;
     rq_registry_config := None |}.

(** The process after two requests against the failing runtime. *)
Definition marked_world : world :=
  serve_all plain_lib plain_templates fresh_world
    [request_with failing_docker; request_with failing_docker].

(** Four instances, of which [a] and [b] cannot be evaluated. *)
Definition inst (id : string) : instance :=
  {| repo := "encode/httpx"; instance_id := id; base_commit := "0000000";
     patches := []; inst_tests := []; spec_dict := spec_ref |}.

Definition four_instances : list instance := [inst "a"; inst "b"; inst "c"; inst "d"].

Definition first_two_fail : pool :=
  {| attempt := fun i =>
       if mem (instance_id i) ["a"; "b"]
       then raise (TimeoutError "Container timed out after 300 seconds.")
       else ret (Short ∅);
     traceback_of := fun _ => "Traceback (most recent call last)";
     completion := fun batch => rev batch |}.

(** A report with one passing test, [b]. *)
Definition only_b : report := report_of [bare_test "b" "passed"].

(** A report with no test and a collector that failed on an import. *)
Definition broken_import : report :=
  {| tests := Some [];
     collectors := Some [{| c_nodeid := "tests/test_a.py"; c_outcome := "failed";
                            c_longrepr := Some "ImportError: No module named a" |}];
     root := None |}.

(** A report with no test and a collector that failed on a syntax error. *)
Definition broken_syntax : report :=
  {| tests := Some [];
     collectors := Some [{| c_nodeid := "tests/test_a.py"; c_outcome := "failed";
                            c_longrepr := Some "SyntaxError: invalid syntax" |}];
     root := None |}.

(** A spec whose pre-install steps are an empty list. *)
Definition small_spec : dict pyval :=
  [("python", PStr "3.9"); ("pre_install", PList []); ("test_cmd", PStr "pytest")].

(** A raw dataset in which the id [b] occurs twice, and a prediction file
    with a patch for [b]. *)
Definition raw_row (iid patch : string) : Dataset.raw :=
  {| Dataset.d_instance_id := iid; Dataset.d_repo := "encode/httpx";
     Dataset.d_base_commit := "0a1b2c3"; Dataset.d_test_patch := "test patch of " ++ iid;
     Dataset.d_patch := patch;
     Dataset.d_PASS_TO_PASS := ["tests/test_a.py::test_one"];
     Dataset.d_FAIL_TO_PASS := ["tests/test_a.py::test_two"];
     Dataset.d_spec_dict := VNone |}.

Definition raw_rows : list Dataset.raw :=
  [raw_row "a" "gold a"; raw_row "b" "gold b"; raw_row "b" "gold b, revised"].

Definition model_patches : list (string * string) := [("b", "model patch for b")].

(** [small_spec] with its keys in another order. *)
Definition small_spec_reordered : dict pyval :=
  [("test_cmd", PStr "pytest"); ("python", PStr "3.9"); ("pre_install", PList [])].


(** Templates that render the interpreter, the pre-install steps and the
    package lines. *)
Definition full_templates : templates :=
  {| GREEN_ZONE_CERTIFICATES_format := fun _ _ => "";
     DOCKER_FILE_R2E_format :=
       fun vars =>
         ret ("FROM ubuntu:22.04" ++ nl ++ "RUN uv python install " ++ tv_python vars
              ++ nl ++ "RUN " ++ tv_pre_install vars ++ nl ++ tv_pip_install vars);
     http_proxy := "";
     https_proxy := "" |}.

(** A runtime that holds every image under its [latest] tag. *)
Definition stocked_docker : docker :=
  {| get_from_existing_image := fun image => Some (image ++ ":latest");
     get_cached_or_clone_repo := fun repo _ => ret ("/cache/" ++ replace_char "/" "_" repo);
     images_build := fun _ _ => ([], StreamDone);
     push_img_to_registry := fun _ => ret ();
     session_timeout := "300" |}.

(** A registry configuration that pulls and does not push. *)
Definition pulling : registry :=
  {| push_to_registry := false; pull_from_registry := true |}.

(** One record of a data file: the spec of [fresh_world]. *)
Definition data_line : dict value :=
  [("repo", VStr "encode/httpx"); ("spec_dict", spec_ref)].

(** A patch over three files: a test file, a black-listed test file and a
    third test file; and the header pattern on the three headers. *)
Definition three_file_patch : string :=
  "diff --git a/tests/test_a.py b/tests/test_a.py" ++ nl ++
  "--- a/tests/test_a.py" ++ nl ++ "+++ b/tests/test_a.py" ++ nl ++
  "@@ -1 +1 @@" ++ nl ++
  "diff --git a/tests/test_slow.py b/tests/test_slow.py" ++ nl ++
  "@@ -1 +1 @@" ++ nl ++
  "diff --git a/tests/test_c.py b/tests/test_c.py" ++ nl ++
  "@@ -1 +1 @@".

Definition first_file_patch : string :=
  "diff --git a/tests/test_a.py b/tests/test_a.py" ++ nl ++
  "--- a/tests/test_a.py" ++ nl ++ "+++ b/tests/test_a.py" ++ nl ++
  "@@ -1 +1 @@".

Definition rest_of_patch : string :=
  "@@ -1 +1 @@" ++ nl ++
  "diff --git a/tests/test_c.py b/tests/test_c.py" ++ nl ++
  "@@ -1 +1 @@".

Definition header_file (line : string) : option string :=
  if String.eqb line "diff --git a/tests/test_a.py b/tests/test_a.py"
  then Some "tests/test_a.py"
  else if String.eqb line "diff --git a/tests/test_slow.py b/tests/test_slow.py"
  then Some "tests/test_slow.py"
  else if String.eqb line "diff --git a/tests/test_c.py b/tests/test_c.py"
  then Some "tests/test_c.py"
  else None.

(** Results of three instances: an error, an empty test map and a map with
    a failed test. *)
Definition three_results : list (string * eval_result) :=
  [("a", EvalError "Container timed out after 300 seconds." "Traceback");
   ("b", EvalShort ∅);
   ("c", EvalShort {["tests/test_a.py::test_one" := false]})].

(** Two instances that share the spec of [fresh_world]. *)
Definition patched_inst (id : string) : instance :=
  {| repo := "encode/httpx"; instance_id := id; base_commit := "0000000";
     patches := [first_file_patch; "gold patch"]; inst_tests := [];
     spec_dict := spec_ref |}.

Definition sharing_instances : list instance := [patched_inst "a"; patched_inst "b"].

(** Three patch files, of which only the first applies. *)
Definition patch_files : list string :=
  ["/patches/patch_0.patch"; "/patches/patch_1.patch"; "/patches/patch_2.patch"].

Definition only_first_applies (patch_file : string) : bool :=
  String.eqb patch_file "/patches/patch_0.patch".

(** A failed test whose only crash record is the one of its setup phase. *)
Definition failed_in_setup_only (id : string) : Report.test :=
  {| nodeid := id; outcome := "failed"; crash := None;
     setup := Some (crashed "setup crash"); call := None; teardown := None |}.

(** Two instances of a produce run. For [a] the test [t] fails in both
    rounds. For [b] the tests [t] and [s] fail before the golden patch; with
    it [t] passes and [s] fails in its setup phase. *)
Definition a_pre : report := report_of [bare_test "t" "failed"].

Definition a_golden : report := report_of [failed_in_call].

Definition b_pre : report :=
  report_of [bare_test "t" "failed"; bare_test "s" "failed"].

Definition b_golden : report :=
  report_of [bare_test "t" "passed"; failed_in_setup_only "s"].

Definition two_pre_rounds : gmap string round_result :=
  {["a" := RoundReport a_pre; "b" := RoundReport b_pre]}.

(** The same run when the pre-golden round of [b] could not be evaluated. *)
Definition two_pre_rounds_b_failed : gmap string round_result :=
  {["a" := RoundReport a_pre; "b" := failed_round]}.

Definition two_golden_rounds : list (string * round_result) :=
  [("a", RoundReport a_golden); ("b", RoundReport b_golden)].

(** Two rounds that name one test file by a relative and by an absolute node
    id, under the root marker [/r]. *)
Definition mixed_pre : report :=
  report_of [bare_test "x" "failed"; bare_test "/r/x" "passed"].

Definition mixed_golden : report :=
  {| tests := Some [bare_test "x" "passed"; bare_test "/r/x" "passed"];
     collectors := None; root := Some "/r" |}.

End Samples.

(* ===================================================================== *)
(** * Properties of the Python fragment *)
(* ===================================================================== *)

Module PyFacts.

Lemma mem_spec x xs : mem x xs = true <-> x ∈ xs.
Proof.
  unfold mem. rewrite existsb_exists. split.
  - intros (y & Hy & E). apply String.eqb_eq in E. subst. by apply list_elem_of_In.
  - intros H. exists x. split; [by apply list_elem_of_In | apply String.eqb_refl].
Qed.

Lemma bind_inr {A B} (m : res A) (k : A -> res B) b :
  bind m k = inr b <-> exists a, m = inr a /\ k a = inr b.
Proof.
  destruct m as [e|a]; simpl; split.
  - discriminate.
  - intros (a & [=] & _).
  - eauto.
  - by intros (a' & [= <-] & H).
Qed.

(** A loop returns as soon as its body returns from every state. *)
Lemma for_each_returns {S A} (body : S -> A -> res S) xs st :
  (forall st' x, x ∈ xs -> returns (body st' x)) ->
  returns (for_each body xs st).
Proof.
  revert st. induction xs as [|x xs IH]; intros st Hbody; simpl; [done|].
  pose proof (Hbody st x ltac:(left)) as Hx.
  destruct (body st x) as [e|st1]; simpl in *; [done|].
  apply IH. intros st' y Hy. apply Hbody. by right.
Qed.

Lemma returns_inr {A} (m : res A) : returns m <-> exists a, m = inr a.
Proof.
  destruct m; simpl; split; try done; eauto.
  by intros [? ?].
Qed.

Lemma append_inv_head (p a b : string) : p ++ a = p ++ b -> a = b.
Proof. induction p as [|c p IH]; simpl; [done|]. intros [= H]. by apply IH. Qed.

(** Joining to a fixed directory keeps relative paths apart. *)
Lemma path_join_inj dir a b :
  startswith "/" a = false -> startswith "/" b = false ->
  path_join dir a = path_join dir b -> a = b.
Proof.
  unfold path_join. intros -> ->.
  destruct (String.eqb dir "" || endswith_char "/" dir).
  - apply append_inv_head.
  - intros H. apply append_inv_head in H. by apply (append_inv_head "/").
Qed.

Lemma length_append (a b : string) :
  String.length (a ++ b) = (String.length a + String.length b)%nat.
Proof. induction a as [|c a IH]; simpl; [done|]. by rewrite IH. Qed.

Lemma append_inv_tail (a b t : string) : a ++ t = b ++ t -> a = b.
Proof.
  revert b. induction a as [|c a IH]; intros [|c' b] H; simpl in H.
  - done.
  - apply (f_equal String.length) in H. rewrite !length_append in H. simpl in H. lia.
  - apply (f_equal String.length) in H. rewrite !length_append in H. simpl in H. lia.
  - injection H as -> H. by rewrite (IH b H).
Qed.

End PyFacts.

Import PyFacts.

(* ===================================================================== *)
(** * Properties of crash-detail extraction *)
(* ===================================================================== *)

Module UtilsFacts.

Lemma elem_of_nodeids_with x outcomes ts :
  x ∈ nodeids_with outcomes ts <->
  exists t, t ∈ ts /\ nodeid t = x /\ outcome t ∈ outcomes.
Proof.
  unfold nodeids_with. rewrite elem_of_list_to_set, list_elem_of_In, in_map_iff.
  split.
  - intros (t & E & Hin). apply filter_In in Hin as [Hin Hm].
    exists t. rewrite list_elem_of_In. by rewrite <- mem_spec.
  - intros (t & Hin & E & Ho). exists t. split; [done|].
    apply filter_In. rewrite <- list_elem_of_In. by rewrite mem_spec.
Qed.

Lemma nodeids_with_cons outcomes t ts :
  nodeids_with outcomes (t :: ts) =
  nodeids_with outcomes [t] ∪ nodeids_with outcomes ts.
Proof.
  apply set_eq. intros x. rewrite elem_of_union, !elem_of_nodeids_with.
  split.
  - intros (u & Hu & E & Ho). apply elem_of_cons in Hu as [->|Hu].
    + left. exists t. split; [left|]; done.
    + right. by exists u.
  - intros [(u & Hu & E & Ho)|(u & Hu & E & Ho)].
    + apply list_elem_of_singleton in Hu as ->. exists t. split; [left|]; done.
    + exists u. split; [by right|done].
Qed.

(** One step of the extraction adds the node id exactly when the outcome is
    [error] or [failed]. *)
Lemma crash_step_dom acc t acc' :
  crash_step acc t = inr acc' ->
  dom acc' = dom acc ∪ nodeids_with FAIL_OUTCOMES [t].
Proof.
  unfold crash_step, nodeids_with, FAIL_OUTCOMES, mem. simpl.
  destruct (String.eqb_spec (outcome t) "error") as [E|E].
  - intros [= <-]. rewrite E. simpl. rewrite dom_insert_L. set_solver.
  - destruct (String.eqb_spec (outcome t) "failed") as [F|F].
    + destruct (failed_text t); simpl; [done|]. intros [= <-].
      rewrite dom_insert_L. simpl. set_solver.
    + intros [= <-]. simpl. set_solver.
Qed.

Lemma for_each_crash_step_dom ts acc out :
  for_each crash_step ts acc = inr out ->
  dom out = dom acc ∪ nodeids_with FAIL_OUTCOMES ts.
Proof.
  revert acc. induction ts as [|t ts IH]; intros acc; simpl.
  - intros [= <-]. unfold nodeids_with. simpl. set_solver.
  - intros H. apply bind_inr in H as (acc1 & H1 & H2).
    apply IH in H2. apply crash_step_dom in H1.
    rewrite H2, H1, (nodeids_with_cons _ t ts). set_solver.
Qed.

(** The keys of the crash-detail map are the node ids whose outcome is
    [failed] or [error]. *)
Lemma crash_details_dom r crash_details :
  extract_crash_details_from_report r = inr crash_details ->
  dom crash_details = nodeids_with FAIL_OUTCOMES (get_tests r).
Proof.
  unfold extract_crash_details_from_report. intros H.
  apply for_each_crash_step_dom in H. rewrite H, dom_empty_L. set_solver.
Qed.

Lemma for_each_app {S A} (body : S -> A -> res S) xs ys st :
  for_each body (xs ++ ys)%list st = bind (for_each body xs st) (for_each body ys).
Proof.
  revert st. induction xs as [|x xs IH]; intros st; simpl; [done|].
  destruct (body st x); simpl; [done|]. apply IH.
Qed.

(** Tests that are neither failed nor in error leave the map as it is, and so
    do the steps for other node ids at a given key. *)
Lemma crash_step_lookup_other acc t acc' x :
  crash_step acc t = inr acc' ->
  x ∉ nodeids_with FAIL_OUTCOMES [t] ->
  acc' !! x = acc !! x.
Proof.
  intros Hstep Hx.
  assert (outcome t ∈ FAIL_OUTCOMES -> nodeid t <> x) as Hne.
  { intros Ho E. apply Hx, elem_of_nodeids_with. exists t. split; [left|]; done. }
  unfold crash_step in Hstep. unfold FAIL_OUTCOMES in Hne.
  destruct (String.eqb_spec (outcome t) "error") as [E|E].
  - injection Hstep as <-. rewrite lookup_insert_ne; [done|].
    apply Hne. rewrite E. set_solver.
  - destruct (String.eqb_spec (outcome t) "failed") as [F|F].
    + destruct (failed_text t); simpl in Hstep; [done|]. injection Hstep as <-.
      rewrite lookup_insert_ne; [done|]. apply Hne. rewrite F. set_solver.
    + by injection Hstep as <-.
Qed.

Lemma for_each_crash_step_lookup_other ts acc out x :
  for_each crash_step ts acc = inr out ->
  x ∉ nodeids_with FAIL_OUTCOMES ts ->
  out !! x = acc !! x.
Proof.
  revert acc. induction ts as [|t ts IH]; intros acc; simpl.
  - by intros [= <-].
  - intros H Hx. apply bind_inr in H as (acc1 & H1 & H2).
    rewrite (nodeids_with_cons _ t ts) in Hx. apply not_elem_of_union in Hx as [Hx1 Hx2].
    rewrite (IH _ H2 Hx2). by eapply crash_step_lookup_other.
Qed.

Lemma failed_text_returns t :
  takes_setup_branch t = false -> String.eqb (outcome t) "failed" = true ->
  returns (failed_text t).
Proof.
  unfold takes_setup_branch, failed_text, test_crash, phase_crash, has_crash.
  intros H F. rewrite F in H.
  destruct (crash t) as [c|], (setup t) as [[? ? [?|]]|],
    (call t) as [[? ? [?|]]|], (teardown t) as [[? ? [?|]]|];
    cbn in *; done.
Qed.

Lemma crash_step_returns acc t :
  takes_setup_branch t = false -> returns (crash_step acc t).
Proof.
  intros H. unfold crash_step.
  destruct (String.eqb (outcome t) "error"); [done|].
  destruct (String.eqb (outcome t) "failed") eqn:F; [|done].
  pose proof (failed_text_returns t H F) as Hr.
  by destruct (failed_text t).
Qed.

(** The extraction returns on every report without a test that takes the
    [setup] branch. *)
Lemma extract_returns r :
  no_setup_crash r -> returns (extract_crash_details_from_report r).
Proof.
  intros H. apply for_each_returns. intros acc t Ht.
  apply crash_step_returns, H, Ht.
Qed.

(** C9 as stated fails: a failed test that records a crash at its top level
    and in its call phase gets the top-level text, not the call phase's; and a
    failed test with a crash in its setup and call phases makes the
    extraction raise instead of yielding the call phase's text. *)
Lemma C9_counterexample :
  (outcome Samples.failed_with_both = "failed" /\
   call Samples.failed_with_both ≫= stage_crash = Some "call crash" /\
   exists crash_details,
     extract_crash_details_from_report
       (Samples.report_of [Samples.failed_with_both]) = inr crash_details /\
     crash_details !! "t" = Some "top-level crash" /\
     crash_details !! "t" <> Some "call crash") /\
  (outcome Samples.failed_in_setup = "failed" /\
   call Samples.failed_in_setup ≫= stage_crash = Some "call crash" /\
   extract_crash_details_from_report
     (Samples.report_of [Samples.failed_in_setup]) = inl (KeyError "crash")).
Proof.
  split; [|by vm_compute].
  split; [done|]. split; [done|].
  eexists. split; [by vm_compute|]. split; [by vm_compute|]. by vm_compute.
Qed.

(** C9, amended. On a report none of whose failed tests takes the [setup]
    branch (no top-level crash text, a crash record in the setup phase), the
    extraction returns a map whose keys are exactly the node ids with outcome
    [error] or [failed]. For a test entry that is the last [error] or [failed]
    entry of its node id, the detail under its node id is: for [error], the
    long representations of the phases present, in running order, those of
    setup and call each followed by a newline; for [failed], the test's own
    top-level crash text when there is one, otherwise the call phase's crash
    text, otherwise the teardown phase's, otherwise the empty string. Reports
    with a failed test that takes the [setup] branch are left out. *)
Theorem C9_crash_detail_of_a_test
    (r : report) (l1 : list Report.test) (t : Report.test) (l2 : list Report.test) :
  no_setup_crash r ->
  get_tests r = (l1 ++ t :: l2)%list ->
  nodeid t ∉ nodeids_with FAIL_OUTCOMES l2 ->
  exists crash_details,
    extract_crash_details_from_report r = inr crash_details /\
    dom crash_details = nodeids_with FAIL_OUTCOMES (get_tests r) /\
    (outcome t = "error" -> crash_details !! nodeid t = Some (error_text t)) /\
    (outcome t = "failed" ->
     crash_details !! nodeid t =
       Some (match crash t, call t ≫= stage_crash, teardown t ≫= stage_crash with
             | Some c, _, _ => c
             | None, Some c, _ => c
             | None, None, Some c => c
             | None, None, None => ""
             end)).
Proof.
  intros Hfree Hsplit Hlast.
  pose proof (extract_returns r Hfree) as Hret.
  apply returns_inr in Hret as [cd Hcd]. exists cd.
  split; [done|]. split; [by apply crash_details_dom|].
  unfold extract_crash_details_from_report in Hcd.
  rewrite Hsplit, for_each_app in Hcd.
  apply bind_inr in Hcd as (acc1 & _ & Hcd). cbn [for_each] in Hcd.
  apply bind_inr in Hcd as (acc2 & Hstep & Hrest).
  rewrite (for_each_crash_step_lookup_other _ _ _ _ Hrest Hlast).
  assert (takes_setup_branch t = false) as Ht.
  { apply Hfree. rewrite Hsplit. apply elem_of_app. right. left. }
  clear Hrest Hsplit Hlast Hfree. unfold crash_step in Hstep. split.
  - intros E. rewrite E in Hstep. cbn in Hstep. injection Hstep as <-.
    apply lookup_insert_eq.
  - intros F. rewrite F in Hstep. cbn in Hstep.
    unfold takes_setup_branch in Ht. rewrite F in Ht.
    unfold failed_text, test_crash, phase_crash, has_crash in Hstep.
    unfold has_crash in Ht.
    destruct (crash t) as [c|], (setup t) as [[? ? [?|]]|],
      (call t) as [[? ? [?|]]|], (teardown t) as [[? ? [?|]]|];
      cbn in *; try done; injection Hstep as <-; apply lookup_insert_eq.
Qed.

(** A failed test with a crash in its call and teardown phases keeps the
    call phase's text. *)
Lemma C9_scenario :
  exists crash_details,
    extract_crash_details_from_report
      (Samples.report_of [Samples.failed_in_call]) = inr crash_details /\
    crash_details !! "t" = Some "call crash".
Proof.
  destruct (C9_crash_detail_of_a_test
              (Samples.report_of [Samples.failed_in_call])
              [] Samples.failed_in_call [])
    as (cd & Hcd & _ & _ & Hfailed).
  - intros t Ht. apply list_elem_of_singleton in Ht as ->. reflexivity.
  - reflexivity.
  - vm_compute. set_solver.
  - exists cd. split; [exact Hcd|]. by apply Hfailed.
Defined.

(** ** The [setup] branch *)

Lemma crash_step_raises acc t e :
  crash_step acc t = inl e -> takes_setup_branch t = true /\ e = KeyError "crash".
Proof.
  unfold crash_step, takes_setup_branch.
  destruct (String.eqb (outcome t) "error"); [done|].
  destruct (String.eqb (outcome t) "failed"); [|done].
  unfold failed_text, test_crash, phase_crash, has_crash.
  destruct (crash t) as [c|], (setup t) as [[? ? [?|]]|],
    (call t) as [[? ? [?|]]|], (teardown t) as [[? ? [?|]]|];
    cbn; try done; by intros [= <-].
Qed.

Lemma crash_step_setup_branch acc t :
  takes_setup_branch t = true -> crash_step acc t = inl (KeyError "crash").
Proof.
  unfold crash_step, takes_setup_branch.
  intros [[Hf Hc]%andb_true_iff Hs]%andb_true_iff.
  rewrite Hf.
  destruct (String.eqb_spec (outcome t) "error") as [E|_].
  { apply String.eqb_eq in Hf. congruence. }
  apply negb_true_iff in Hc. unfold failed_text, test_crash. rewrite Hc, Hs.
  destruct (crash t) as [c|] eqn:E; [|done].
  rewrite bool_decide_true in Hc; [done|by eexists].
Qed.

(** The extraction raises exactly on the reports that hold a failed test
    taking the [setup] branch, wherever that test stands in the report, and
    the exception is the [KeyError] of the missing top-level [crash] key: no
    test of such a report gets a detail. *)
Theorem setup_crash_fails_the_whole_extraction (r : report) :
  (raises (extract_crash_details_from_report r) <->
   exists t, t ∈ get_tests r /\ takes_setup_branch t = true) /\
  (forall e, extract_crash_details_from_report r = inl e -> e = KeyError "crash").
Proof.
  unfold extract_crash_details_from_report.
  generalize (∅ : gmap string string).
  induction (get_tests r) as [|t ts IH]; intros acc; cbn [for_each].
  - split; [|done]. split; [done|]. intros (t & Ht & _). by apply elem_of_nil in Ht.
  - destruct (crash_step acc t) as [e|acc'] eqn:Hstep; cbn [bind].
    + apply crash_step_raises in Hstep as [Ht ->]. split; [|by intros e [= <-]].
      split; [|done]. intros _. exists t. split; [by left|done].
    + destruct (IH acc') as [Hiff Hexn]. split; [|exact Hexn].
      rewrite Hiff. split.
      * intros (u & Hu & Hb). exists u. split; [by right|done].
      * intros (u & Hu & Hb). apply elem_of_cons in Hu as [->|Hu]; [|by exists u].
        by rewrite (crash_step_setup_branch acc t Hb) in Hstep.
Qed.

End UtilsFacts.

Import UtilsFacts.

(* ===================================================================== *)
(** * Properties of the spec hasher *)
(* ===================================================================== *)

Module HasherFacts.

Lemma leb_refl (k : string) : String.leb k k = true.
Proof. by destruct (String.leb_total k k). Qed.

Lemma dict_get_insert_item {V} k (kv : string * V) l :
  dict_get k (insert_item kv l) =
  if String.eqb k kv.1 then Some kv.2 else dict_get k l.
Proof.
  destruct kv as [k' v]. induction l as [|[k'' v''] l IH]; simpl; [done|].
  destruct (String.leb k' k'') eqn:Hle; simpl; [done|].
  destruct (String.eqb_spec k k'') as [->|Hne]; [|exact IH].
  destruct (String.eqb_spec k'' k') as [->|Hne']; [|done].
  by rewrite leb_refl in Hle.
Qed.

(** Sorting the items keeps the value found under every key. *)
Lemma dict_get_sorted_items {V} k (l : list (string * V)) :
  dict_get k (sorted_items l) = dict_get k l.
Proof.
  induction l as [|[k' v] l IH]; simpl; [done|].
  rewrite dict_get_insert_item. simpl. by rewrite IH.
Qed.

Lemma insert_item_values {V W} (f : V -> W) (kv : string * V) l :
  insert_item (kv.1, f kv.2) (map (fun '(k, v) => (k, f v)) l) =
  map (fun '(k, v) => (k, f v)) (insert_item kv l).
Proof.
  destruct kv as [k v]. induction l as [|[k' v'] l IH]; simpl; [done|].
  destruct (String.leb k k'); simpl; [done|]. by rewrite <- IH.
Qed.

(** Converting the values before or after sorting the items is the same. *)
Lemma sorted_items_values {V W} (f : V -> W) (l : list (string * V)) :
  sorted_items (map (fun '(k, v) => (k, f v)) l) =
  map (fun '(k, v) => (k, f v)) (sorted_items l).
Proof.
  induction l as [|[k v] l IH]; simpl; [done|].
  unfold sorted_items in *. rewrite IH. apply (insert_item_values f (k, v)).
Qed.

Lemma dict_get_set_eq {V} k (v : V) d : dict_get k (dict_set k v d) = Some v.
Proof.
  induction d as [|[k' v'] d IH]; simpl.
  - by rewrite String.eqb_refl.
  - destruct (String.eqb_spec k k') as [->|Hne]; simpl.
    + by rewrite String.eqb_refl.
    + by destruct (String.eqb_spec k k').
Qed.

Lemma dict_get_values {V W} (f : V -> W) k (d : dict V) :
  dict_get k (map (fun '(k, v) => (k, f v)) d) = f <$> dict_get k d.
Proof.
  induction d as [|[k' v'] d IH]; simpl; [done|].
  by destruct (String.eqb k k').
Qed.

Lemma dict_set_values {V W} (f : V -> W) k v (d : dict V) :
  map (fun '(k, v) => (k, f v)) (dict_set k v d) =
  dict_set k (f v) (map (fun '(k, v) => (k, f v)) d).
Proof.
  induction d as [|[k' v'] d IH]; simpl; [done|].
  destruct (String.eqb k k'); simpl; [done|]. by rewrite IH.
Qed.

Lemma filter_set_dropped {V} (keep : string -> bool) k (v : V) d :
  keep k = false ->
  List.filter (fun kv => keep kv.1) (dict_set k v d) =
  List.filter (fun kv => keep kv.1) d.
Proof.
  intros Hk. induction d as [|[k' v'] d IH]; cbn [dict_set List.filter fst].
  - by rewrite Hk.
  - destruct (String.eqb_spec k k') as [->|Hne]; cbn [List.filter fst].
    + by rewrite Hk.
    + by rewrite IH.
Qed.

Lemma filter_set_kept {V} (keep : string -> bool) k (v : V) d :
  keep k = true ->
  List.filter (fun kv => keep kv.1) (dict_set k v d) =
  dict_set k v (List.filter (fun kv => keep kv.1) d).
Proof.
  intros Hk. induction d as [|[k' v'] d IH]; cbn [dict_set List.filter fst].
  - by rewrite Hk.
  - destruct (String.eqb_spec k k') as [->|Hne]; cbn [List.filter fst].
    + by rewrite Hk; cbn [dict_set]; rewrite String.eqb_refl.
    + destruct (keep k'); cbn [dict_set]; [|done].
      destruct (String.eqb_spec k k'); [done|]. by rewrite IH.
Qed.

(** An assignment to an excluded field is invisible after the filter. *)
Lemma hashed_fields_set_excluded k v d :
  k ∈ unhash_fields -> hashed_fields (dict_set k v d) = hashed_fields d.
Proof.
  intros Hk. apply mem_spec in Hk.
  apply (filter_set_dropped (fun k => negb (mem k unhash_fields))).
  by rewrite Hk.
Qed.

(** An assignment to any other field commutes with the filter. *)
Lemma hashed_fields_set_kept k v d :
  k ∉ unhash_fields ->
  hashed_fields (dict_set k v d) = dict_set k v (hashed_fields d).
Proof.
  intros Hk. assert (mem k unhash_fields = false) as Hm.
  { destruct (mem k unhash_fields) eqn:E; [|done]. by apply mem_spec in E. }
  apply (filter_set_kept (fun k => negb (mem k unhash_fields))).
  by rewrite Hm.
Qed.

Lemma hashed_fields_update_excluded updates d :
  Forall (fun kv => kv.1 ∈ unhash_fields) updates ->
  hashed_fields (dict_update updates d) = hashed_fields d.
Proof.
  unfold dict_update. revert d.
  induction updates as [|[k v] updates IH]; intros d Hall; simpl; [done|].
  apply Forall_cons in Hall as [Hk Hall].
  rewrite (IH _ Hall). by apply hashed_fields_set_excluded.
Qed.

(** The canonical tuple of a dictionary determines the canonical value under
    each of its keys. *)
Lemma make_hashable_dict_get k d d' :
  make_hashable (PDict d) = make_hashable (PDict d') ->
  make_hashable <$> dict_get k d = make_hashable <$> dict_get k d'.
Proof.
  cbn [make_hashable]. intros [= H].
  assert (Inj eq eq pair_tuple) as Hinj.
  { intros [a x] [b y] [= -> ->]. done. }
  apply (inj (fmap pair_tuple)) in H.
  rewrite <- !dict_get_values, <- !(dict_get_sorted_items k (map _ _)).
  by rewrite H.
Qed.

(** C2 as stated fails: replacing the empty list under [pre_install] by an
    empty dictionary changes a field that takes part in the identity, and
    leaves the hash and the image name as they were, whatever the serializer
    and the digest. *)
Lemma C2_counterexample :
  ("pre_install" ∉ unhash_fields) /\
  dict_get "pre_install" Samples.small_spec = Some (PList []) /\
  PList [] <> PDict [] /\
  forall lib repo,
    consistent_hash lib (dict_set "pre_install" (PDict []) Samples.small_spec) =
    consistent_hash lib Samples.small_spec /\
    get_image_name lib repo (dict_set "pre_install" (PDict []) Samples.small_spec) =
    get_image_name lib repo Samples.small_spec.
Proof.
  split; [by intros H; apply mem_spec in H|].
  split; [done|]. split; [done|]. done.
Qed.

(** C2, amended. Assignments to [install], [test_cmd] and [eval_commands]
    change neither the hash nor the image name. The identity depends on the
    other fields through their canonical tuple only: assigning to another
    field changes the canonical tuple of the spec exactly when the canonical
    tuples of the two values differ, and two values with the same canonical
    tuple give the same hash and image name. *)
Theorem C2_identity_of_a_spec
    (lib : hash_lib) (repo : string) (d : dict pyval)
    (updates : list (string * pyval)) (k : string) (v v' : pyval) :
  (Forall (fun kv => kv.1 ∈ unhash_fields) updates ->
   consistent_hash lib (dict_update updates d) = consistent_hash lib d /\
   get_image_name lib repo (dict_update updates d) = get_image_name lib repo d) /\
  (k ∉ unhash_fields ->
   (canonical (dict_set k v d) = canonical (dict_set k v' d) <->
    make_hashable v = make_hashable v') /\
   (make_hashable v = make_hashable v' ->
    consistent_hash lib (dict_set k v d) = consistent_hash lib (dict_set k v' d) /\
    get_image_name lib repo (dict_set k v d) =
    get_image_name lib repo (dict_set k v' d))).
Proof.
  split.
  - intros Hall. unfold get_image_name, consistent_hash.
    by rewrite (hashed_fields_update_excluded _ _ Hall).
  - intros Hk.
    assert (make_hashable v = make_hashable v' ->
            canonical (dict_set k v d) = canonical (dict_set k v' d)) as Hsame.
    { intros E. unfold canonical. rewrite !hashed_fields_set_kept by done.
      cbn [make_hashable]. by rewrite !(dict_set_values make_hashable), E. }
    split; [split; [|exact Hsame]|].
    + unfold canonical. rewrite !hashed_fields_set_kept by done. intros H.
      apply (make_hashable_dict_get k) in H.
      rewrite !dict_get_set_eq in H. by injection H.
    + intros E. apply Hsame in E. unfold canonical in E.
      unfold get_image_name, consistent_hash. by rewrite E.
Qed.

(** Two specs that differ in [test_cmd] only get the same image name. *)
Lemma C2_scenario :
  get_image_name Samples.plain_lib "Encode/httpx"
    (dict_set "test_cmd" (PStr "pytest -x") Samples.small_spec) =
  get_image_name Samples.plain_lib "Encode/httpx" Samples.small_spec.
Proof.
  refine (proj2 (proj1 (C2_identity_of_a_spec Samples.plain_lib "Encode/httpx"
                          Samples.small_spec [("test_cmd", PStr "pytest -x")]
                          "test_cmd" PNone PNone) _)).
  constructor; [by apply mem_spec | constructor].
Defined.

End HasherFacts.

(* ===================================================================== *)
(** * Properties of the image builder *)
(* ===================================================================== *)

Module ImageBuilderFacts.

(** ** The failed set *)

(** What a call does to the failed set: nothing, or it adds the image whose
    build log carried an error entry, and then it raises [build_failed]. *)
Lemma build_locked_failed_images tpl d repo_name image_name fields
    force_rebuild green_zone registry_config w w' r :
  build_locked tpl d repo_name image_name fields force_rebuild green_zone
    registry_config w = (w', r) ->
  failed_images w' = failed_images w \/
  (failed_images w' = {[image_name]} ∪ failed_images w /\
   exists err, r = raise (build_failed err)).
Proof.
  unfold build_locked, build_image. intros H.
  repeat (case_match; simplify_eq/=); eauto.
Qed.

Lemma build_failed_images lib tpl d repo_name spec_dict force_rebuild green_zone
    registry_config w :
  failed_images w ⊆
  failed_images (build_docker_image_from_specs lib tpl d repo_name spec_dict
                   force_rebuild green_zone registry_config w).1.
Proof.
  unfold build_docker_image_from_specs.
  destruct (spec_json (heap w) spec_dict) as [e|json]; [done|]. cbn zeta.
  destruct (spec_fields _ spec_dict) as [e|fields]; [done|].
  destruct (build_locked _ _ _ _ _ _ _ _ _) as [w' r] eqn:Hb.
  apply build_locked_failed_images in Hb as [Hb|[Hb _]]; simpl in *;
    rewrite Hb; set_solver.
Qed.

Lemma serve_failed_images lib tpl w rq :
  failed_images w ⊆ failed_images (serve lib tpl w rq).
Proof. apply build_failed_images. Qed.

(** The failed set only grows along a run of requests. *)
Lemma serve_all_failed_images lib tpl rqs w :
  failed_images w ⊆ failed_images (serve_all lib tpl w rqs).
Proof.
  unfold serve_all. revert w.
  induction rqs as [|rq rqs IH]; intros w; simpl; [done|].
  etrans; [apply (serve_failed_images lib tpl w rq)|apply IH].
Qed.

(** A request for an image in the failed set asks nothing of the runtime
    between taking and releasing the lock. *)
Lemma build_fails_fast lib tpl d repo_name spec_dict force_rebuild green_zone
    registry_config w json :
  spec_json (heap w) spec_dict = inr json ->
  get_image_name lib repo_name json ∈ failed_images w ->
  build_docker_image_from_specs lib tpl d repo_name spec_dict
    force_rebuild green_zone registry_config w =
  ({| failed_images := failed_images w;
      image_build_locks := {[get_image_name lib repo_name json]} ∪ image_build_locks w;
      heap := heap w;
      trace := (trace w ++ [EvAcquire (get_image_name lib repo_name json)])
                 ++ [EvRelease (get_image_name lib repo_name json)] |},
   raise (failed_before (get_image_name lib repo_name json))).
Proof.
  intros Hjson Hin. unfold build_docker_image_from_specs. rewrite Hjson. cbn zeta.
  assert (exists fields, spec_fields (heap w) spec_dict = inr fields) as [fields Hf].
  { unfold spec_json in Hjson. unfold spec_fields.
    destruct spec_dict as [| | | | |l]; try done.
    cbn [reify] in Hjson. destruct (heap w !! l) as [[xs|kvs]|]; [|by eauto|done].
    by destruct (mapM _ xs). }
  cbn [heap emit touch_lock]. rewrite Hf.
  unfold build_locked. cbn [failed_images emit touch_lock].
  by rewrite bool_decide_true.
Qed.

(** A build whose log carries an error entry marks the image and raises. *)
Lemma build_image_error tpl d repo_name image_name fields force_rebuild
    green_zone registry_config w repo_path python_version pip_packages packages
    σ text err :
  get_cached_or_clone_repo d repo_name force_rebuild = inr repo_path ->
  get_python fields = inr python_version ->
  get_pip_packages (heap w) fields = inr pip_packages ->
  get_packages fields = inr packages ->
  format_dockerfile tpl (basename repo_path) python_version pip_packages packages
    (default VNone (dict_get "pre_install" fields)) green_zone (heap w)
    = (σ, inr (Some text)) ->
  first_build_error (images_build d image_name text).1 = Some err ->
  exists w',
    build_image tpl d repo_name image_name fields force_rebuild green_zone
      registry_config w = (w', raise (build_failed err)) /\
    image_name ∈ failed_images w' /\
    EvBuild image_name ∈ trace w'.
Proof.
  intros Hclone Hpy Hpip Hpkg Hfmt Herr.
  unfold build_image. cbn zeta. rewrite Hclone, Hpy. cbn [heap emit].
  rewrite Hpip, Hpkg, Hfmt.
  destruct (images_build d image_name text) as [logs fin]. simpl in Herr.
  rewrite Herr. eexists. split; [done|].
  cbn [failed_images trace mark_failed emit set_heap]. split; [set_solver|].
  rewrite !elem_of_app. right. by left.
Qed.

Lemma build_error_marks_failed tpl d repo_name image_name fields force_rebuild
    green_zone registry_config w repo_path python_version pip_packages packages
    σ text err :
  image_name ∉ failed_images w ->
  reaches_build d image_name force_rebuild registry_config ->
  get_cached_or_clone_repo d repo_name force_rebuild = inr repo_path ->
  get_python fields = inr python_version ->
  get_pip_packages (heap w) fields = inr pip_packages ->
  get_packages fields = inr packages ->
  format_dockerfile tpl (basename repo_path) python_version pip_packages packages
    (default VNone (dict_get "pre_install" fields)) green_zone (heap w)
    = (σ, inr (Some text)) ->
  first_build_error (images_build d image_name text).1 = Some err ->
  exists w',
    build_locked tpl d repo_name image_name fields force_rebuild green_zone
      registry_config w = (w', raise (build_failed err)) /\
    image_name ∈ failed_images w' /\
    EvBuild image_name ∈ trace w'.
Proof.
  intros Hnin Hreach Hclone Hpy Hpip Hpkg Hfmt Herr.
  unfold build_locked. cbn zeta. rewrite bool_decide_false by done.
  pose proof (fun w0 (H : heap w0 = heap w) =>
    build_image_error tpl d repo_name image_name fields force_rebuild green_zone
      registry_config w0 repo_path python_version pip_packages packages σ text err
      Hclone Hpy (eq_ind_r (fun h => get_pip_packages h fields = inr pip_packages)
                    Hpip H)
      Hpkg (eq_ind_r (fun h => format_dockerfile tpl (basename repo_path)
                         python_version pip_packages packages
                         (default VNone (dict_get "pre_install" fields))
                         green_zone h = (σ, inr (Some text))) Hfmt H)
      Herr) as Hbuild.
  destruct Hreach as [->|[Hexist Hpull]].
  - by apply Hbuild.
  - destruct force_rebuild; [by apply Hbuild|]. rewrite Hexist.
    destruct registry_config as [cfg|]; [rewrite Hpull|]; by apply Hbuild.
Qed.

(** C7. An image name in the failed set is still in it after any further
    run of build requests; a call changes the failed set only by adding the
    image whose build log carried an error entry; and a request whose spec
    maps to a name in the failed set raises at once: between taking and
    releasing the per-image lock it makes no cache check, creates no pull and
    starts no clone or build, and it leaves the failed set and the store as
    they were. *)
Theorem C7_failed_is_sticky_and_fails_fast
    (lib : hash_lib) (tpl : templates) (w : world) (image : string)
    (rqs : list request) (rq : request) (json : dict pyval) :
  image ∈ failed_images w ->
  let w' := serve_all lib tpl w rqs in
  image ∈ failed_images w' /\
  (forall tpl' d repo fields force green registry w0 w1 r,
     build_locked tpl' d repo image fields force green registry w0 = (w1, r) ->
     failed_images w1 = failed_images w0 \/
     (failed_images w1 = {[image]} ∪ failed_images w0 /\
      exists err, r = raise (build_failed err))) /\
  (spec_json (heap w') (rq_spec_dict rq) = inr json ->
   get_image_name lib (rq_repo_name rq) json = image ->
   exists w'',
     build_docker_image_from_specs lib tpl (rq_docker rq) (rq_repo_name rq)
       (rq_spec_dict rq) (rq_force_rebuild rq) (rq_green_zone rq)
       (rq_registry_config rq) w' = (w'', raise (failed_before image)) /\
     trace w'' = (trace w' ++ [EvAcquire image; EvRelease image])%list /\
     failed_images w'' = failed_images w' /\
     heap w'' = heap w').
Proof.
  intros Hin w'.
  assert (image ∈ failed_images w') as Hin'.
  { by apply (serve_all_failed_images lib tpl rqs w). }
  split; [exact Hin'|]. split.
  - intros. by eapply build_locked_failed_images.
  - intros Hjson Hname. subst image.
    eexists. split; [by apply build_fails_fast|].
    cbn [trace failed_images heap]. by rewrite <- app_assoc.
Qed.

(** After two failing builds the next request for the image fails fast, even
    against a runtime whose builds would succeed. *)
Lemma C7_scenario :
  exists image w'',
    image ∈ failed_images Samples.marked_world /\
    build_docker_image_from_specs Samples.plain_lib Samples.plain_templates
      Samples.fresh_docker "encode/httpx" Samples.spec_ref false false None
      Samples.marked_world = (w'', raise (failed_before image)) /\
    trace w'' = (trace Samples.marked_world ++ [EvAcquire image; EvRelease image])%list.
Proof.
  pose (json := [("python", PStr "3.9");
                 ("pre_install", PList [PStr "apt-get update"; PStr "sleep 100"]);
                 ("test_cmd", PStr "pytest")]).
  pose (image := get_image_name Samples.plain_lib "encode/httpx" json).
  destruct (C7_failed_is_sticky_and_fails_fast Samples.plain_lib
              Samples.plain_templates Samples.marked_world image []
              (Samples.request_with Samples.fresh_docker) json)
    as (Hin & _ & Hfast).
  - vm_compute. set_solver.
  - destruct Hfast as (w'' & Hbuild & Htrace & _); [by vm_compute|reflexivity|].
    exists image, w''. split; [exact Hin|]. split; [exact Hbuild|exact Htrace].
Defined.

(** ** The caller's spec dictionary *)

Lemma format_dockerfile_store tpl repo_path python_version pip_packages packages
    pre_install green_zone σ :
  (format_dockerfile tpl repo_path python_version pip_packages packages
     pre_install green_zone σ).1 = (prepare_pre_install pre_install σ).1.
Proof.
  unfold format_dockerfile.
  destruct (prepare_pre_install pre_install σ) as [σ' [e|pre]]; [done|].
  cbn zeta. by destruct (DOCKER_FILE_R2E_format tpl _).
Qed.

(** [format_dockerfile] touches no object other than the [pre_install] list. *)
Lemma format_dockerfile_frame tpl repo_path python_version pip_packages packages
    pre_install green_zone σ l :
  pre_install <> VRef l ->
  (format_dockerfile tpl repo_path python_version pip_packages packages
     pre_install green_zone σ).1 !! l = σ !! l.
Proof.
  intros Hne. rewrite format_dockerfile_store. unfold prepare_pre_install.
  destruct pre_install as [| | | | |l']; try done.
  destruct (σ !! l') as [[[|x xs]|kvs]|]; try done.
  destruct (bool_decide _); [done|]. cbn [fst].
  rewrite lookup_insert_ne; [done|]. congruence.
Qed.

(** It leaves the store as it is when the list is absent, empty or already
    holds an update of the package index. *)
Lemma format_dockerfile_unchanged tpl repo_path python_version pip_packages packages
    pre_install green_zone σ :
  match pre_install with
  | VRef l =>
      match σ !! l with
      | Some (OList xs) => xs = [] \/ VStr "apt-get update" ∈ xs
      | _ => True
      end
  | _ => True
  end ->
  (format_dockerfile tpl repo_path python_version pip_packages packages
     pre_install green_zone σ).1 = σ.
Proof.
  intros H. rewrite format_dockerfile_store. unfold prepare_pre_install.
  destruct pre_install as [| | | | |l]; try done.
  destruct (σ !! l) as [[[|x xs]|kvs]|]; try done.
  destruct H as [H|H]; [done|]. by rewrite bool_decide_true.
Qed.

(** It prepends to the caller's list otherwise. *)
Lemma format_dockerfile_inserts tpl repo_path python_version pip_packages packages
    green_zone σ l xs :
  σ !! l = Some (OList xs) -> xs <> [] -> VStr "apt-get update" ∉ xs ->
  (format_dockerfile tpl repo_path python_version pip_packages packages
     (VRef l) green_zone σ).1 = <[l := OList (VStr "apt-get update" :: xs)]> σ.
Proof.
  intros Hl Hne Hnin. rewrite format_dockerfile_store. unfold prepare_pre_install.
  rewrite Hl. destruct xs as [|x xs]; [done|]. by rewrite bool_decide_false.
Qed.

(** C10 fails on the code. A build of the spec
    [{"python": "3.9", "pre_install": ["sleep 100"], "test_cmd": "pytest"}]
    against a runtime without a cached image returns the image name and
    leaves ["apt-get update"] prepended to the caller's [pre_install] list:
    the spec read back after the call differs from the spec before it, its
    canonical tuple differs, so does the text that is hashed under every
    injective serializer, and so does the image name under the sample
    library. *)
Theorem C10_build_prepends_to_caller_spec :
  exists w' before after name,
    build_docker_image_from_specs Samples.plain_lib Samples.plain_templates
      Samples.fresh_docker "encode/httpx" Samples.spec_ref false false None
      Samples.fresh_world = (w', ret (ImageName name)) /\
    spec_json (heap Samples.fresh_world) Samples.spec_ref = inr before /\
    spec_json (heap w') Samples.spec_ref = inr after /\
    dict_get "pre_install" before = Some (PList [PStr "sleep 100"]) /\
    dict_get "pre_install" after =
      Some (PList [PStr "apt-get update"; PStr "sleep 100"]) /\
    canonical before <> canonical after /\
    (forall lib,
       (forall a b, orjson_dumps lib a = orjson_dumps lib b -> a = b) ->
       orjson_dumps lib (canonical before) ++ DOCKER_IMAGE_COMBINED lib <>
       orjson_dumps lib (canonical after) ++ DOCKER_IMAGE_COMBINED lib) /\
    name = get_image_name Samples.plain_lib "encode/httpx" before /\
    name <> get_image_name Samples.plain_lib "encode/httpx" after.
Proof.
  eexists _, _, _, _.
  split; [by vm_compute|]. split; [by vm_compute|]. split; [by vm_compute|].
  split; [done|]. split; [done|].
  assert (canonical
            [("python", PStr "3.9"); ("pre_install", PList [PStr "sleep 100"]);
             ("test_cmd", PStr "pytest")] <>
          canonical
            [("python", PStr "3.9");
             ("pre_install", PList [PStr "apt-get update"; PStr "sleep 100"]);
             ("test_cmd", PStr "pytest")]) as Hcanon by by vm_compute.
  split; [exact Hcanon|]. split.
  - intros lib Hinj H. apply append_inv_tail, Hinj in H. by apply Hcanon.
  - split; by vm_compute.
Qed.

End ImageBuilderFacts.

(* ===================================================================== *)
(** * Properties of result gathering *)
(* ===================================================================== *)

Module RunInstanceFacts.

(** ** The short-result map *)

Lemma summarize_dom_from (skipped_ok : bool) ts (m0 : gmap string bool) :
  dom (foldl (fun (m : gmap string bool) (x : Report.test) =>
                <[nodeid x :=
                    if skipped_ok
                    then mem (outcome x) ["passed"; "skipped"]
                    else String.eqb (outcome x) "passed"]> m) m0 ts)
  = dom m0 ∪ list_to_set (map nodeid ts).
Proof.
  revert m0. induction ts as [|t ts IH]; intros m0; simpl.
  - set_solver.
  - rewrite IH, dom_insert_L. set_solver.
Qed.

(** The short map has an entry exactly for the node ids of the report. *)
Lemma summarize_lookup_None skipped_ok ts x :
  summarize skipped_ok ts !! x = None <-> x ∉ map nodeid ts.
Proof.
  rewrite <- not_elem_of_dom. unfold summarize.
  rewrite summarize_dom_from, dom_empty_L. set_solver.
Qed.

(** ** The reconciliation loop *)

Lemma reconcile_short_results short pcs missing g x :
  short_results (foldl (reconcile_step short pcs) g missing) !! x =
  if bool_decide (x ∈ missing) then Some false else short_results g !! x.
Proof.
  revert g. induction missing as [|t missing IH]; intros g; cbn [foldl].
  - by rewrite bool_decide_false by set_solver.
  - rewrite IH. cbn [reconcile_step short_results].
    destruct (decide (x ∈ missing)) as [Hin|Hnin].
    + by rewrite !bool_decide_true by set_solver.
    + rewrite (bool_decide_false _ Hnin).
      destruct (decide (x = t)) as [->|Hne].
      * rewrite lookup_insert_eq. by rewrite bool_decide_true by set_solver.
      * rewrite lookup_insert_ne by done.
        by rewrite bool_decide_false by set_solver.
Qed.

Lemma reconcile_result_tests short pcs missing g :
  result_tests (foldl (reconcile_step short pcs) g missing) =
  (result_tests g ++
   (if short then []
    else map (fun t => compose_a_report_for_missing_test t (matching_longrepr pcs t))
           missing))%list.
Proof.
  revert g. induction missing as [|t missing IH]; intros g; simpl.
  - destruct short; by rewrite app_nil_r.
  - rewrite IH. cbn [reconcile_step result_tests].
    destruct short; [done|]. by rewrite <- app_assoc.
Qed.

Lemma compose_outcome test longrepr :
  outcome (compose_a_report_for_missing_test test longrepr) = "error" /\
  nodeid (compose_a_report_for_missing_test test longrepr) = test.
Proof.
  unfold compose_a_report_for_missing_test.
  destruct longrepr as [text|]; [destruct (String.eqb text "")|]; done.
Qed.

Lemma tests_missing_filter skipped_ok ts tests :
  List.filter (fun t => bool_decide (summarize skipped_ok ts !! t = None)) tests =
  tests_missing ts tests.
Proof.
  unfold tests_missing. induction tests as [|t tests IH]; simpl; [done|].
  rewrite IH. destruct (decide (t ∉ map nodeid ts)) as [H|H].
  - rewrite !bool_decide_true; [done..|]. by apply summarize_lookup_None.
  - rewrite !bool_decide_false; [done..|]. by rewrite summarize_lookup_None.
Qed.

Lemma elem_of_tests_missing ts tests test :
  test ∈ tests_missing ts tests <-> test ∈ tests /\ test ∉ map nodeid ts.
Proof.
  unfold tests_missing. rewrite list_elem_of_In, filter_In, <- list_elem_of_In.
  by rewrite bool_decide_eq_true.
Qed.

(** C5 as stated fails: with one requested test [a] and a report that lists
    one other test, [a] is not marked in the short map, and no entry is added
    to the full report. *)
Lemma C5_counterexample :
  ("a" ∉ map nodeid (get_tests Samples.only_b)) /\
  (exists m, RunInstance.gather_results Samples.only_b ["a"] true true true = inr (Short m) /\
             m !! "a" = None) /\
  RunInstance.gather_results Samples.only_b ["a"] true false true = inr (Full Samples.only_b).
Proof.
  split; [vm_compute; set_solver|]. split; [|by vm_compute].
  eexists. split; by vm_compute.
Qed.

(** C5, amended. When the report lists fewer tests than were requested and
    the collector validation does not raise, every requested node id that the
    report does not list is marked failed in the short-result map, and in
    full-report mode the report's tests are followed by one synthesized entry
    per missing id, with outcome [error] and annotated with the text of the
    first problematic collector whose node id occurs in the id. *)
Theorem C5_missing_tests_are_reconciled
    (results : report) (ts : list Report.test) (tests : list string)
    (skipped_ok ignore_collector_errors : bool) (pcs : dict string) (test : string) :
  Report.tests results = Some ts ->
  validate_collectors results tests ignore_collector_errors = inr pcs ->
  (List.length ts < List.length tests)%nat ->
  test ∈ tests ->
  test ∉ map nodeid ts ->
  (exists m,
     RunInstance.gather_results results tests skipped_ok true ignore_collector_errors
       = inr (Short m) /\
     m !! test = Some false) /\
  (exists r,
     RunInstance.gather_results results tests skipped_ok false ignore_collector_errors
       = inr (Full r) /\
     Report.tests r =
       Some (ts ++ map (fun t => compose_a_report_for_missing_test t
                                   (matching_longrepr pcs t))
                       (tests_missing ts tests))%list /\
     let entry := compose_a_report_for_missing_test test (matching_longrepr pcs test) in
     entry ∈ default [] (Report.tests r) /\
     outcome entry = "error" /\ nodeid entry = test).
Proof.
  intros Hts Hval Hlt Hin Hmiss.
  assert (test ∈ tests_missing ts tests) as Hm by by apply elem_of_tests_missing.
  apply Nat.ltb_lt in Hlt.
  unfold RunInstance.gather_results. rewrite Hts, Hval. cbn [bind].
  destruct tests as [|t0 tests']; [by apply elem_of_nil in Hin|].
  rewrite Hlt, tests_missing_filter. split.
  - eexists. split; [done|].
    rewrite reconcile_short_results. by rewrite bool_decide_true.
  - eexists. split; [done|]. cbn [Report.tests].
    rewrite reconcile_result_tests. cbn [result_tests]. split; [done|].
    split; [|apply compose_outcome].
    cbn [default]. apply elem_of_app. right.
    apply list_elem_of_fmap. by exists test.
Qed.

(** Two tests requested, one reported: the other one is reconciled. *)
Lemma C5_scenario :
  (exists m,
     RunInstance.gather_results Samples.only_b ["a"; "b"] true true true = inr (Short m) /\
     m !! "a" = Some false) /\
  (exists r,
     RunInstance.gather_results Samples.only_b ["a"; "b"] true false true = inr (Full r) /\
     compose_a_report_for_missing_test "a" None ∈ default [] (Report.tests r)).
Proof.
  destruct (C5_missing_tests_are_reconciled Samples.only_b
              [Samples.bare_test "b" "passed"] ["a"; "b"] true true [] "a")
    as [Hshort (r & Hr & _ & Hentry & _)].
  - reflexivity.
  - reflexivity.
  - simpl. lia.
  - set_solver.
  - vm_compute. set_solver.
  - split; [exact Hshort|]. exists r. split; [exact Hr|exact Hentry].
Defined.

(** ** Collector validation *)

Lemma collector_step_import pcs c : import_failure c -> raises (collector_step pcs c).
Proof.
  intros (Ho & text & Ht & Hi). unfold collector_step.
  by rewrite Ho, Ht, Hi.
Qed.

Lemma collector_loop_import cs pcs c :
  c ∈ cs -> import_failure c -> raises (for_each collector_step cs pcs).
Proof.
  revert pcs. induction cs as [|c' cs IH]; intros pcs Hin Hc.
  - by apply elem_of_nil in Hin.
  - cbn [for_each]. apply elem_of_cons in Hin as [<-|Hin].
    + pose proof (collector_step_import pcs c Hc) as Hr.
      by destruct (collector_step pcs c).
    + destruct (collector_step pcs c'); [done|]. by apply IH.
Qed.

Lemma dict_set_nonempty {V} k (v : V) d : dict_set k v d <> [].
Proof. destruct d as [|[k' v'] d]; simpl; [done|]. by destruct (String.eqb k k'). Qed.

(** Without import failures the loop returns, and it returns the empty
    dictionary exactly when it started from it and no collector failed. *)
Lemma collector_loop_plain cs pcs :
  Forall plain_failure cs ->
  exists out,
    for_each collector_step cs pcs = inr out /\
    (out = [] <-> pcs = [] /\ Forall (fun c => c_outcome c <> "failed") cs).
Proof.
  revert pcs. induction cs as [|c cs IH]; intros pcs Hall.
  - exists pcs. split; [done|]. split; [by intros ->|by intros [-> _]].
  - apply Forall_cons in Hall as [Hc Hall]. cbn [for_each].
    unfold collector_step at 1.
    destruct (String.eqb_spec (c_outcome c) "failed") as [Ho|Ho].
    + destruct (Hc Ho) as (text & Ht & Hi). rewrite Ht, Hi. cbn [bind ret].
      destruct (IH (dict_set (c_nodeid c) text pcs) Hall) as (out & Hout & Hiff).
      exists out. split; [done|]. split.
      * intros E. apply Hiff in E as [E _]. by apply dict_set_nonempty in E.
      * intros [_ Hno]. apply Forall_cons in Hno as [Hno _]. done.
    + cbn [bind ret]. destruct (IH pcs Hall) as (out & Hout & Hiff).
      exists out. split; [done|]. rewrite Hiff, Forall_cons. naive_solver.
Qed.

Lemma gather_after_validation results ts tests skipped_ok short ignore pcs :
  Report.tests results = Some ts ->
  validate_collectors results tests ignore = inr pcs ->
  returns (RunInstance.gather_results results tests skipped_ok short ignore).
Proof.
  intros Hts Hval. unfold RunInstance.gather_results. rewrite Hts, Hval.
  cbn [bind]. by destruct short.
Qed.

(** C6 as stated fails: when no test was requested the collectors are not
    inspected, and a report with a collector that failed on an import error
    is gathered without raising, whatever [ignore_collector_errors] is. *)
Lemma C6_counterexample :
  (exists c, c ∈ default [] (collectors Samples.broken_import) /\ import_failure c) /\
  returns (RunInstance.gather_results Samples.broken_import [] true true false) /\
  returns (RunInstance.gather_results Samples.broken_import [] true true true).
Proof.
  split; [|by vm_compute].
  eexists. split; [left|]. split; [done|]. eexists. split; [done|]. by vm_compute.
Qed.

(** C6, amended. With a non-empty list of requested tests: a report with a
    collector that failed on an import or module-resolution error makes
    result gathering raise, whatever [ignore_collector_errors] is; and when
    every failed collector carries a text without such an error, gathering
    raises exactly when some collector failed and [ignore_collector_errors]
    is not set. *)
Theorem C6_collector_failures
    (results : report) (ts : list Report.test) (cs : list collector)
    (tests : list string) (skipped_ok short ignore_collector_errors : bool) :
  tests <> [] ->
  Report.tests results = Some ts ->
  collectors results = Some cs ->
  ((exists c, c ∈ cs /\ import_failure c) ->
   raises (RunInstance.gather_results results tests skipped_ok short
             ignore_collector_errors)) /\
  (Forall plain_failure cs ->
   (raises (RunInstance.gather_results results tests skipped_ok short
              ignore_collector_errors) <->
    ignore_collector_errors = false /\ exists c, c ∈ cs /\ c_outcome c = "failed")).
Proof.
  intros Htests Hts Hcs.
  destruct tests as [|t0 tests']; [done|]. split.
  - intros (c & Hin & Hc).
    unfold RunInstance.gather_results, validate_collectors. rewrite Hts, Hcs.
    pose proof (collector_loop_import cs [] c Hin Hc) as Hr.
    by destruct (for_each collector_step cs []).
  - intros Hall.
    destruct (collector_loop_plain cs [] Hall) as (out & Hout & Hiff).
    assert ((exists c, c ∈ cs /\ c_outcome c = "failed") <-> out <> []) as Hfailed.
    { rewrite Hiff. split.
      - intros (c & Hin & Ho) [_ Hno]. rewrite Forall_forall in Hno. by apply (Hno c).
      - intros Hne. apply not_and_l in Hne as [Hne|Hne]; [done|].
        apply not_Forall_Exists in Hne; [|intros c; apply _].
        apply Exists_exists in Hne as (c & Hin & Ho). exists c. split; [done|].
        by destruct (decide (c_outcome c = "failed")). }
    unfold RunInstance.gather_results, validate_collectors.
    rewrite Hts, Hcs, Hout. cbn [bind].
    destruct out as [|kv out].
    + cbn [bind ret]. split.
      * by destruct short.
      * intros [_ Hex]. by apply Hfailed in Hex.
    + destruct ignore_collector_errors; cbn [negb bind ret raise].
      * split; [by destruct short|]. by intros [? _].
      * split; [|done]. intros _. split; [done|]. by apply Hfailed.
Qed.

(** An import failure raises even when collector errors are ignored; a
    syntax failure raises only when they are not. *)
Lemma C6_scenario :
  raises (RunInstance.gather_results Samples.broken_import ["tests/test_a.py::test_x"]
            true true true) /\
  (raises (RunInstance.gather_results Samples.broken_syntax ["tests/test_a.py::test_x"]
             true true false) /\
   returns (RunInstance.gather_results Samples.broken_syntax ["tests/test_a.py::test_x"]
              true true true)).
Proof.
  split.
  - refine (proj1 (C6_collector_failures Samples.broken_import [] _
                     ["tests/test_a.py::test_x"] true true true _ _ _) _);
      [done|reflexivity|reflexivity|].
    eexists. split; [left|]. split; [done|]. eexists. split; [done|]. by vm_compute.
  - split; [|by vm_compute].
    refine (proj2 (proj2 (C6_collector_failures Samples.broken_syntax [] _
                     ["tests/test_a.py::test_x"] true true false _ _ _) _) _);
      [done|reflexivity|reflexivity| |].
    + constructor; [|constructor]. intros _. eexists. split; [done|]. by vm_compute.
    + split; [done|]. eexists. split; [left|]. done.
Defined.

End RunInstanceFacts.

(* ===================================================================== *)
(** * Properties of the batch scheduler *)
(* ===================================================================== *)

Module EvaluateFacts.

(** ** Draining a chunk *)

(** After the workers recorded the instances of [l] in this order, the result
    under an id is the one of an instance of [l] with that id, or the previous
    one when [l] has no such instance. *)
Lemma recorded_lookup p l (results : gmap string eval_result) iid :
  (exists i, i ∈ l /\ instance_id i = iid /\
             foldl (record_result p) results l !! iid = Some (result_of p i)) \/
  ((forall i, i ∈ l -> instance_id i <> iid) /\
   foldl (record_result p) results l !! iid = results !! iid).
Proof.
  revert results. induction l as [|x l IH]; intros results; cbn [foldl].
  - right. split; [|done]. intros i Hi. by apply elem_of_nil in Hi.
  - destruct (IH (record_result p results x)) as [(i & Hi & Hid & Hl)|[Hno Hl]].
    + left. exists i. split; [by right|done].
    + destruct (decide (instance_id x = iid)) as [Hx|Hx].
      * left. exists x. split; [by left|]. split; [done|].
        rewrite Hl. unfold record_result. by rewrite Hx, lookup_insert_eq.
      * right. split.
        -- intros i Hi. apply elem_of_cons in Hi as [->|Hi]; [done|by apply Hno].
        -- rewrite Hl. unfold record_result. by rewrite lookup_insert_ne.
Qed.

(** Once a chunk is drained, every id of the chunk has the result of an
    instance of the chunk. *)
Lemma drain_lookup p batch results i :
  fair p -> i ∈ batch ->
  exists i', i' ∈ batch /\ instance_id i' = instance_id i /\
             drain p batch results !! instance_id i = Some (result_of p i').
Proof.
  intros Hfair Hi. unfold drain.
  destruct (recorded_lookup p (completion p batch) results (instance_id i))
    as [(i' & Hi' & Hid & Hl)|[Hno _]].
  - exists i'. split; [by rewrite <- (Hfair batch)|done].
  - exfalso. apply (Hno i); [by rewrite (Hfair batch)|done].
Qed.

Lemma result_of_raises p i : raises (attempt p i) -> has_error (result_of p i) = true.
Proof. unfold result_of. by destruct (attempt p i) as [e|[m|r]]. Qed.

(** ** The stop test *)

Lemma all_errors_returns results ids :
  (forall iid, iid ∈ ids -> is_Some (results !! iid)) ->
  exists b, all_errors results ids = inr b.
Proof.
  induction ids as [|iid ids IH]; intros Hall; cbn [all_errors]; [by eexists|].
  destruct (Hall iid) as [r ->]; [by left|].
  destruct (has_error r); [|by eexists].
  apply IH. intros iid' Hin. apply Hall. by right.
Qed.

Lemma all_errors_true results ids :
  (forall iid, iid ∈ ids -> exists r, results !! iid = Some r /\ has_error r = true) ->
  all_errors results ids = inr true.
Proof.
  induction ids as [|iid ids IH]; intros Hall; cbn [all_errors]; [done|].
  destruct (Hall iid) as (r & -> & ->); [by left|].
  apply IH. intros iid' Hin. apply Hall. by right.
Qed.

Lemma stop_test_returns p batch results :
  fair p ->
  exists b, all_errors (drain p batch results) (map instance_id batch) = inr b.
Proof.
  intros Hfair. apply all_errors_returns. intros iid Hin.
  apply list_elem_of_fmap in Hin as (i & -> & Hi).
  destruct (drain_lookup p batch results i Hfair Hi) as (i' & _ & _ & ->). eauto.
Qed.

(** A chunk all of whose instances raised stops the loop. *)
Lemma stop_test_all_raise p batch results :
  fair p -> all_raise p batch ->
  all_errors (drain p batch results) (map instance_id batch) = inr true.
Proof.
  intros Hfair Hall. apply all_errors_true. intros iid Hin.
  apply list_elem_of_fmap in Hin as (i & -> & Hi).
  destruct (drain_lookup p batch results i Hfair Hi) as (i' & Hi' & _ & ->).
  eexists. split; [done|]. apply result_of_raises.
  unfold all_raise in Hall. rewrite Forall_forall in Hall. by apply Hall.
Qed.

(** ** The chunks *)

Lemma chunks_concat_take {A} (l : list A) n m :
  List.concat (map (fun i => slice l i n) (map (fun j => j * n)%nat (seq 0 m))) =
  take (m * n) l.
Proof.
  induction m as [|m IH]; [done|].
  rewrite seq_S, !map_app, concat_app, IH. cbn [map List.concat plus].
  rewrite app_nil_r. unfold slice. rewrite take_take_drop. f_equal. lia.
Qed.

(** The chunks cut the list into consecutive pieces. *)
Lemma chunks_concat {A} (l : list A) n : (0 < n)%nat -> List.concat (chunks l n) = l.
Proof.
  intros Hn. unfold chunks, range_step. rewrite chunks_concat_take.
  apply take_ge.
  pose proof (Nat.div_mod_eq (List.length l + n - 1) n) as Hdiv.
  pose proof (Nat.mod_upper_bound (List.length l + n - 1) n ltac:(lia)) as Hmod.
  nia.
Qed.

(** Every chunk but the last has [n] elements, and the last has the rest. *)
Lemma chunks_length {A} (l : list A) n j c :
  chunks l n !! j = Some c ->
  List.length c = ((List.length l - j * n) `min` n)%nat.
Proof.
  unfold chunks, range_step. rewrite !list_lookup_fmap.
  destruct (seq 0 _ !! j) as [j'|] eqn:Hj; [|done].
  apply lookup_seq in Hj as [-> _]. intros [= <-].
  unfold slice. rewrite length_take, length_drop. lia.
Qed.

End EvaluateFacts.

(* ===================================================================== *)
(** * Properties of the differential classifier *)
(* ===================================================================== *)

Module ProduceFacts.

Lemma relocate_default root_dir e : default_root root_dir -> relocate root_dir e = e.
Proof. by intros [->|[->| ->]]. Qed.

(** ** The loop of [gather_results] *)

Lemma gather_step_returns pres st iid g :
  extractable g -> returns (gather_step pres st (iid, g)).
Proof.
  unfold extractable, gather_step. destruct (pres !! iid); [|done].
  destruct g as [e tb|golden]; [done|].
  by destruct (extract_crash_details_from_report golden).
Qed.

Lemma gather_step_other pres st id g st' iid :
  gather_step pres st (id, g) = inr st' -> iid <> id ->
  instance_id2results st' !! iid = instance_id2results st !! iid.
Proof.
  unfold gather_step. intros H Hne.
  destruct (pres !! id); [|by injection H as <-].
  destruct g as [e tb|golden].
  - injection H as <-. simpl. by rewrite lookup_insert_ne.
  - destruct (match extract_crash_details_from_report golden with
              | inr cd => Some cd | inl _ => crash_details_var st end); [|done].
    injection H as <-. simpl. by rewrite lookup_insert_ne.
Qed.

Lemma gather_loop_other pres goldens st st' iid :
  for_each (gather_step pres) goldens st = inr st' -> iid ∉ goldens.*1 ->
  instance_id2results st' !! iid = instance_id2results st !! iid.
Proof.
  revert st. induction goldens as [|[id g] goldens IH]; intros st; simpl.
  - by intros [= <-].
  - intros H Hnin. apply bind_inr in H as (st1 & H1 & H2).
    apply not_elem_of_cons in Hnin as [Hne Hnin].
    rewrite (IH _ H2 Hnin). by eapply gather_step_other.
Qed.

Lemma gather_loop_returns pres goldens st :
  Forall extractable goldens.*2 ->
  exists st', for_each (gather_step pres) goldens st = inr st'.
Proof.
  intros Hall. apply returns_inr, for_each_returns.
  intros st' [id g] Hin. apply gather_step_returns.
  rewrite Forall_forall in Hall. apply Hall.
  apply list_elem_of_fmap. by exists (id, g).
Qed.

(** What the loop stores for an instance of both rounds whose golden round
    produced a report. *)
Lemma gather_loop_entry pres goldens st iid pre golden crash_details :
  NoDup goldens.*1 ->
  Forall extractable goldens.*2 ->
  (iid, RoundReport golden) ∈ goldens ->
  pres !! iid = Some pre ->
  extract_crash_details_from_report golden = inr crash_details ->
  exists st',
    for_each (gather_step pres) goldens st = inr st' /\
    instance_id2results st' !! iid =
      Some (ClsEntry (relocate (root golden)
              (classify pre (nodeids_with PASS_OUTCOMES (get_tests golden))
                 crash_details))).
Proof.
  intros Hnd Hall Hin Hpre Hcd. revert st Hnd Hall Hin.
  induction goldens as [|[id g] goldens IH]; intros st Hnd Hall Hin.
  - by apply elem_of_nil in Hin.
  - simpl in Hnd, Hall. apply NoDup_cons in Hnd as [Hfresh Hnd].
    apply Forall_cons in Hall as [Hg Hall].
    apply elem_of_cons in Hin as [[= <- <-]|Hin].
    + destruct (gather_loop_returns pres goldens
                  {| crash_details_var := Some crash_details;
                     instance_id2results :=
                       <[iid := ClsEntry (relocate (root golden)
                          (classify pre (nodeids_with PASS_OUTCOMES (get_tests golden))
                             crash_details))]> (instance_id2results st) |} Hall)
        as [st' Hst'].
      exists st'. split.
      * simpl. rewrite Hpre, Hcd. simpl. exact Hst'.
      * rewrite (gather_loop_other _ _ _ _ iid Hst' Hfresh). simpl.
        by rewrite lookup_insert_eq.
    + pose proof (gather_step_returns pres st id g Hg) as Hr.
      apply returns_inr in Hr as [st1 Hst1].
      destruct (IH st1 Hnd Hall Hin) as (st' & Hst' & Hlook).
      exists st'. split; [|done].
      cbn [for_each]. rewrite Hst1. exact Hst'.
Qed.

Lemma gather_results_entry pres goldens iid pre golden crash_details :
  NoDup goldens.*1 ->
  Forall extractable goldens.*2 ->
  (iid, RoundReport golden) ∈ goldens ->
  pres !! iid = Some pre ->
  extract_crash_details_from_report golden = inr crash_details ->
  exists out,
    gather_results pres goldens = inr out /\
    out !! iid =
      Some (ClsEntry (relocate (root golden)
              (classify pre (nodeids_with PASS_OUTCOMES (get_tests golden))
                 crash_details))).
Proof.
  intros Hnd Hall Hin Hpre Hcd. unfold gather_results.
  destruct (gather_loop_entry pres goldens
              {| crash_details_var := None; instance_id2results := ∅ |}
              iid pre golden crash_details Hnd Hall Hin Hpre Hcd)
    as (st' & Hst' & Hlook).
  exists (instance_id2results st'). by rewrite Hst'.
Qed.

(** What the loop stores for an instance of both rounds whose golden round
    produced a report, whether or not its crash details could be extracted:
    the entry built from some crash-detail map, which is the report's own
    when the extraction returns. *)
Lemma gather_loop_report pres goldens st st' iid pre golden :
  for_each (gather_step pres) goldens st = inr st' ->
  NoDup goldens.*1 -> (iid, RoundReport golden) ∈ goldens -> pres !! iid = Some pre ->
  exists crash_details,
    instance_id2results st' !! iid
    = Some (ClsEntry (relocate (root golden)
              (classify pre (nodeids_with PASS_OUTCOMES (get_tests golden))
                 crash_details))) /\
    (forall cd, extract_crash_details_from_report golden = inr cd -> crash_details = cd).
Proof.
  revert st. induction goldens as [|[id g] goldens IH]; intros st H Hnd Hin Hpre.
  - by apply elem_of_nil in Hin.
  - cbn [for_each] in H. apply bind_inr in H as (st1 & H1 & H2).
    cbn [fmap list_fmap fst] in Hnd. apply NoDup_cons in Hnd as [Hfresh Hnd].
    apply elem_of_cons in Hin as [[= <- <-]|Hin]; [|by apply (IH st1)].
    rewrite (gather_loop_other _ _ _ _ iid H2 Hfresh).
    unfold gather_step in H1. rewrite Hpre in H1.
    destruct (extract_crash_details_from_report golden) as [e|cd].
    + destruct (crash_details_var st) as [stale|]; [|done].
      injection H1 as <-. cbn [instance_id2results]. rewrite lookup_insert_eq.
      by exists stale.
    + injection H1 as <-. cbn [instance_id2results]. rewrite lookup_insert_eq.
      exists cd. split; [done|]. by intros cd' [= <-].
Qed.

(** ** The four transition sets *)

Lemma extractable_report golden :
  extractable (RoundReport golden) ->
  exists crash_details, extract_crash_details_from_report golden = inr crash_details.
Proof. intros H. by apply returns_inr. Qed.

Lemma extractable_elem (goldens : list (string * round_result)) iid g :
  Forall extractable goldens.*2 -> (iid, g) ∈ goldens -> extractable g.
Proof.
  rewrite Forall_forall. intros Hall Hin. apply Hall.
  apply list_elem_of_fmap. by exists (iid, g).
Qed.

(** In a golden round with distinct instance ids all of whose reports yield
    their crash details, [gather_results] stores, for an instance whose
    pre-round result is a report, the four transition sets as intersections:
    FAIL_TO_PASS = pre_fail ∩ post_pass, PASS_TO_PASS = pre_pass ∩ post_pass,
    FAIL_TO_FAIL = pre_fail ∩ post_fail, PASS_TO_FAIL = pre_pass ∩ post_fail,
    where the pass sets hold the node ids with outcome passed or skipped and
    the fail sets those with outcome failed or error. The stored entry is the
    entry [e] of these sets after the root-marker rewrite, which leaves [e]
    as it is under a default marker. In the scenario pre_fail = {t1, t2},
    pre_pass = {t3}, post_pass = {t1, t3}, post_fail = {t2} the sets are
    {t1}, {t3}, {t2} and {}. *)
Theorem transition_sets_when_extraction_returns
    (pres : gmap string round_result) (goldens : list (string * round_result))
    (iid : string) (pre golden : report) :
  NoDup goldens.*1 ->
  Forall extractable goldens.*2 ->
  (iid, RoundReport golden) ∈ goldens ->
  pres !! iid = Some (RoundReport pre) ->
  let pre_pass := nodeids_with PASS_OUTCOMES (get_tests pre) in
  let pre_fail := nodeids_with FAIL_OUTCOMES (get_tests pre) in
  let post_pass := nodeids_with PASS_OUTCOMES (get_tests golden) in
  let post_fail := nodeids_with FAIL_OUTCOMES (get_tests golden) in
  exists out e,
    gather_results pres goldens = inr out /\
    out !! iid = Some (ClsEntry (relocate (root golden) e)) /\
    (default_root (root golden) -> relocate (root golden) e = e) /\
    (list_to_set (f2p e) = pre_fail ∩ post_pass /\
     list_to_set (p2p e) = pre_pass ∩ post_pass /\
     list_to_set (f2f e) = pre_fail ∩ post_fail /\
     list_to_set (p2f e) = pre_pass ∩ post_fail) /\
    (NoDup (f2p e) /\ NoDup (p2p e) /\ NoDup (f2f e) /\ NoDup (p2f e)) /\
    (pre_fail = {["t1"; "t2"]} -> pre_pass = {["t3"]} ->
     post_pass = {["t1"; "t3"]} -> post_fail = {["t2"]} ->
     f2p e = ["t1"] /\ p2p e = ["t3"] /\ f2f e = ["t2"] /\ p2f e = []).
Proof.
  intros Hnd Hall Hin Hpre pre_pass pre_fail post_pass post_fail.
  destruct (extractable_report golden (extractable_elem _ _ _ Hall Hin))
    as [crash_details Hcd].
  destruct (gather_results_entry pres goldens iid (RoundReport pre) golden
              crash_details Hnd Hall Hin Hpre Hcd) as (out & Hout & Hlook).
  pose proof (crash_details_dom golden crash_details Hcd) as Hdom.
  exists out, (classify (RoundReport pre) post_pass crash_details).
  split; [exact Hout|]. split; [exact Hlook|].
  split; [apply relocate_default|].
  cbn [classify f2p p2p f2f p2f]. rewrite Hdom.
  fold pre_pass pre_fail post_fail.
  split; [by rewrite !list_to_set_elements_L|].
  split; [repeat split; apply NoDup_elements|].
  intros -> -> -> ->. by vm_compute.
Qed.

(** The scenario on two concrete reports, through the theorem. *)
Lemma transition_sets_scenario :
  exists out e,
    gather_results {["i" := RoundReport Samples.pre_round]}
      [("i", RoundReport Samples.post_round)] = inr out /\
    out !! "i" = Some (ClsEntry e) /\
    f2p e = ["t1"] /\ p2p e = ["t3"] /\ f2f e = ["t2"] /\ p2f e = [].
Proof.
  destruct (transition_sets_when_extraction_returns
              {["i" := RoundReport Samples.pre_round]}
              [("i", RoundReport Samples.post_round)]
              "i" Samples.pre_round Samples.post_round)
    as (out & e & Hout & Hlook & Hroot & _ & _ & Hscenario).
  - repeat constructor; set_solver.
  - repeat constructor.
  - set_solver.
  - reflexivity.
  - exists out, e. split; [exact Hout|]. split.
    + rewrite Hlook, Hroot; [done | by left].
    + by apply Hscenario.
Defined.

(** C1, on a run of two instances. For the second instance the pre-round
    report gives pre_fail = {t, s} and pre_pass = {}, the post-round report
    gives post_pass = {t} and post_fail = {s}: FAIL_TO_FAIL should be {s} and
    FAIL_TO_PASS {t}. The test [s] fails in its setup phase, so the extraction
    of the crash details raises [KeyError]; [gather_results] swallows the
    exception and classifies with the crash details of the instance before,
    whose only key is [t]: the stored FAIL_TO_FAIL is [t], not [s], and [t] is
    also the stored FAIL_TO_PASS. When the instance is the first of the round,
    [gather_results] ends in [UnboundLocalError]. *)
Theorem C1_stale_crash_details_replace_post_fail :
  nodeids_with FAIL_OUTCOMES (get_tests Samples.b_pre) = {["t"; "s"]} /\
  nodeids_with PASS_OUTCOMES (get_tests Samples.b_pre) = ∅ /\
  nodeids_with PASS_OUTCOMES (get_tests Samples.b_golden) = {["t"]} /\
  nodeids_with FAIL_OUTCOMES (get_tests Samples.b_golden) = {["s"]} /\
  extract_crash_details_from_report Samples.b_golden = inl (KeyError "crash") /\
  (exists out e,
     gather_results Samples.two_pre_rounds Samples.two_golden_rounds = inr out /\
     out !! "b" = Some (ClsEntry e) /\
     f2p e = ["t"] /\ p2p e = [] /\ f2f e = ["t"] /\ p2f e = [] /\
     list_to_set (f2f e)
     <> nodeids_with FAIL_OUTCOMES (get_tests Samples.b_pre)
        ∩ nodeids_with FAIL_OUTCOMES (get_tests Samples.b_golden)) /\
  gather_results {["b" := RoundReport Samples.b_pre]}
    [("b", RoundReport Samples.b_golden)]
  = inl (UnboundLocalError "crash_details").
Proof.
  split; [by vm_compute|]. split; [by vm_compute|]. split; [by vm_compute|].
  split; [by vm_compute|]. split; [by vm_compute|]. split; [|by vm_compute].
  eexists _, _. split; [by vm_compute|]. split; [by vm_compute|].
  repeat (split; [by vm_compute|]).
  vm_compute. intros H. discriminate H.
Qed.

(** In a golden round with distinct instance ids all of whose reports yield
    their crash details: for an instance whose pre-round result is an error and
    whose post-round result is a report, the stored FAIL_TO_PASS is exactly the set
    of post-round node ids with outcome passed or skipped, FAIL_TO_FAIL is
    exactly the key set of the extracted crash-detail map (the post-round node
    ids with outcome failed or error), and PASS_TO_PASS and PASS_TO_FAIL are
    empty. The stored entry is the entry [e] of these sets after the
    root-marker rewrite, which leaves [e] as it is under a default marker. *)
Theorem baseline_error_when_extraction_returns
    (pres : gmap string round_result) (goldens : list (string * round_result))
    (iid : string) (golden : report) (error traceback : string) :
  NoDup goldens.*1 ->
  Forall extractable goldens.*2 ->
  (iid, RoundReport golden) ∈ goldens ->
  pres !! iid = Some (RoundError error traceback) ->
  exists out e crash_details,
    gather_results pres goldens = inr out /\
    out !! iid = Some (ClsEntry (relocate (root golden) e)) /\
    (default_root (root golden) -> relocate (root golden) e = e) /\
    extract_crash_details_from_report golden = inr crash_details /\
    list_to_set (f2p e) = nodeids_with PASS_OUTCOMES (get_tests golden) /\
    list_to_set (f2f e) = (dom crash_details : gset string) /\
    dom crash_details = nodeids_with FAIL_OUTCOMES (get_tests golden) /\
    f2f_test_details e = crash_details /\
    p2p e = [] /\ p2f e = [] /\ NoDup (f2p e) /\ NoDup (f2f e).
Proof.
  intros Hnd Hall Hin Hpre.
  destruct (extractable_report golden (extractable_elem _ _ _ Hall Hin))
    as [crash_details Hcd].
  destruct (gather_results_entry pres goldens iid (RoundError error traceback)
              golden crash_details Hnd Hall Hin Hpre Hcd) as (out & Hout & Hlook).
  exists out,
    (classify (RoundError error traceback)
       (nodeids_with PASS_OUTCOMES (get_tests golden)) crash_details),
    crash_details.
  split; [exact Hout|]. split; [exact Hlook|].
  split; [apply relocate_default|]. split; [exact Hcd|].
  cbn [classify f2p p2p f2f p2f f2f_test_details].
  rewrite !list_to_set_elements_L.
  repeat split; try apply NoDup_elements.
  by apply crash_details_dom.
Qed.

(** A round that timed out before the patch, followed by the post-round
    report of the scenario. *)
Lemma baseline_error_scenario :
  exists out e,
    gather_results {["i" := Samples.failed_round]}
      [("i", RoundReport Samples.post_round)] = inr out /\
    out !! "i" = Some (ClsEntry e) /\
    list_to_set (f2p e) = ({["t1"; "t3"]} : gset string) /\
    list_to_set (f2f e) = ({["t2"]} : gset string) /\
    p2p e = [] /\ p2f e = [].
Proof.
  destruct (baseline_error_when_extraction_returns
              {["i" := Samples.failed_round]}
              [("i", RoundReport Samples.post_round)]
              "i" Samples.post_round
              "Container timed out after 300 seconds." "Traceback")
    as (out & e & cd & Hout & Hlook & Hroot & Hcd & Hf2p & Hf2f & Hdom & _ & Hp2p & Hp2f & _).
  - repeat constructor; set_solver.
  - repeat constructor.
  - set_solver.
  - reflexivity.
  - exists out, e. split; [exact Hout|]. split.
    + rewrite Hlook, Hroot; [done | by left].
    + rewrite Hf2p, Hf2f, Hdom. by vm_compute.
Defined.

(** C3, on a run of two instances. The pre-round of the second instance is an
    error; its post-round report has the passing test [t] and the test [s],
    failed in its setup phase: FAIL_TO_PASS should be {t} and FAIL_TO_FAIL
    the crashed set {s}. The extraction of the crash details raises
    [KeyError] on that report; [gather_results] swallows the exception and
    stores the crash details of the instance before as FAIL_TO_FAIL and as
    its details: the stored FAIL_TO_FAIL is [t], the very test that passes.
    When the instance is the first of the round, [gather_results] ends in
    [UnboundLocalError]. *)
Theorem C3_stale_crash_details_after_a_baseline_error :
  nodeids_with PASS_OUTCOMES (get_tests Samples.b_golden) = {["t"]} /\
  nodeids_with FAIL_OUTCOMES (get_tests Samples.b_golden) = {["s"]} /\
  extract_crash_details_from_report Samples.b_golden = inl (KeyError "crash") /\
  extract_crash_details_from_report Samples.a_golden = inr {["t" := "call crash"]} /\
  (exists out e,
     gather_results Samples.two_pre_rounds_b_failed Samples.two_golden_rounds
       = inr out /\
     out !! "b" = Some (ClsEntry e) /\
     f2p e = ["t"] /\ p2p e = [] /\ f2f e = ["t"] /\ p2f e = [] /\
     f2f_test_details e = {["t" := "call crash"]} /\
     list_to_set (f2f e)
     <> nodeids_with FAIL_OUTCOMES (get_tests Samples.b_golden)) /\
  gather_results {["b" := Samples.failed_round]}
    [("b", RoundReport Samples.b_golden)]
  = inl (UnboundLocalError "crash_details").
Proof.
  split; [by vm_compute|]. split; [by vm_compute|]. split; [by vm_compute|].
  split; [by vm_compute|]. split; [|by vm_compute].
  eexists _, _. split; [by vm_compute|]. split; [by vm_compute|].
  repeat (split; [by vm_compute|]).
  vm_compute. intros H. discriminate H.
Qed.

(** ** Disjointness *)

(** C4 as stated fails: a pre-round report that lists a node id once as
    passed and once as failed puts the id into FAIL_TO_PASS and into
    PASS_TO_PASS. *)
Lemma C4_counterexample :
  exists out e,
    gather_results {["i" := RoundReport Samples.twice_round]}
      [("i", RoundReport Samples.once_round)] = inr out /\
    out !! "i" = Some (ClsEntry e) /\
    "t1" ∈ f2p e /\ "t1" ∈ p2p e.
Proof.
  eexists _, _. split; [by vm_compute|]. split; [by vm_compute|].
  split; vm_compute; left.
Qed.

(** The root-marker rewrite can merge node ids that were distinct: with unique
    node ids in both reports, a relative id of FAIL_TO_PASS and an absolute
    id of PASS_TO_PASS end up as the same path. *)
Lemma root_join_merges_node_ids :
  NoDup (map nodeid (get_tests Samples.mixed_pre)) /\
  NoDup (map nodeid (get_tests Samples.mixed_golden)) /\
  exists out e,
    gather_results {["i" := RoundReport Samples.mixed_pre]}
      [("i", RoundReport Samples.mixed_golden)] = inr out /\
    out !! "i" = Some (ClsEntry e) /\
    f2p e = ["/r/x"] /\ p2p e = ["/r/x"].
Proof.
  split; [|split].
  - cbn. repeat (apply NoDup_cons; split;
      [rewrite ?elem_of_cons, elem_of_nil; intros H; intuition discriminate|]).
    apply NoDup_nil_2.
  - cbn. repeat (apply NoDup_cons; split;
      [rewrite ?elem_of_cons, elem_of_nil; intros H; intuition discriminate|]).
    apply NoDup_nil_2.
  - eexists _, _. split; [by vm_compute|]. split; [by vm_compute|].
    split; by vm_compute.
Qed.

Lemma NoDup_single_class r :
  NoDup (map nodeid (get_tests r)) -> single_class r.
Proof.
  unfold single_class. intros Hnd x Hp Hf.
  apply elem_of_nodeids_with in Hp as (t & Ht & <- & Hpo).
  apply elem_of_nodeids_with in Hf as (u & Hu & E & Hfo).
  assert (t = u) as ->.
  { apply list_elem_of_lookup in Ht as [i Hi]. apply list_elem_of_lookup in Hu as [j Hj].
    assert (i = j) as ->.
    { eapply NoDup_lookup; [exact Hnd| |].
      - by rewrite list_lookup_fmap, Hi.
      - by rewrite list_lookup_fmap, Hj, <- E. }
    congruence. }
  unfold PASS_OUTCOMES, FAIL_OUTCOMES in *.
  rewrite !elem_of_cons, elem_of_nil in Hpo, Hfo.
  destruct Hpo as [Ho|[Ho|[]]], Hfo as [Ho'|[Ho'|[]]]; congruence.
Qed.

Lemma map_disjoint (f : string -> string) (l1 l2 : list string) :
  (forall x y, x ∈ l1 -> y ∈ l2 -> f x = f y -> x = y) ->
  l1 ## l2 -> map f l1 ## map f l2.
Proof.
  intros Hinj Hdis z H1 H2.
  apply list_elem_of_fmap in H1 as (x & -> & Hx).
  apply list_elem_of_fmap in H2 as (y & E & Hy).
  apply (Hdis x); [done|]. by rewrite (Hinj x y Hx Hy E).
Qed.

Lemma elements_disjoint (X Y : gset string) : X ## Y -> elements X ## elements Y.
Proof. intros H x Hx Hy. apply elem_of_elements in Hx, Hy. by apply (H x). Qed.

Lemma classify_disjoint pre golden_pass crash_details :
  single_class_result pre ->
  golden_pass ## (dom crash_details : gset string) ->
  pairwise_disjoint (classify pre golden_pass crash_details).
Proof.
  unfold pairwise_disjoint. intros Hpre Hgolden.
  destruct pre as [e tb|pre]; cbn [classify f2p p2p f2f p2f].
  - repeat split; try (by intros x Hx Hy; apply elem_of_nil in Hy);
      try (by intros x Hx Hy; apply elem_of_nil in Hx).
    by apply elements_disjoint.
  - unfold single_class_result, single_class in Hpre.
    repeat split; apply elements_disjoint; set_solver.
Qed.

Lemma classify_ids pre golden_pass crash_details x :
  x ∈ (f2p (classify pre golden_pass crash_details) ++
       p2p (classify pre golden_pass crash_details) ++
       f2f (classify pre golden_pass crash_details) ++
       p2f (classify pre golden_pass crash_details))%list ->
  x ∈ golden_pass ∪ (dom crash_details : gset string).
Proof.
  destruct pre as [e tb|pre]; cbn [classify f2p p2p f2f p2f];
    rewrite !elem_of_app, ?elem_of_elements; set_solver.
Qed.

Lemma relocate_disjoint root_dir e :
  (forall x, x ∈ (f2p e ++ p2p e ++ f2f e ++ p2f e)%list ->
             startswith "/" x = false) ->
  pairwise_disjoint e -> pairwise_disjoint (relocate root_dir e).
Proof.
  intros Hrel Hdis. unfold relocate.
  destruct root_dir as [dir|]; [|done].
  destruct (negb (String.eqb dir "") && negb (String.eqb dir "/workspace")); [|done].
  destruct Hdis as (H1 & H2 & H3 & H4 & H5 & H6).
  unfold pairwise_disjoint. cbn [f2p p2p f2f p2f].
  repeat split; (apply map_disjoint; [|done]);
    intros x y Hx Hy; apply path_join_inj; apply Hrel;
    rewrite !elem_of_app; auto.
Qed.

(** C4, amended. For an instance whose post-round report yields its crash
    details: when no node id carries both a passing and a failing outcome
    within a round (as when node ids are unique within each report), and the
    root marker is a default one or the post-round node ids are relative
    paths, the four sets stored for the instance are pairwise disjoint,
    whenever [gather_results] returns; and it returns when every report of
    the golden round yields its crash details. An instance on whose
    post-round report the extraction of crash details raises is left out. *)
Theorem C4_disjoint_when_outcomes_unique
    (pres : gmap string round_result) (goldens : list (string * round_result))
    (iid : string) (pre : round_result) (golden : report) :
  NoDup goldens.*1 ->
  (iid, RoundReport golden) ∈ goldens ->
  pres !! iid = Some pre ->
  returns (extract_crash_details_from_report golden) ->
  single_class_result pre ->
  single_class golden ->
  default_root (root golden) \/ relative_ids golden ->
  (Forall extractable goldens.*2 -> returns (gather_results pres goldens)) /\
  forall out, gather_results pres goldens = inr out ->
    exists e, out !! iid = Some (ClsEntry e) /\ pairwise_disjoint e.
Proof.
  intros Hnd Hin Hpre Hret Hsc_pre Hsc_golden Hroot. split.
  { intros Hall. unfold gather_results.
    destruct (gather_loop_returns pres goldens
                {| crash_details_var := None; instance_id2results := ∅ |} Hall)
      as [st' ->]. done. }
  intros out Hout. unfold gather_results in Hout.
  apply bind_inr in Hout as (st' & Hloop & [= <-]).
  destruct (gather_loop_report _ _ _ _ _ _ _ Hloop Hnd Hin Hpre)
    as (used & Hlook & Hown).
  apply returns_inr in Hret as [crash_details Hcd].
  rewrite (Hown _ Hcd) in Hlook. clear used Hown.
  pose proof (crash_details_dom golden crash_details Hcd) as Hdom.
  eexists. split; [exact Hlook|].
  assert (pairwise_disjoint
            (classify pre (nodeids_with PASS_OUTCOMES (get_tests golden))
               crash_details)) as Hdis.
  { apply classify_disjoint; [done|]. by rewrite Hdom. }
  destruct Hroot as [Hroot|Hrel].
  - by rewrite relocate_default.
  - apply relocate_disjoint; [|done].
    intros x Hx. apply classify_ids in Hx. rewrite Hdom in Hx.
    apply elem_of_union in Hx as [Hx|Hx];
      apply elem_of_nodeids_with in Hx as (t & Ht & <- & _); by apply Hrel.
Qed.

(** The two reports of the scenario list every node id once. *)
Lemma C4_scenario :
  exists out e,
    gather_results {["i" := RoundReport Samples.pre_round]}
      [("i", RoundReport Samples.post_round)] = inr out /\
    out !! "i" = Some (ClsEntry e) /\
    pairwise_disjoint e.
Proof.
  destruct (C4_disjoint_when_outcomes_unique
              {["i" := RoundReport Samples.pre_round]}
              [("i", RoundReport Samples.post_round)]
              "i" (RoundReport Samples.pre_round) Samples.post_round)
    as [Hret Hout].
  - repeat constructor; set_solver.
  - set_solver.
  - reflexivity.
  - exact I.
  - apply NoDup_single_class. vm_compute. repeat constructor; set_solver.
  - apply NoDup_single_class. vm_compute. repeat constructor; set_solver.
  - left. by left.
  - assert (returns (gather_results {["i" := RoundReport Samples.pre_round]}
                       [("i", RoundReport Samples.post_round)])) as Hr.
    { apply Hret. repeat constructor. }
    apply returns_inr in Hr as [out Hgather].
    destruct (Hout out Hgather) as (e & Hlook & Hdis). by exists out, e.
Defined.

End ProduceFacts.

(* ===================================================================== *)
(** * Properties of dictionaries *)
(* ===================================================================== *)

Module DictFacts.

Lemma dict_get_set {V} k k' (v : V) d :
  dict_get k (dict_set k' v d) = if String.eqb k k' then Some v else dict_get k d.
Proof.
  induction d as [|[k'' v''] d IH]; simpl; [done|].
  destruct (String.eqb_spec k' k'') as [->|Hne]; simpl.
  - by destruct (String.eqb k k'').
  - rewrite IH. destruct (String.eqb_spec k k'') as [->|Hne'].
    + by destruct (String.eqb_spec k'' k').
    + done.
Qed.

Lemma dict_get_None {V} k (d : dict V) : dict_get k d = None <-> k ∉ d.*1.
Proof.
  induction d as [|[k' v'] d IH]; simpl.
  - split; [intros _; apply not_elem_of_nil|done].
  - rewrite not_elem_of_cons. destruct (String.eqb_spec k k') as [->|Hne].
    + split; [done|]. by intros [? _].
    + rewrite IH. naive_solver.
Qed.

Lemma dict_get_Some_elem {V} k (v : V) d : dict_get k d = Some v -> (k, v) ∈ d.
Proof.
  induction d as [|[k' v'] d IH]; simpl; [done|].
  destruct (String.eqb_spec k k') as [->|Hne].
  - intros [= ->]. by left.
  - intros H. right. by apply IH.
Qed.

Lemma dict_get_elem {V} k (v : V) d : NoDup d.*1 -> (k, v) ∈ d -> dict_get k d = Some v.
Proof.
  induction d as [|[k' v'] d IH]; simpl; intros Hnd Hin.
  - by apply elem_of_nil in Hin.
  - apply NoDup_cons in Hnd as [Hfresh Hnd].
    apply elem_of_cons in Hin as [[= -> ->]|Hin].
    + by rewrite String.eqb_refl.
    + destruct (String.eqb_spec k k') as [->|Hne]; [|by apply IH].
      exfalso. apply Hfresh. apply list_elem_of_fmap. by exists (k', v).
Qed.

Lemma dict_get_is_Some {V} k (d : dict V) : is_Some (dict_get k d) <-> k ∈ d.*1.
Proof.
  rewrite <- not_eq_None_Some, dict_get_None.
  destruct (decide (k ∈ d.*1)); naive_solver.
Qed.

Lemma dict_set_keys {V} k' (v : V) d k :
  k ∈ (dict_set k' v d).*1 <-> k = k' \/ k ∈ d.*1.
Proof.
  rewrite <- !dict_get_is_Some, dict_get_set.
  destruct (String.eqb_spec k k') as [->|Hne]; [|naive_solver].
  split; [by left|]. by eexists.
Qed.

(** Assignments keep the keys of a dictionary distinct. *)
Lemma dict_set_NoDup {V} k (v : V) d : NoDup d.*1 -> NoDup (dict_set k v d).*1.
Proof.
  induction d as [|[k' v'] d IH]; simpl; intros Hnd.
  - apply NoDup_singleton.
  - apply NoDup_cons in Hnd as [Hfresh Hnd].
    destruct (String.eqb_spec k k') as [->|Hne]; simpl.
    + by apply NoDup_cons.
    + apply NoDup_cons. split; [|by apply IH].
      rewrite dict_set_keys. naive_solver.
Qed.

Lemma dict_update_NoDup {V} (l : list (string * V)) d :
  NoDup d.*1 -> NoDup (dict_update l d).*1.
Proof.
  unfold dict_update. revert d. induction l as [|[k v] l IH]; intros d Hnd; simpl; [done|].
  apply IH. by apply dict_set_NoDup.
Qed.

Lemma dict_get_app {V} k (d1 d2 : dict V) :
  dict_get k (d1 ++ d2)%list =
  match dict_get k d1 with Some v => Some v | None => dict_get k d2 end.
Proof.
  induction d1 as [|[k' v'] d1 IH]; simpl; [done|].
  by destruct (String.eqb k k').
Qed.

(** After a run of assignments a key holds the value of the last assignment
    to it, or what it held before. *)
Lemma dict_get_update {V} k (l : list (string * V)) d :
  dict_get k (dict_update l d) =
  match dict_get k (reverse l) with Some v => Some v | None => dict_get k d end.
Proof.
  unfold dict_update. revert d. induction l as [|[k' v'] l IH]; intros d; simpl; [done|].
  rewrite IH, reverse_cons, dict_get_app, dict_get_set. simpl.
  destruct (dict_get k (reverse l)); [done|]. by destruct (String.eqb k k').
Qed.

Lemma dict_update_keys {V} (l : list (string * V)) d k :
  k ∈ (dict_update l d).*1 <-> k ∈ l.*1 \/ k ∈ d.*1.
Proof.
  unfold dict_update. revert d. induction l as [|[k' v'] l IH]; intros d; simpl.
  - rewrite elem_of_nil. naive_solver.
  - rewrite IH, dict_set_keys, elem_of_cons. naive_solver.
Qed.

End DictFacts.

(* ===================================================================== *)
(** * Properties of dataset preparation *)
(* ===================================================================== *)

Module DatasetFacts.

Import DictFacts Dataset.

Lemma dict_set_fresh {V} k (v : V) d : k ∉ d.*1 -> dict_set k v d = (d ++ [(k, v)])%list.
Proof.
  induction d as [|[k' v'] d IH]; simpl; [done|].
  rewrite not_elem_of_cons. intros [Hne Hnin].
  destruct (String.eqb_spec k k'); [done|]. by rewrite IH.
Qed.

Lemma dict_update_fresh {V} (l : list (string * V)) d :
  NoDup l.*1 -> (forall k, k ∈ l.*1 -> k ∉ d.*1) -> dict_update l d = (d ++ l)%list.
Proof.
  unfold dict_update. revert d. induction l as [|[k v] l IH]; intros d Hnd Hfresh; simpl.
  - by rewrite app_nil_r.
  - simpl in Hnd. apply NoDup_cons in Hnd as [Hk Hnd].
    rewrite dict_set_fresh by (apply Hfresh; left).
    rewrite IH; [by rewrite <- app_assoc|done|].
    intros k' Hk'. rewrite fmap_app, elem_of_app. simpl.
    intros [Hin|Hin]; [by apply (Hfresh k'); [right|]|].
    apply list_elem_of_singleton in Hin as ->. done.
Qed.

(** A comprehension over pairs with distinct keys is the list of pairs. *)
Lemma dict_of_NoDup {V} (l : list (string * V)) : NoDup l.*1 -> dict_of l = l.
Proof.
  intros Hnd. unfold dict_of. rewrite dict_update_fresh; [done..|].
  intros k _. apply not_elem_of_nil.
Qed.

Lemma dict_get_entries {V W} (g : string -> V -> W) k (d : dict V) :
  dict_get k (map (fun '(k, x) => (k, g k x)) d) = g k <$> dict_get k d.
Proof.
  induction d as [|[k' v'] d IH]; simpl; [done|].
  destruct (String.eqb_spec k k') as [->|Hne]; done.
Qed.

Lemma entries_keys {V W} (g : string -> V -> W) (d : dict V) :
  (map (fun '(k, x) => (k, g k x)) d).*1 = d.*1.
Proof. induction d as [|[k' v'] d IH]; [done|]. cbn. f_equal. exact IH. Qed.

(** Looking a key up among pairs that all come from one function. *)
Lemma dict_get_graph {V} (h : string -> option V) k (l : list (string * V)) :
  (forall k' v, (k', v) ∈ l -> h k' = Some v) ->
  dict_get k l = if bool_decide (k ∈ l.*1) then h k else None.
Proof.
  intros Hh. destruct (dict_get k l) as [v|] eqn:Hget.
  - pose proof (dict_get_Some_elem _ _ _ Hget) as Hin.
    rewrite bool_decide_true; [by rewrite (Hh k v Hin)|].
    apply list_elem_of_fmap. by exists (k, v).
  - apply dict_get_None in Hget. by rewrite bool_decide_false.
Qed.

Lemma selection_elem {V} (dd : dict V) (ids : list string) k v :
  (k, v) ∈ omap (fun iid => pair iid <$> dict_get iid dd) ids <->
  k ∈ ids /\ dict_get k dd = Some v.
Proof.
  rewrite list_elem_of_omap. split.
  - intros (iid & Hin & H). destruct (dict_get iid dd) eqn:E; simplify_eq/=. done.
  - intros [Hin Hget]. exists k. by rewrite Hget.
Qed.

Lemma has_missing_id_spec {V} (ids : list string) (dd : dict V) :
  has_missing_id ids dd = true <-> exists iid, iid ∈ ids /\ iid ∉ dd.*1.
Proof.
  unfold has_missing_id. rewrite existsb_exists. split.
  - intros (iid & Hin & H). apply bool_decide_eq_true in H.
    exists iid. split; [by apply list_elem_of_In|by apply dict_get_None].
  - intros (iid & Hin & H). exists iid. split; [by apply list_elem_of_In|].
    apply bool_decide_eq_true. by apply dict_get_None.
Qed.

Lemma elem_of_raw_keys (raw_dataset : list raw) iid :
  iid ∈ (dict_of (map (fun data => (d_instance_id data, data)) raw_dataset)).*1 <->
  iid ∈ map d_instance_id raw_dataset.
Proof.
  unfold dict_of. rewrite dict_update_keys, elem_of_nil.
  change (map ?f ?l) with (f <$> l). rewrite <- list_fmap_compose.
  unfold compose. simpl. naive_solver.
Qed.

(** Preparation raises exactly when a requested id is not in the dataset. *)
Theorem prepare_raises_on_missing_ids (raw_dataset : list raw)
    (instance_ids : option (list string)) (predictions : list (string * string)) :
  raises (prepare_dataset_for_evaluation raw_dataset instance_ids predictions) <->
  exists ids iid, instance_ids = Some ids /\ iid ∈ ids /\
                  iid ∉ map d_instance_id raw_dataset.
Proof.
  unfold prepare_dataset_for_evaluation.
  set (dd := dict_of (map (fun data => (d_instance_id data, data)) raw_dataset)).
  destruct instance_ids as [[|id0 ids]|]; cbn [bind ret raises].
  - split; [done|]. intros (ids & iid & [= <-] & Hin & _). by apply elem_of_nil in Hin.
  - destruct (has_missing_id (id0 :: ids) dd) eqn:Hmiss; cbn [bind ret raise raises].
    + split; [intros _|done]. apply has_missing_id_spec in Hmiss as (iid & Hin & Hnin).
      exists (id0 :: ids), iid. split; [done|]. split; [done|].
      by rewrite <- elem_of_raw_keys.
    + split; [done|]. intros (ids' & iid & [= <-] & Hin & Hnin).
      assert (has_missing_id (id0 :: ids) dd = true) as H; [|congruence].
      apply has_missing_id_spec. exists iid. split; [done|].
      unfold dd. by rewrite elem_of_raw_keys.
  - split; [done|]. by intros (ids & iid & [=] & _).
Qed.

(** What preparation returns: the selected ids, each once, each with the
    entry built from the last raw record of that id, carrying the id as its
    [instance_id], the test patch first and the predicted patch (the last
    prediction for the id) or else the gold patch second. *)
Theorem prepare_returns_selected_entries (raw_dataset : list raw)
    (instance_ids : option (list string)) (predictions : list (string * string))
    (dataset : dict instance) :
  prepare_dataset_for_evaluation raw_dataset instance_ids predictions = inr dataset ->
  NoDup dataset.*1 /\
  map instance_id (values dataset) = dataset.*1 /\
  (forall iid, iid ∈ dataset.*1 <->
               iid ∈ map d_instance_id raw_dataset /\ selects instance_ids iid) /\
  (forall iid i, dict_get iid dataset = Some i ->
     exists data,
       dict_get iid (reverse (map (fun data => (d_instance_id data, data)) raw_dataset))
         = Some data /\
       instance_id i = iid /\
       repo i = d_repo data /\ base_commit i = d_base_commit data /\
       patches i = [d_test_patch data;
                    default (d_patch data) (dict_get iid (reverse predictions))] /\
       inst_tests i = (d_PASS_TO_PASS data ++ d_FAIL_TO_PASS data)%list /\
       spec_dict i = d_spec_dict data).
Proof.
  unfold prepare_dataset_for_evaluation.
  set (dd := dict_of (map (fun data => (d_instance_id data, data)) raw_dataset)).
  set (preds := dict_of predictions).
  assert (NoDup dd.*1) as Hdd by (apply dict_update_NoDup, NoDup_nil_2).
  assert (forall iid, dict_get iid dd =
            dict_get iid (reverse (map (fun data => (d_instance_id data, data)) raw_dataset)))
    as Hlast.
  { intros iid. unfold dd, dict_of. rewrite dict_get_update. simpl.
    by destruct (dict_get iid (reverse _)). }
  assert (forall iid, dict_get iid preds = dict_get iid (reverse predictions)) as Hpred.
  { intros iid. unfold preds, dict_of. rewrite dict_get_update. simpl.
    by destruct (dict_get iid (reverse _)). }
  assert (forall sel : dict raw,
            NoDup sel.*1 ->
            (forall iid, iid ∈ sel.*1 <->
                         iid ∈ map d_instance_id raw_dataset /\ selects instance_ids iid) ->
            (forall iid data, dict_get iid sel = Some data -> dict_get iid dd = Some data) ->
            dict_of (map (fun '(iid, data) => (iid, prepared preds iid data)) sel) = dataset ->
            NoDup dataset.*1 /\
            map instance_id (values dataset) = dataset.*1 /\
            (forall iid, iid ∈ dataset.*1 <->
                         iid ∈ map d_instance_id raw_dataset /\ selects instance_ids iid) /\
            (forall iid i, dict_get iid dataset = Some i ->
               exists data,
                 dict_get iid (reverse (map (fun data => (d_instance_id data, data))
                                            raw_dataset)) = Some data /\
                 instance_id i = iid /\
                 repo i = d_repo data /\ base_commit i = d_base_commit data /\
                 patches i = [d_test_patch data;
                              default (d_patch data) (dict_get iid (reverse predictions))] /\
                 inst_tests i = (d_PASS_TO_PASS data ++ d_FAIL_TO_PASS data)%list /\
                 spec_dict i = d_spec_dict data)) as Hmain.
  { intros sel Hnd Hkeys Hsub Hds.
    rewrite dict_of_NoDup in Hds by (by rewrite entries_keys). subst dataset.
    rewrite entries_keys. split; [done|]. split.
    { unfold values. clear. induction sel as [|[k x] sel IH]; simpl; [done|]. by rewrite IH. }
    split; [done|]. intros iid i Hget.
    rewrite (dict_get_entries (prepared preds)) in Hget.
    destruct (dict_get iid sel) as [data|] eqn:Hsel; [|done]. injection Hget as <-.
    exists data. split; [by rewrite <- Hlast; apply Hsub|].
    cbn [prepared instance_id repo base_commit patches inst_tests spec_dict].
    by rewrite Hpred. }
  destruct instance_ids as [[|id0 ids]|]; cbn [bind ret].
  - intros [= Hds]. apply (Hmain dd); try done.
    intros iid. unfold dd. rewrite elem_of_raw_keys. cbn. naive_solver.
  - destruct (has_missing_id (id0 :: ids) dd) eqn:Hmiss; [done|]. cbn [bind ret].
    intros [= Hds].
    assert (forall iid, iid ∈ id0 :: ids -> iid ∈ dd.*1) as Hall.
    { intros iid Hin. destruct (decide (iid ∈ dd.*1)) as [|Hnin]; [done|].
      assert (has_missing_id (id0 :: ids) dd = true) as H; [|congruence].
      apply has_missing_id_spec. by exists iid. }
    apply (Hmain (dict_of (omap (fun iid => pair iid <$> dict_get iid dd) (id0 :: ids))));
      [apply dict_update_NoDup, NoDup_nil_2| | |done].
    + intros iid. unfold dict_of at 1. rewrite dict_update_keys, elem_of_nil.
      cbn [selects]. rewrite <- (elem_of_raw_keys raw_dataset iid). fold dd. split.
      * intros [Hin|[]]. apply list_elem_of_fmap in Hin as ([k v] & -> & Hin).
        apply selection_elem in Hin as [Hin Hget]. split; [|done].
        apply dict_get_is_Some. by eexists.
      * intros [Hdd' Hin]. left. apply dict_get_is_Some in Hdd' as [data Hdata].
        apply list_elem_of_fmap. exists (iid, data). split; [done|].
        by apply selection_elem.
    + intros iid data Hget. apply dict_get_Some_elem in Hget.
      unfold dict_of in Hget.
      assert (forall l (d : dict raw) k v,
                (k, v) ∈ dict_update l d -> (k, v) ∈ l \/ (k, v) ∈ d) as Hsrc.
      { clear. unfold dict_update. induction l as [|[k' v'] l IH]; intros d k v; simpl; [by right|].
        intros H. apply IH in H as [H|H]; [left; by right|].
        clear IH. induction d as [|[k'' v''] d IHd]; simpl in H.
        - apply list_elem_of_singleton in H as [= -> ->]. left. by left.
        - destruct (String.eqb_spec k' k'') as [->|Hne].
          + apply elem_of_cons in H as [[= -> ->]|H]; [left; by left|right; by right].
          + apply elem_of_cons in H as [->|H]; [right; by left|].
            apply IHd in H as [H|H]; [by left|right; by right]. }
      apply Hsrc in Hget as [Hget|Hget]; [|by apply elem_of_nil in Hget].
      by apply selection_elem in Hget as [_ Hget].
  - intros [= Hds]. apply (Hmain dd); try done.
    intros iid. unfold dd. rewrite elem_of_raw_keys. cbn. naive_solver.
Qed.

(** The selection [["b"]] on the sample rows: one entry, built from the later
    record of [b] and carrying the predicted patch. *)
Lemma prepare_scenario :
  exists dataset,
    prepare_dataset_for_evaluation Samples.raw_rows (Some ["b"]) Samples.model_patches
      = inr dataset /\
    NoDup dataset.*1 /\
    map instance_id (values dataset) = ["b"] /\
    map patches (values dataset) = [["test patch of b"; "model patch for b"]].
Proof.
  eexists. split; [reflexivity|].
  split; [|split; reflexivity].
  refine (proj1 (prepare_returns_selected_entries Samples.raw_rows (Some ["b"])
                   Samples.model_patches _ _)).
  reflexivity.
Defined.

End DatasetFacts.

(* ===================================================================== *)
(** * More properties of the spec hasher *)
(* ===================================================================== *)

Module CanonicalFacts.

Import DictFacts.

(** ** The order on keys *)

Lemma ascii_compare_eq (x y : ascii) : Ascii.compare x y = Eq -> x = y.
Proof. apply Ascii.compare_eq_iff. Qed.

Lemma string_compare_trans_le (a b c : string) :
  String.compare a b <> Gt -> String.compare b c <> Gt -> String.compare a c <> Gt.
Proof.
  revert b c. induction a as [|x a IH]; intros [|y b] [|z c]; simpl; try done.
  unfold Ascii.compare.
  destruct (N.compare_spec (N_of_ascii x) (N_of_ascii y)) as [Exy|Lxy|Gxy];
    destruct (N.compare_spec (N_of_ascii y) (N_of_ascii z)) as [Eyz|Lyz|Gyz];
    destruct (N.compare_spec (N_of_ascii x) (N_of_ascii z)) as [Exz|Lxz|Gxz];
    try done; try lia.
  apply IH.
Qed.

Lemma leb_trans (a b c : string) :
  String.leb a b = true -> String.leb b c = true -> String.leb a c = true.
Proof.
  unfold String.leb. intros Hab Hbc.
  pose proof (string_compare_trans_le a b c) as H.
  destruct (String.compare a b), (String.compare b c), (String.compare a c);
    try done; exfalso; by apply H.
Qed.

(** ** Sorting the items *)

Lemma insert_item_Permutation {V} (kv : string * V) l : insert_item kv l ≡ₚ kv :: l.
Proof.
  induction l as [|kv' l IH]; simpl; [done|].
  destruct (String.leb kv.1 kv'.1); [done|]. rewrite IH. constructor.
Qed.

Lemma sorted_items_Permutation {V} (l : list (string * V)) : sorted_items l ≡ₚ l.
Proof.
  induction l as [|kv l IH]; simpl; [done|].
  unfold sorted_items in *. simpl. by rewrite insert_item_Permutation, IH.
Qed.

Lemma insert_item_sorted {V} (kv : string * V) l :
  StronglySorted key_le l -> StronglySorted key_le (insert_item kv l).
Proof.
  induction 1 as [|kv' l Hl IH Hall]; simpl.
  - by repeat constructor.
  - destruct (String.leb kv.1 kv'.1) eqn:Hle.
    + constructor; [by constructor|]. constructor; [done|].
      eapply Forall_impl; [exact Hall|]. intros kv'' H. by eapply leb_trans.
    + constructor; [done|]. rewrite insert_item_Permutation.
      constructor; [|done]. unfold key_le.
      destruct (String.leb_total kv.1 kv'.1); [congruence|done].
Qed.

Lemma sorted_items_sorted {V} (l : list (string * V)) :
  StronglySorted key_le (sorted_items l).
Proof.
  induction l as [|kv l IH]; [constructor|]. by apply insert_item_sorted.
Qed.

(** Sorting forgets the order in which a dictionary lists its items. *)
Lemma sorted_items_Permutation_eq {V} (l l' : list (string * V)) :
  NoDup l.*1 -> l ≡ₚ l' -> sorted_items l = sorted_items l'.
Proof.
  intros Hnd Hperm.
  apply (StronglySorted_unique_strong key_le);
    [|apply sorted_items_sorted..|by rewrite !sorted_items_Permutation].
  intros [k v] [k' v'] Hin Hin' Hle Hle'.
  rewrite sorted_items_Permutation in Hin.
  rewrite sorted_items_Permutation, <- Hperm in Hin'.
  unfold key_le in *. simpl in *.
  assert (k = k') as <-.
  { apply String.leb_antisym; done. }
  f_equal. apply (dict_get_elem _ _ _ Hnd) in Hin, Hin'. congruence.
Qed.

Lemma values_Permutation {V W} (f : V -> W) (l l' : list (string * V)) :
  l ≡ₚ l' ->
  map (fun '(k, v) => (k, f v)) l ≡ₚ map (fun '(k, v) => (k, f v)) l'.
Proof. intros H. by apply Permutation_map. Qed.

Lemma values_keys {V W} (f : V -> W) (l : list (string * V)) :
  (map (fun '(k, v) => (k, f v)) l).*1 = l.*1.
Proof. induction l as [|[k v] l IH]; [done|]. cbn. f_equal. exact IH. Qed.

(** ** Key order *)

(** The canonical tuple of a dictionary does not depend on the order of its
    items. *)
Lemma make_hashable_Permutation (kvs kvs' : list (string * pyval)) :
  NoDup kvs.*1 -> kvs ≡ₚ kvs' ->
  make_hashable (PDict kvs) = make_hashable (PDict kvs').
Proof.
  intros Hnd Hperm. cbn [make_hashable]. do 2 f_equal.
  apply sorted_items_Permutation_eq; [by rewrite values_keys|].
  by apply values_Permutation.
Qed.

Lemma filter_Permutation {A} (f : A -> bool) (l l' : list A) :
  l ≡ₚ l' -> List.filter f l ≡ₚ List.filter f l'.
Proof.
  induction 1 as [|x l l' H IH|x y l|l l' l'' H IH H' IH']; simpl.
  - done.
  - destruct (f x); [by apply perm_skip|done].
  - destruct (f x), (f y); try done. apply perm_swap.
  - by etrans.
Qed.

Lemma filter_keys_NoDup {V} (f : string * V -> bool) (d : dict V) :
  NoDup d.*1 -> NoDup (List.filter f d).*1.
Proof.
  induction d as [|[k v] d IH]; simpl; [done|].
  intros Hnd. apply NoDup_cons in Hnd as [Hk Hnd].
  destruct (f (k, v)); simpl; [|by apply IH].
  apply NoDup_cons. split; [|by apply IH].
  intros Hin. apply Hk. apply list_elem_of_fmap in Hin as ([k' v'] & -> & Hin).
  apply list_elem_of_In, filter_In in Hin as [Hin _].
  apply list_elem_of_fmap. exists (k', v'). split; [done|]. by apply list_elem_of_In.
Qed.

(** Two spec dictionaries that list the same items in a different order have
    the same hash and the same image name. *)
Theorem consistent_hash_ignores_key_order
    (lib : hash_lib) (repo : string) (d d' : dict pyval) :
  NoDup d.*1 -> d ≡ₚ d' ->
  consistent_hash lib d = consistent_hash lib d' /\
  get_image_name lib repo d = get_image_name lib repo d'.
Proof.
  intros Hnd Hperm.
  assert (consistent_hash lib d = consistent_hash lib d') as H.
  { unfold consistent_hash. cbn zeta.
    rewrite (make_hashable_Permutation (hashed_fields d) (hashed_fields d')); [done| |].
    all: unfold hashed_fields.
    1: by apply filter_keys_NoDup.
    by apply filter_Permutation. }
  split; [done|]. unfold get_image_name. by rewrite H.
Qed.

(** The sample spec and its reordering have one digest and one image name. *)
Lemma key_order_scenario :
  Samples.small_spec ≡ₚ Samples.small_spec_reordered /\
  consistent_hash Samples.plain_lib Samples.small_spec
    = consistent_hash Samples.plain_lib Samples.small_spec_reordered /\
  get_image_name Samples.plain_lib "encode/httpx" Samples.small_spec
    = get_image_name Samples.plain_lib "encode/httpx" Samples.small_spec_reordered.
Proof.
  assert (Samples.small_spec ≡ₚ Samples.small_spec_reordered) as Hperm.
  { unfold Samples.small_spec, Samples.small_spec_reordered.
    etrans; [apply perm_skip, perm_swap|]. apply perm_swap. }
  split; [exact Hperm|].
  apply (consistent_hash_ignores_key_order Samples.plain_lib "encode/httpx"
           Samples.small_spec Samples.small_spec_reordered); [|exact Hperm].
  unfold Samples.small_spec. cbn [fmap list_fmap fst].
  repeat (apply NoDup_cons; split; [rewrite ?elem_of_cons, elem_of_nil; intros H; intuition discriminate|]).
  apply NoDup_nil_2.
Defined.

End CanonicalFacts.

(* ===================================================================== *)
(** * Properties of substring tests *)
(* ===================================================================== *)

Module StringFacts.

Lemma append_nil_l (s : string) : "" ++ s = s.
Proof. reflexivity. Qed.

Lemma append_cons (a : ascii) (s t : string) : String a s ++ t = String a (s ++ t).
Proof. reflexivity. Qed.

Lemma prefix_spec (p s : string) : String.prefix p s = true <-> exists t, s = p ++ t.
Proof.
  revert p. induction s as [|b s IH]; intros [|a p].
  - split; [intros _; by exists ""|done].
  - split; [done|]. by intros (t & [=]).
  - split; [intros _; by exists (String b s)|done].
  - cbn [String.prefix]. destruct (ascii_dec a b) as [->|Hne].
    + rewrite IH. split; intros (t & Ht); exists t.
      * by rewrite append_cons, <- Ht.
      * rewrite append_cons in Ht. by simplify_eq.
    + split; [done|]. intros (t & Ht). rewrite append_cons in Ht. congruence.
Qed.

(** [sub in s] holds exactly when [s] is [a ++ sub ++ b] for some [a], [b]. *)
Lemma contains_spec (sub s : string) :
  contains sub s = true <-> exists a b, s = a ++ sub ++ b.
Proof.
  induction s as [|c s IH]; cbn [contains].
  - destruct (String.prefix sub "") eqn:Hp.
    + split; [intros _|done]. apply prefix_spec in Hp as (t & Ht). by exists "", t.
    + split; [done|]. intros (a & b & Hab).
      destruct a as [|? a]; [|by rewrite append_cons in Hab].
      rewrite append_nil_l in Hab.
      assert (String.prefix sub "" = true) as H; [|congruence].
      apply prefix_spec. by exists b.
  - destruct (String.prefix sub (String c s)) eqn:Hp.
    + split; [intros _|done]. apply prefix_spec in Hp as (t & Ht). by exists "", t.
    + rewrite IH. split.
      * intros (a & b & ->). by exists (String c a), b.
      * intros (a & b & Hab). destruct a as [|c' a].
        -- rewrite append_nil_l in Hab.
           assert (String.prefix sub (String c s) = true) as H; [|congruence].
           apply prefix_spec. by exists b.
        -- rewrite append_cons in Hab. simplify_eq. by exists a, b.
Qed.

End StringFacts.

(* ===================================================================== *)
(** * Properties of the local image lookup *)
(* ===================================================================== *)

Module DockerUtilsFacts.

Import StringFacts DockerUtils.

Lemma find_tag_find image_name tags :
  find_tag image_name tags = head (filter (fun tag => contains image_name tag = true) tags).
Proof.
  induction tags as [|tag tags IH]; simpl; [done|].
  rewrite filter_cons. destruct (contains image_name tag) eqn:Hc.
  - by rewrite decide_True.
  - by rewrite decide_False.
Qed.

Lemma find_image_find image_name existing :
  find_image image_name existing
  = head (filter (fun tag => contains image_name tag = true) (List.concat existing)).
Proof.
  induction existing as [|tags rest IH]; simpl; [done|].
  rewrite filter_app, find_tag_find.
  destruct (filter _ tags) as [|t ts]; simpl; [done|done].
Qed.

Lemma existing_images_concat images :
  List.concat (existing_images images) = all_tags images.
Proof.
  unfold existing_images, all_tags.
  induction images as [|img images IH]; [done|].
  cbn [omap list_omap map List.concat]. rewrite <- IH.
  by destruct img as [[|tag tags]|].
Qed.

Lemma head_filter_Some {A} (P : A -> Prop) `{forall x, Decision (P x)} (l : list A) x :
  head (filter P l) = Some x <->
  exists earlier later, l = (earlier ++ x :: later)%list /\ P x /\ Forall (fun y => ~ P y) earlier.
Proof.
  induction l as [|y l IH]; simpl.
  - split; [done|]. intros (e & la & He & _). by destruct e.
  - rewrite filter_cons. destruct (decide (P y)) as [Hy|Hy]; simpl.
    + split.
      * intros [= ->]. exists [], l. by split; [|split; [|constructor]].
      * intros (e & la & He & Hx & Hall). destruct e as [|z e]; simpl in He.
        -- by simplify_eq.
        -- simplify_eq. by apply Forall_cons in Hall as [Hz _].
    + rewrite IH. split.
      * intros (e & la & -> & Hx & Hall). exists (y :: e), la.
        split; [done|]. split; [done|]. by constructor.
      * intros (e & la & He & Hx & Hall). destruct e as [|z e]; simpl in He.
        -- by simplify_eq.
        -- simplify_eq. apply Forall_cons in Hall as [_ Hall]. by exists e, la.
Qed.

Lemma head_filter_None {A} (P : A -> Prop) `{forall x, Decision (P x)} (l : list A) :
  head (filter P l) = None <-> Forall (fun y => ~ P y) l.
Proof.
  induction l as [|y l IH]; simpl; [by split; [constructor|]|].
  rewrite filter_cons. destruct (decide (P y)) as [Hy|Hy]; simpl.
  - split; [done|]. intros [? _]%Forall_cons. done.
  - rewrite IH. split; [by constructor|]. by intros [_ ?]%Forall_cons.
Qed.

(** The lookup returns the first tag of the listing, in listing order, that
    has the image name as a substring: images without tags are passed over,
    and the tag need not be the image name itself. It returns nothing
    exactly when no tag has the name as a substring. *)
Theorem get_from_existing_image_first_match
    (images : list (option (list string))) (image_name : string) :
  (forall tag,
     get_from_existing_image images image_name = Some tag <->
     exists earlier later,
       all_tags images = (earlier ++ tag :: later)%list /\
       (exists a b, tag = a ++ image_name ++ b) /\
       Forall (fun t => ~ exists a b, t = a ++ image_name ++ b) earlier) /\
  (get_from_existing_image images image_name = None <->
   Forall (fun t => ~ exists a b, t = a ++ image_name ++ b) (all_tags images)).
Proof.
  unfold get_from_existing_image.
  rewrite find_image_find, existing_images_concat.
  assert (forall l : list string,
            Forall (fun y => ~ contains image_name y = true) l <->
            Forall (fun t => ~ exists a b, t = a ++ image_name ++ b) l) as Hfa.
  { intros l. apply Forall_proper; [|done]. intros t. by rewrite contains_spec. }
  split.
  - intros tag. rewrite head_filter_Some.
    split; intros (e & la & He & Hx & Hall); exists e, la; (split; [done|]).
    + split; [by apply contains_spec|by apply Hfa].
    + split; [by apply contains_spec|by apply Hfa].
  - by rewrite head_filter_None, Hfa.
Qed.

End DockerUtilsFacts.

(* ===================================================================== *)
(** * More properties of the image builder *)
(* ===================================================================== *)

Module BuilderFacts.

Import StringFacts BuildAll.

(** ** The Dockerfile *)

Lemma prepare_pre_install_again pre_install σ σ' r :
  prepare_pre_install pre_install σ = (σ', r) ->
  prepare_pre_install pre_install σ' = (σ', r).
Proof.
  unfold prepare_pre_install.
  destruct pre_install as [| | | | |l]; try by intros [= <- <-].
  destruct (σ !! l) as [[[|x xs]|kvs]|] eqn:Hl; try by intros [= <- <-]; rewrite Hl.
  destruct (bool_decide (VStr "apt-get update" ∈ x :: xs)) eqn:Hin.
  - intros [= <- <-]. by rewrite Hl, Hin.
  - intros [= <- <-]. rewrite lookup_insert_eq.
    rewrite bool_decide_true by (apply elem_of_cons; by left).
    done.
Qed.

(** Formatting is repeatable: a second call on the store that the first call
    left behind changes nothing more and returns what the first call
    returned. The insertion of ["apt-get update"] happens at most once per
    list. *)
Theorem format_dockerfile_repeatable (tpl : templates)
    (repo_path python_version : string) (pip_packages : list string)
    (packages : option string) (pre_install : value) (green_zone : bool)
    (σ σ' : store) (r : res (option string)) :
  format_dockerfile tpl repo_path python_version pip_packages packages pre_install
    green_zone σ = (σ', r) ->
  format_dockerfile tpl repo_path python_version pip_packages packages pre_install
    green_zone σ' = (σ', r).
Proof.
  unfold format_dockerfile.
  destruct (prepare_pre_install pre_install σ) as [σ1 r1] eqn:Hprep.
  intros H.
  assert (σ1 = σ') as ->.
  { destruct r1 as [e|pre]; [by simplify_eq|].
    cbn zeta in H. by destruct (DOCKER_FILE_R2E_format tpl _); simplify_eq. }
  by rewrite (prepare_pre_install_again _ _ _ _ Hprep).
Qed.

Lemma slice_python (v : string) : startswith "python" v = true -> slice_to 6 v = "python".
Proof.
  unfold startswith. intros (t & ->)%prefix_spec. by destruct t.
Qed.

(** Every version string that starts with ["python"] is cut to the bare word
    ["python"]: two such versions give the same Dockerfile text and the same
    store. *)
Theorem format_dockerfile_python_prefix (tpl : templates)
    (repo_path v1 v2 : string) (pip_packages : list string)
    (packages : option string) (pre_install : value) (green_zone : bool) (σ : store) :
  startswith "python" v1 = true -> startswith "python" v2 = true ->
  format_dockerfile tpl repo_path v1 pip_packages packages pre_install green_zone σ
  = format_dockerfile tpl repo_path v2 pip_packages packages pre_install green_zone σ.
Proof.
  intros H1 H2. unfold format_dockerfile.
  by rewrite H1, H2, (slice_python _ H1), (slice_python _ H2).
Qed.

(** ** Requests that do not reach the build *)

Lemma spec_json_fields σ spec_dict json :
  spec_json σ spec_dict = inr json -> exists fields, spec_fields σ spec_dict = inr fields.
Proof.
  unfold spec_json, spec_fields. cbn [reify].
  destruct spec_dict as [| | | | |l]; try done.
  destruct (σ !! l) as [[xs|kvs]|]; [|by eexists|done].
  by destruct (mapM _ xs).
Qed.

(** An image found locally is returned under the requested name after a
    single cache check: nothing is cloned, written, built or pushed, and the
    store and the failed set stay as they were. *)
Theorem cached_image_is_not_rebuilt (lib : hash_lib) (tpl : templates) (d : docker)
    (repo_name : string) (spec_dict : value) (green_zone : bool)
    (registry_config : option registry) (w : world) (json : dict pyval)
    (tag : string) :
  spec_json (heap w) spec_dict = inr json ->
  let image_name := get_image_name lib repo_name json in
  image_name ∉ failed_images w ->
  get_from_existing_image d image_name = Some tag ->
  exists w',
    build_docker_image_from_specs lib tpl d repo_name spec_dict false green_zone
      registry_config w = (w', ret (ImageName image_name)) /\
    trace w' = (trace w ++ [EvAcquire image_name; EvCacheCheck image_name;
                            EvRelease image_name])%list /\
    heap w' = heap w /\ failed_images w' = failed_images w.
Proof.
  intros Hjson image_name Hnot Hfound.
  destruct (spec_json_fields _ _ _ Hjson) as (fields & Hfields).
  unfold build_docker_image_from_specs. rewrite Hjson. cbn zeta.
  fold image_name. cbn [heap emit touch_lock]. rewrite Hfields.
  unfold build_locked. cbn [failed_images emit touch_lock].
  rewrite bool_decide_false by done. rewrite Hfound.
  eexists. split; [reflexivity|]. cbn [trace heap failed_images emit].
  by rewrite <- !app_assoc.
Qed.

(** Without a forced rebuild, for a spec that serialises and an image that is
    not in the failed set: with pulling switched on and no local image, the
    call hands back the coroutine of the pull, which it never awaits: no image
    is pulled, cloned or built, and the store and the failed set stay as they
    were. *)
Theorem pull_returns_unawaited_coroutine (lib : hash_lib) (tpl : templates)
    (d : docker) (repo_name : string) (spec_dict : value) (green_zone : bool)
    (cfg : registry) (w : world) (json : dict pyval) :
  spec_json (heap w) spec_dict = inr json ->
  let image_name := get_image_name lib repo_name json in
  image_name ∉ failed_images w ->
  get_from_existing_image d image_name = None ->
  pull_from_registry cfg = true ->
  exists w',
    build_docker_image_from_specs lib tpl d repo_name spec_dict false green_zone
      (Some cfg) w = (w', ret (PullCoroutine image_name)) /\
    trace w' = (trace w ++ [EvAcquire image_name; EvCacheCheck image_name;
                            EvPullCoroutine image_name; EvRelease image_name])%list /\
    heap w' = heap w /\ failed_images w' = failed_images w.
Proof.
  intros Hjson image_name Hnot Hnone Hpull.
  destruct (spec_json_fields _ _ _ Hjson) as (fields & Hfields).
  unfold build_docker_image_from_specs. rewrite Hjson. cbn zeta.
  fold image_name. cbn [heap emit touch_lock]. rewrite Hfields.
  unfold build_locked. cbn [failed_images emit touch_lock].
  rewrite bool_decide_false by done. rewrite Hnone, Hpull.
  eexists. split; [reflexivity|]. cbn [trace heap failed_images emit].
  by rewrite <- !app_assoc.
Qed.

(** ** Building a data file *)

(** The loop over a data file stops at the first record that raises: what
    follows that record changes neither the outcome nor the state, so no
    later record is built. *)
Theorem build_all_images_stops_at_first_failure (lib : hash_lib) (tpl : templates)
    (d : docker) (cfg : registry) (data rest : list (dict value))
    (force_build green_zone : bool) (w : world) :
  raises (build_all_images lib tpl d cfg data force_build green_zone w).2 ->
  build_all_images lib tpl d cfg (data ++ rest) force_build green_zone w
  = build_all_images lib tpl d cfg data force_build green_zone w.
Proof.
  revert w. induction data as [|instance data IH]; intros w; [done|].
  cbn [build_all_images app].
  destruct (getitem "repo" instance) as [e|repo]; [done|].
  destruct (getitem "spec_dict" instance) as [e|spec]; [done|].
  destruct repo; try done.
  destruct (build_docker_image_from_specs _ _ _ _ _ _ _ _ _) as [w1 [e|b]]; [done|].
  apply IH.
Qed.

End BuilderFacts.

(* ===================================================================== *)
(** * Properties of the test command *)
(* ===================================================================== *)

Module EvalScriptFacts.

Import StringFacts EvalScript.

Lemma append_assoc (a b c : string) : (a ++ b) ++ c = a ++ (b ++ c).
Proof.
  induction a as [|x a IH]; [done|]. by rewrite !append_cons, IH.
Qed.

Lemma contains_app_l sub a b : contains sub a = true -> contains sub (a ++ b) = true.
Proof.
  rewrite !contains_spec. intros (x & y & ->). exists x, (y ++ b).
  by rewrite !append_assoc.
Qed.

Lemma contains_app_r sub a b : contains sub b = true -> contains sub (a ++ b) = true.
Proof.
  rewrite !contains_spec. intros (x & y & ->). exists (a ++ x), y.
  by rewrite !append_assoc.
Qed.

(** With at least one test, the command asks for the JSON report, carries
    the timeout, ends with the quoted test ids and, under [failfast], holds
    one of the two spellings of the exit-first flag. *)
Theorem eval_test_cmd_flags (shlex_quote : string -> string) (tests : list string)
    (test_cmd : string) (timeout : Z) (failfast : bool) :
  tests <> [] ->
  let cmd := eval_test_cmd shlex_quote tests test_cmd timeout failfast in
  contains "json-report" cmd = true /\
  (failfast = true ->
   contains "-x " cmd = true \/ contains "--exitfirst" cmd = true) /\
  exists head,
    cmd = head ++ (" --timeout " ++ pretty timeout ++ " ")
            ++ join " " (map shlex_quote tests).
Proof.
  intros Hne cmd. subst cmd. unfold eval_test_cmd.
  destruct tests as [|t tests]; [done|]. cbn zeta.
  set (c1 := if failfast && negb (contains "-x " test_cmd)
                && negb (contains "--exitfirst" test_cmd)
             then test_cmd ++ " --exitfirst" else test_cmd).
  set (c2 := if contains "json-report" c1 then c1
             else c1 ++ " " ++ JSON_REPORT_FLAGS).
  assert (forall sub, contains sub c1 = true -> contains sub c2 = true) as H12.
  { intros sub Hsub. unfold c2. destruct (contains "json-report" c1); [done|].
    by apply contains_app_l. }
  split; [|split].
  - apply contains_app_l. unfold c2.
    destruct (contains "json-report" c1) eqn:Hj; [done|].
    by do 2 apply contains_app_r.
  - intros ->. unfold c1. cbn [andb].
    destruct (contains "-x " test_cmd) eqn:Hx; cbn [negb andb].
    { left. by apply contains_app_l, H12. }
    destruct (contains "--exitfirst" test_cmd) eqn:He; cbn [negb andb].
    { right. by apply contains_app_l, H12. }
    right. apply contains_app_l, H12. by apply contains_app_r.
  - by exists c2.
Qed.

End EvalScriptFacts.

(* ===================================================================== *)
(** * Properties of streaming mode and of the evaluation report *)
(* ===================================================================== *)

Module EvaluateReportFacts.

Import EvaluateFacts EvaluateReport.

(** ** Recording results *)

Lemma foldl_record_perm p l l' (results : gmap string eval_result) :
  l ≡ₚ l' -> NoDup (map instance_id l) ->
  foldl (record_result p) results l = foldl (record_result p) results l'.
Proof.
  intros Hperm. revert results.
  induction Hperm as [|x l l' Hperm IH|x y l|l l' l'' H1 IH1 H2 IH2];
    intros results Hnd.
  - done.
  - cbn [foldl]. apply IH. cbn [map] in Hnd. by apply NoDup_cons in Hnd as [_ ?].
  - cbn [foldl]. f_equal. unfold record_result.
    cbn [map] in Hnd. apply NoDup_cons in Hnd as [Hy _].
    apply insert_insert_ne. intros E. apply Hy. rewrite E. by left.
  - rewrite IH1 by done. apply IH2.
    change (map ?f ?l) with (f <$> l) in *. by rewrite <- H1.
Qed.

Lemma drain_fold p batch results :
  fair p -> NoDup (map instance_id batch) ->
  drain p batch results = foldl (record_result p) results batch.
Proof.
  intros Hfair Hnd. unfold drain. apply foldl_record_perm; [apply Hfair|].
  change (map ?f ?l) with (f <$> l) in *. by rewrite (Hfair batch).
Qed.

Lemma ids_inj (l : list instance) i i' :
  NoDup (map instance_id l) -> i ∈ l -> i' ∈ l -> instance_id i' = instance_id i ->
  i' = i.
Proof.
  induction l as [|x l IH]; intros Hnd Hi Hi' Hid; [by apply elem_of_nil in Hi|].
  cbn [map] in Hnd. apply NoDup_cons in Hnd as [Hx Hnd].
  apply elem_of_cons in Hi as [->|Hi]; apply elem_of_cons in Hi' as [->|Hi'].
  - done.
  - exfalso. apply Hx. rewrite <- Hid. by apply (list_elem_of_fmap_2 instance_id).
  - exfalso. apply Hx. rewrite Hid. by apply (list_elem_of_fmap_2 instance_id).
  - by apply IH.
Qed.

Lemma foldl_record_lookup p l results i :
  NoDup (map instance_id l) -> i ∈ l ->
  foldl (record_result p) results l !! instance_id i = Some (result_of p i).
Proof.
  intros Hnd Hi.
  destruct (recorded_lookup p l results (instance_id i))
    as [(i' & Hi' & Hid & Hl)|[Hno _]].
  - by rewrite (ids_inj l i i' Hnd Hi Hi' Hid) in Hl.
  - by destruct (Hno i Hi).
Qed.

Lemma foldl_record_dom p l (results : gmap string eval_result) :
  dom (foldl (record_result p) results l)
  = dom results ∪ list_to_set (map instance_id l).
Proof.
  revert results. induction l as [|x l IH]; intros results; cbn [foldl map].
  - set_solver.
  - rewrite IH. unfold record_result. rewrite dom_insert_L. set_solver.
Qed.


(** ** Batch mode against streaming mode *)

Lemma all_errors_false results ids iid r :
  (forall iid', iid' ∈ ids -> is_Some (results !! iid')) ->
  iid ∈ ids -> results !! iid = Some r -> has_error r = false ->
  all_errors results ids = inr false.
Proof.
  induction ids as [|x ids IH]; intros Hall Hin Hr Herr; [by apply elem_of_nil in Hin|].
  cbn [all_errors]. destruct (Hall x) as [rx Hx]; [by left|]. rewrite Hx.
  destruct (has_error rx) eqn:Hex; [|done].
  apply elem_of_cons in Hin as [->|Hin]; [congruence|].
  apply IH; [|done..]. intros iid' Hin'. apply Hall. by right.
Qed.

Lemma slice_ids_NoDup (l : list instance) i n :
  NoDup (map instance_id l) -> NoDup (map instance_id (slice l i n)).
Proof.
  intros Hnd. unfold slice. change (map ?f ?l) with (f <$> l) in *.
  rewrite fmap_take, fmap_drop.
  eapply sublist_NoDup; [exact Hnd|].
  etrans; [apply sublist_take|apply sublist_drop].
Qed.

Lemma batch_loop_runs_through p ds n starts st :
  fair p -> NoDup (map instance_id ds) ->
  Forall (fun i => Exists (fun x => returns (attempt p x)) (slice ds i n)) starts ->
  batch_loop p ds n starts st
  = inr {| results := foldl (record_result p) (results st)
                        (List.concat (map (fun i => slice ds i n) starts));
           submitted := (submitted st ++ map (fun i => slice ds i n) starts)%list |}.
Proof.
  intros Hfair Hnd. revert st.
  induction starts as [|i starts IH]; intros st Hall; cbn [batch_loop map List.concat].
  - cbn [foldl]. rewrite app_nil_r. by destruct st.
  - apply Forall_cons in Hall as [Hi Hall]. cbn zeta. cbn [results submitted].
    pose proof (slice_ids_NoDup ds i n Hnd) as Hc.
    rewrite drain_fold by done.
    apply Exists_exists in Hi as (x & Hx & Hret).
    rewrite (all_errors_false _ _ (instance_id x) (result_of p x)); cycle 1.
    + intros iid Hin. apply list_elem_of_fmap in Hin as (y & -> & Hy).
      rewrite foldl_record_lookup by done. eauto.
    + by apply (list_elem_of_fmap_2 instance_id).
    + by apply foldl_record_lookup.
    + unfold result_of. by destruct (attempt p x) as [e|[m|r]].
    + cbn [bind]. rewrite IH by done. cbn [results submitted].
      by rewrite foldl_app, <- app_assoc.
Qed.

(** When no chunk fails as a whole, batch mode submits every chunk and ends
    with the very results of streaming mode. *)
Theorem batch_agrees_with_stream (p : pool) (instance_datas : list instance)
    (max_workers : nat) :
  fair p -> (0 < max_workers)%nat -> NoDup (map instance_id instance_datas) ->
  Forall (Exists (fun i => returns (attempt p i))) (chunks instance_datas max_workers) ->
  exists st,
    evaluate_batch p instance_datas max_workers = inr st /\
    submitted st = chunks instance_datas max_workers /\
    evaluate_stream p instance_datas max_workers = Some (results st).
Proof.
  intros Hfair Hn Hnd Hall. unfold evaluate_batch, evaluate_stream.
  destruct max_workers as [|n]; [lia|].
  assert (Forall (fun i => Exists (fun x => returns (attempt p x))
                              (slice instance_datas i (S n)))
            (range_step (List.length instance_datas) (S n))) as Hstarts.
  { apply Forall_forall. intros i Hi. rewrite Forall_forall in Hall.
    apply Hall. unfold chunks.
    by apply (list_elem_of_fmap_2 (fun i => slice instance_datas i (S n))). }
  rewrite (batch_loop_runs_through p instance_datas (S n)) by done.
  eexists. split; [reflexivity|]. cbn [results submitted app].
  split; [done|].
  fold (chunks instance_datas (S n)). rewrite chunks_concat by lia.
  by rewrite drain_fold.
Qed.

(** ** The evaluation report *)

Lemma report_loop items out0 out :
  for_each report_step items out0 = inr out ->
  total out = total out0 /\
  resolved out = (resolved out0 + List.length (ids_where is_resolved items))%nat /\
  unresolved out = (unresolved out0 + List.length (ids_where is_unresolved items))%nat /\
  errors out = (errors out0 + List.length (ids_where has_error items))%nat /\
  resolved_instances out = (resolved_instances out0 ++ ids_where is_resolved items)%list /\
  unresolved_instances out
    = (unresolved_instances out0 ++ ids_where is_unresolved items)%list /\
  errors_instances out = (errors_instances out0 ++ ids_where has_error items)%list /\
  Forall (fun kv => match kv.2 with EvalFull _ => False | _ => True end) items.
Proof.
  revert out0. induction items as [|[iid r] items IH]; intros out0; cbn [for_each].
  - intros [= <-]. unfold ids_where. cbn. rewrite !app_nil_r.
    repeat split; try lia. constructor.
  - unfold ids_where in *. cbn [List.filter snd fst].
    destruct r as [err tb|tests|rep]; cbn [report_step bind ret raise];
      [|destruct (all_codes tests) eqn:Hall|done].
    all: intros Hloop; apply IH in Hloop as (Ht & Hr & Hu & He & Hri & Hui & Hei & Hfa).
    all: cbn [total resolved unresolved errors resolved_instances
              unresolved_instances errors_instances] in *.
    all: cbn [is_resolved is_unresolved has_error negb].
    all: rewrite ?Hall; cbn [negb fmap list_fmap fst List.length].
    all: rewrite Ht, Hr, Hu, He, Hri, Hui, Hei, <- ?app_assoc.
    all: repeat split; try done; try lia.
    all: by constructor.
Qed.

Lemma elem_of_bool_filter {A} (f : A -> bool) (l : list A) x :
  x ∈ List.filter f l <-> x ∈ l /\ f x = true.
Proof. rewrite !list_elem_of_In. apply filter_In. Qed.

Lemma classes_partition items :
  Forall (fun kv => match kv.2 with EvalFull _ => False | _ => True end) items ->
  (ids_where is_resolved items ++ ids_where is_unresolved items
     ++ ids_where has_error items)%list ≡ₚ items.*1.
Proof.
  unfold ids_where.
  induction items as [|[iid r] items IH]; intros Hfa; [done|].
  apply Forall_cons in Hfa as [Hr Hfa]. specialize (IH Hfa).
  cbn [List.filter snd fst fmap list_fmap].
  destruct r as [err tb|tests|rep]; cbn [is_resolved is_unresolved has_error];
    [|destruct (all_codes tests)|done]; cbn [negb fmap list_fmap fst].
  - rewrite app_assoc, <- Permutation_middle, <- app_assoc. by rewrite IH.
  - cbn [app]. by rewrite IH.
  - cbn [app]. rewrite <- Permutation_middle. by rewrite IH.
Qed.

(** The report counts every instance once: the three counters are the
    lengths of the three id collections and add up to the total, the
    collections together hold the ids of the results, and an instance is
    resolved exactly when its test map holds no failed code, so also when
    the map is empty. *)
Theorem compose_report_partitions (items : list (string * eval_result))
    (out : json_output) :
  compose_report items = inr out ->
  total out = List.length items /\
  (resolved out + unresolved out + errors out = total out)%nat /\
  resolved out = List.length (resolved_instances out) /\
  unresolved out = List.length (unresolved_instances out) /\
  errors out = List.length (errors_instances out) /\
  (resolved_instances out ++ unresolved_instances out ++ errors_instances out)%list
    ≡ₚ items.*1 /\
  (forall iid, iid ∈ resolved_instances out <->
     exists tests, (iid, EvalShort tests) ∈ items /\
                   forall t code, tests !! t = Some code -> code = true) /\
  (forall iid, (iid, EvalShort ∅) ∈ items -> iid ∈ resolved_instances out).
Proof.
  unfold compose_report. intros Hloop.
  apply report_loop in Hloop as (Ht & Hr & Hu & He & Hri & Hui & Hei & Hfa).
  cbn [total resolved unresolved errors resolved_instances unresolved_instances
       errors_instances app] in *.
  pose proof (classes_partition items Hfa) as Hperm.
  assert (forall iid, iid ∈ ids_where is_resolved items <->
            exists tests, (iid, EvalShort tests) ∈ items /\
                          forall t code, tests !! t = Some code -> code = true) as Hres.
  { intros iid. unfold ids_where. rewrite list_elem_of_fmap. split.
    - intros ([iid' r] & -> & Hin). apply elem_of_bool_filter in Hin as [Hin Hc].
      cbn [snd fst] in *. destruct r as [| tests |]; try done.
      exists tests. split; [done|]. cbn [is_resolved] in Hc. unfold all_codes in Hc.
      apply bool_decide_eq_true in Hc. exact Hc.
    - intros (tests & Hin & Hall). exists (iid, EvalShort tests). split; [done|].
      apply elem_of_bool_filter. split; [done|]. cbn [snd is_resolved].
      unfold all_codes. apply bool_decide_eq_true. exact Hall. }
  rewrite Hri, Hui, Hei, Hr, Hu, He, Ht.
  split; [done|]. split.
  { apply Permutation_length in Hperm. rewrite !length_app, length_fmap in Hperm. lia. }
  do 3 (split; [done|]). split; [done|]. split; [exact Hres|].
  intros iid Hin. apply Hres. exists ∅. split; [done|]. intros t code Hl.
  by rewrite lookup_empty in Hl.
Qed.

End EvaluateReportFacts.

(* ===================================================================== *)
(** * Properties of batch mode *)
(* ===================================================================== *)

Module BatchFacts.

Import EvaluateFacts EvaluateReportFacts.

(** ** The stop test, exactly *)

Lemma all_errors_iff results batch b :
  all_errors results (map instance_id batch) = inr b ->
  b = true <-> chunk_failed results batch.
Proof.
  unfold chunk_failed.
  induction batch as [|x batch IH]; cbn [map all_errors].
  - intros [= <-]. split; [|done]. intros _ i Hi. by apply elem_of_nil in Hi.
  - destruct (results !! instance_id x) as [r|] eqn:Hx; [|done].
    destruct (has_error r) eqn:Hr.
    + intros H. rewrite (IH H). split.
      * intros Hall i Hi. apply elem_of_cons in Hi as [->|Hi]; [eauto|by apply Hall].
      * intros Hall i Hi. apply Hall. by right.
    + intros [= <-]. split; [done|]. intros Hall.
      destruct (Hall x) as (r' & Hr' & He); [by left|]. congruence.
Qed.

Lemma all_raise_chunk_failed p batch results :
  fair p -> all_raise p batch -> chunk_failed (drain p batch results) batch.
Proof.
  intros Hfair Hall i Hi.
  destruct (drain_lookup p batch results i Hfair Hi) as (i' & Hi' & _ & ->).
  eexists. split; [done|]. apply result_of_raises.
  unfold all_raise in Hall. rewrite Forall_forall in Hall. by apply Hall.
Qed.

(** ** Draining chunk after chunk *)

Lemma drain_all_snoc p cs c results :
  drain_all p (cs ++ [c]) results = drain p c (drain_all p cs results).
Proof. unfold drain_all. by rewrite foldl_app. Qed.

Lemma drain_dom p batch (results : gmap string eval_result) :
  fair p ->
  dom (drain p batch results) = dom results ∪ list_to_set (map instance_id batch).
Proof.
  intros Hfair. unfold drain. rewrite foldl_record_dom. f_equal.
  apply list_to_set_perm_L. change (map ?f ?l) with (f <$> l).
  by rewrite (Hfair batch).
Qed.

Lemma drain_all_dom p cs (results : gmap string eval_result) :
  fair p ->
  dom (drain_all p cs results)
  = dom results ∪ list_to_set (map instance_id (List.concat cs)).
Proof.
  intros Hfair. revert results. unfold drain_all.
  induction cs as [|c cs IH]; intros results; cbn [foldl List.concat].
  - set_solver.
  - rewrite IH, drain_dom by done. rewrite map_app, list_to_set_app_L. set_solver.
Qed.

Lemma drain_all_fold p cs results :
  fair p -> NoDup (map instance_id (List.concat cs)) ->
  drain_all p cs results = foldl (record_result p) results (List.concat cs).
Proof.
  intros Hfair. revert results. unfold drain_all.
  induction cs as [|c cs IH]; intros results Hnd; cbn [foldl List.concat]; [done|].
  cbn [List.concat] in Hnd. rewrite map_app in Hnd.
  apply NoDup_app in Hnd as (Hc & _ & Hcs).
  by rewrite IH, drain_fold, foldl_app.
Qed.

(** ** The loop, exactly *)

(** The loop submits the first [k] chunks and drains each of them; it goes on
    after a chunk that did not fail as a whole, and it stops before the end
    only after a chunk that did. *)
Lemma batch_loop_exact p ds n starts st :
  fair p ->
  let cs := map (fun i => slice ds i n) starts in
  exists k,
    (k <= List.length cs)%nat /\
    (cs <> [] -> 1 <= k)%nat /\
    batch_loop p ds n starts st
    = inr {| results := drain_all p (take k cs) (results st);
             submitted := (submitted st ++ take k cs)%list |} /\
    (forall j c, cs !! j = Some c -> (S j < k)%nat ->
       ~ chunk_failed (drain_all p (take (S j) cs) (results st)) c) /\
    ((k < List.length cs)%nat ->
     exists j c, k = S j /\ cs !! j = Some c /\
       chunk_failed (drain_all p (take k cs) (results st)) c).
Proof.
  intros Hfair. revert st.
  induction starts as [|i starts IH]; intros st; cbn [batch_loop map]; cbn zeta.
  - exists 0%nat. cbn [take List.length drain_all foldl]. rewrite app_nil_r.
    split; [done|]. split; [done|]. split; [by destruct st|].
    split; [intros j c Hj; lia|intros Hk; lia].
  - cbn [results submitted].
    destruct (stop_test_returns p (slice ds i n) (results st) Hfair) as [b Hb].
    rewrite Hb. cbn [bind].
    pose proof (all_errors_iff _ _ _ Hb) as Hiff.
    destruct b.
    + exists 1%nat. cbn [take List.length drain_all foldl].
      split; [lia|]. split; [done|]. split; [done|].
      split; [intros j c Hj; lia|]. intros _.
      exists 0%nat, (slice ds i n). split; [done|]. split; [done|]. by apply Hiff.
    + destruct (IH {| results := drain p (slice ds i n) (results st);
                      submitted := submitted st ++ [slice ds i n] |})
        as (k & Hk & Hpos & Hloop & Hgo & Hstop).
      exists (S k). cbn [take List.length drain_all foldl results submitted] in *.
      split; [lia|]. split; [lia|]. split.
      { rewrite Hloop. by rewrite <- app_assoc. }
      split.
      * intros [|j] c Hj Hlt.
        -- injection Hj as <-. cbn [take foldl]. rewrite <- Hiff. done.
        -- cbn [take foldl]. apply (Hgo j c); [done|lia].
      * intros Hlt. destruct Hstop as (j & c & -> & Hj & Hfail); [lia|].
        exists (S j), c. split; [done|]. split; [done|]. exact Hfail.
Qed.

(** The first [k] chunks hold the first [k * n] instances. *)
Lemma chunks_take_concat {A} (l : list A) n k :
  List.concat (take k (chunks l n)) = take (k `min` List.length (chunks l n) * n) l.
Proof.
  unfold chunks, range_step.
  change (map ?f ?l) with (f <$> l). rewrite <- !fmap_take, take_seq.
  rewrite !length_fmap, length_seq.
  change (?f <$> ?l) with (map f l). by rewrite chunks_concat_take.
Qed.


(** C8. In batch mode the scheduler cuts the instances into consecutive
    chunks of [max_workers] (the last one holds the rest) and submits them in
    order, one after the other: the first [k] chunks, which hold the first
    [k * max_workers] instances. Each submitted chunk is drained before the
    stop test reads its results, and the results returned are those of the
    submitted chunks and of nothing else. At least one chunk is submitted
    when there is an instance; the loop goes on after every chunk that did not
    fail as a whole, and it ends before the last chunk only after one that
    did. Once every instance of a drained chunk has an error result, as when
    every instance of the chunk raised, no further chunk is submitted: with
    two chunks of which the first fails as a whole, the second one is never
    submitted. *)
Theorem C8_batch_stops_after_a_failed_chunk
    (p : pool) (instance_datas : list instance) (max_workers : nat) :
  fair p ->
  (0 < max_workers)%nat ->
  exists st k,
    evaluate_batch p instance_datas max_workers = inr st /\
    (* the chunks *)
    List.concat (chunks instance_datas max_workers) = instance_datas /\
    (forall j c, chunks instance_datas max_workers !! j = Some c ->
       List.length c = ((List.length instance_datas - j * max_workers)
                          `min` max_workers)%nat) /\
    (* what is submitted *)
    submitted st = take k (chunks instance_datas max_workers) /\
    (k <= List.length (chunks instance_datas max_workers))%nat /\
    (instance_datas <> [] -> 1 <= k)%nat /\
    List.concat (submitted st) = take (k * max_workers) instance_datas /\
    (* what is recorded *)
    results st = drain_all p (submitted st) ∅ /\
    dom (results st) = list_to_set (map instance_id (List.concat (submitted st))) /\
    (NoDup (map instance_id instance_datas) ->
     forall i, i ∈ List.concat (submitted st) ->
       results st !! instance_id i = Some (result_of p i)) /\
    (* when the loop goes on and when it stops *)
    (forall j c, chunks instance_datas max_workers !! j = Some c -> (S j < k)%nat ->
       ~ chunk_failed
           (drain_all p (take (S j) (chunks instance_datas max_workers)) ∅) c) /\
    ((k < List.length (chunks instance_datas max_workers))%nat ->
     exists j c, k = S j /\ chunks instance_datas max_workers !! j = Some c /\
       chunk_failed (results st) c) /\
    (forall j c, submitted st !! j = Some c ->
       chunk_failed
         (drain_all p (take (S j) (chunks instance_datas max_workers)) ∅) c ->
       List.length (submitted st) = S j) /\
    (forall j c, submitted st !! j = Some c -> all_raise p c ->
       List.length (submitted st) = S j) /\
    (forall c1 c2, chunks instance_datas max_workers = [c1; c2] -> all_raise p c1 ->
       submitted st = [c1]).
Proof.
  intros Hfair Hn. unfold evaluate_batch.
  destruct max_workers as [|n]; [lia|].
  destruct (batch_loop_exact p instance_datas (S n)
              (range_step (List.length instance_datas) (S n))
              {| results := ∅; submitted := [] |} Hfair)
    as (k & Hk & Hpos & Hloop & Hgo & Hstop).
  fold (chunks instance_datas (S n)) in Hk, Hpos, Hloop, Hgo, Hstop.
  cbn [results submitted app] in Hloop, Hgo, Hstop.
  set (cs := chunks instance_datas (S n)) in *.
  assert (forall j c, take k cs !! j = Some c ->
            chunk_failed (drain_all p (take (S j) cs) ∅) c ->
            List.length (take k cs) = S j) as Hlast.
  { intros j c Hj Hfail. apply lookup_take_Some in Hj as [Hj Hjk].
    rewrite length_take.
    destruct (decide (S j < k)%nat) as [Hlt|Hge]; [|lia].
    by destruct (Hgo j c Hj Hlt). }
  assert (forall j c, take k cs !! j = Some c -> all_raise p c ->
            List.length (take k cs) = S j) as Hraise.
  { intros j c Hj Hall. apply (Hlast j c Hj).
    apply lookup_take_Some in Hj as [Hj _].
    rewrite (take_S_r _ _ _ Hj), drain_all_snoc.
    by apply all_raise_chunk_failed. }
  assert (List.concat (take k cs) = take (k * S n) instance_datas) as Hcat.
  { unfold cs. rewrite chunks_take_concat. fold cs. by rewrite Nat.min_l. }
  eexists _, k. split; [exact Hloop|]. cbn [results submitted].
  split; [by apply chunks_concat|]. split; [apply chunks_length|].
  split; [done|]. split; [done|]. split.
  { intros Hne. apply Hpos. intros Hcs.
    pose proof (chunks_concat instance_datas (S n) Hn) as Hc.
    fold cs in Hc. rewrite Hcs in Hc. by apply Hne. }
  split; [exact Hcat|]. split; [done|]. split.
  { rewrite drain_all_dom by done. set_solver. }
  split.
  { intros Hnd i Hi.
    assert (NoDup (map instance_id (List.concat (take k cs)))) as Hnd'.
    { rewrite Hcat. change (map ?f ?l) with (f <$> l) in *. rewrite fmap_take.
      eapply sublist_NoDup; [exact Hnd|apply sublist_take]. }
    rewrite drain_all_fold by done. by apply foldl_record_lookup. }
  split; [exact Hgo|]. split; [exact Hstop|]. split; [exact Hlast|].
  split; [exact Hraise|].
  intros c1 c2 Hcs Hall. rewrite Hcs in *.
  assert (k <> 0)%nat as Hk0.
  { intros ->. cbn in Hpos. assert (1 <= 0)%nat by by apply Hpos. lia. }
  destruct k as [|k]; [done|]. cbn [take] in *.
  specialize (Hraise 0%nat c1 eq_refl Hall). cbn [List.length] in Hraise.
  by destruct k.
Qed.

(** Two chunks of two instances; the first chunk fails as a whole and the
    second is never submitted. *)
Lemma C8_scenario :
  exists st,
    evaluate_batch Samples.first_two_fail Samples.four_instances 2 = inr st /\
    chunks Samples.four_instances 2 =
      [[Samples.inst "a"; Samples.inst "b"]; [Samples.inst "c"; Samples.inst "d"]] /\
    submitted st = [[Samples.inst "a"; Samples.inst "b"]] /\
    results st !! "c" = None /\ results st !! "d" = None.
Proof.
  destruct (C8_batch_stops_after_a_failed_chunk Samples.first_two_fail
              Samples.four_instances 2)
    as (st & k & Hst & _ & _ & _ & _ & _ & _ & _ & Hdom & _ & _ & _ & _ & _ & Htwo).
  - intros batch. symmetry. apply Permutation_rev.
  - lia.
  - exists st. split; [exact Hst|]. split; [reflexivity|].
    assert (submitted st = [[Samples.inst "a"; Samples.inst "b"]]) as Hsub.
    { apply (Htwo _ [Samples.inst "c"; Samples.inst "d"]); [reflexivity|].
      repeat constructor; by vm_compute. }
    split; [exact Hsub|].
    rewrite Hsub in Hdom.
    split; apply (not_elem_of_dom (D := gset string)); rewrite Hdom;
      cbn; set_solver.
Defined.

End BatchFacts.

(* ===================================================================== *)
(** * Properties of the scan for modified test files *)
(* ===================================================================== *)

Module PatchesFacts.

Import StringFacts Patches.

(** ** Lines *)

Lemma split_on_nonempty c s : split_on c s <> [].
Proof.
  destruct s as [|a s]; cbn [split_on]; [done|].
  destruct (Ascii.eqb a c); [done|]. by destruct (split_on c s).
Qed.

Lemma split_on_app c a b :
  split_on c (a ++ String c b) = (split_on c a ++ split_on c b)%list.
Proof.
  induction a as [|x a IH].
  - rewrite append_nil_l. cbn [split_on]. by rewrite Ascii.eqb_refl.
  - rewrite append_cons. cbn [split_on]. rewrite IH.
    destruct (Ascii.eqb x c); [done|].
    pose proof (split_on_nonempty c a) as Hne.
    by destruct (split_on c a).
Qed.

Lemma split_on_single c s : contains (String c "") s = false -> split_on c s = [s].
Proof.
  induction s as [|a s IH]; [done|].
  cbn [contains String.prefix split_on].
  destruct (ascii_dec c a) as [->|Hne].
  - by destruct s.
  - intros Hc. rewrite (IH Hc).
    destruct (Ascii.eqb_spec a c) as [->|_]; done.
Qed.

(** ** The loop *)

Lemma scan_line_blocked tfo bl st line :
  blocked bl st = true -> scan_line tfo bl st line = st.
Proof. unfold scan_line. by intros ->. Qed.

Lemma scan_lines_blocked tfo bl lines st :
  blocked bl st = true -> scan_lines tfo bl lines st = st.
Proof.
  intros Hb. unfold scan_lines.
  induction lines as [|line lines IH]; cbn [foldl]; [done|].
  by rewrite scan_line_blocked.
Qed.

Lemma scan_lines_app tfo bl l1 l2 st :
  scan_lines tfo bl (l1 ++ l2) st = scan_lines tfo bl l2 (scan_lines tfo bl l1 st).
Proof. unfold scan_lines. apply foldl_app. Qed.

Lemma scan_line_invariant tfo bl (named : string -> Prop) st line :
  (forall f, startswith "diff --git" line = true -> tfo line = Some f -> named f) ->
  (forall f, f ∈ modified_files st -> (f ∉ bl) /\ named f) ->
  (forall f, current_file st = Some f -> named f) ->
  (forall f, f ∈ modified_files (scan_line tfo bl st line) -> (f ∉ bl) /\ named f) /\
  (forall f, current_file (scan_line tfo bl st line) = Some f -> named f).
Proof.
  intros Hline Hmod Hcur. unfold scan_line.
  destruct (blocked bl st) eqn:Hb; [done|].
  destruct (startswith "diff --git" line) eqn:Hd.
  { destruct (tfo line) as [g|] eqn:Hg; cbn [modified_files current_file];
      (split; [done|]); [|done]. intros f [= <-]. by apply Hline. }
  destruct (startswith "+++" line).
  { by destruct (_ || _). }
  destruct (startswith "@@" line); [|done].
  destruct (current_file st) as [g|] eqn:Hg;
    [|split; [exact Hmod|intros f Hf; by rewrite Hg in Hf]].
  destruct (negb (String.eqb g "") && negb (is_deleted st));
    [|split; [exact Hmod|intros f Hf; rewrite Hg in Hf; by apply Hcur]].
  cbn [modified_files current_file]. split.
  - intros f [->%elem_of_singleton|Hf]%elem_of_union; [|by apply Hmod].
    split; [|by apply Hcur].
    unfold blocked in Hb. rewrite Hg in Hb. intros Hin%mem_spec. congruence.
  - intros f Hf. rewrite ?Hg in Hf. by apply Hcur.
Qed.

Lemma scan_lines_invariant tfo bl (named : string -> Prop) lines st :
  (forall line f, line ∈ lines -> startswith "diff --git" line = true ->
                  tfo line = Some f -> named f) ->
  (forall f, f ∈ modified_files st -> (f ∉ bl) /\ named f) ->
  (forall f, current_file st = Some f -> named f) ->
  forall f, f ∈ modified_files (scan_lines tfo bl lines st) -> (f ∉ bl) /\ named f.
Proof.
  unfold scan_lines. revert st.
  induction lines as [|line lines IH]; intros st Hlines Hmod Hcur; cbn [foldl]; [done|].
  destruct (scan_line_invariant tfo bl named st line) as [Hmod' Hcur']; [|done..|].
  { intros f. apply Hlines. by left. }
  apply IH; [|done..]. intros line' f Hin. apply Hlines. by right.
Qed.

(** A reported file is never on the black list, and it is the file of some
    [diff --git] header line of the patch that names a test file. *)
Theorem reported_files_are_named_and_not_blacklisted
    (test_file_of : string -> option string) (test_patch : string)
    (black_list : list string) (f : string) :
  f ∈ extract_modified_test_files test_file_of test_patch black_list ->
  (f ∉ black_list) /\
  exists line,
    line ∈ split_on (ascii_of_nat 10) test_patch /\
    startswith "diff --git" line = true /\ test_file_of line = Some f.
Proof.
  unfold extract_modified_test_files.
  apply (scan_lines_invariant test_file_of black_list
           (fun f => exists line,
              line ∈ split_on (ascii_of_nat 10) test_patch /\
              startswith "diff --git" line = true /\ test_file_of line = Some f)).
  - intros line g Hin Hd Hg. by exists line.
  - cbn [modified_files]. intros g Hg. by apply elem_of_empty in Hg.
  - done.
Qed.

(** Once the header of a black-listed file is met, the scan takes no
    further line: the files of every later header of the patch are left
    out, not only the black-listed one. *)
Theorem blacklisted_file_hides_the_rest
    (test_file_of : string -> option string) (before header after : string)
    (black_list : list string) (f : string) :
  startswith "diff --git" header = true ->
  contains nl header = false ->
  test_file_of header = Some f ->
  f ∈ black_list ->
  extract_modified_test_files test_file_of
    (before ++ nl ++ header ++ nl ++ after) black_list
  = extract_modified_test_files test_file_of before black_list.
Proof.
  intros Hd Hnl Hf Hin. unfold extract_modified_test_files, nl.
  rewrite !append_cons, !append_nil_l.
  rewrite !split_on_app, (split_on_single _ header) by exact Hnl.
  rewrite !scan_lines_app.
  set (st := scan_lines test_file_of black_list (split_on _ before) _).
  unfold scan_lines at 2. cbn [foldl].
  destruct (blocked black_list st) eqn:Hb.
  - rewrite scan_line_blocked by done. by rewrite scan_lines_blocked.
  - unfold scan_line. rewrite Hb, Hd, Hf.
    rewrite scan_lines_blocked; [done|].
    unfold blocked. cbn [current_file]. by apply mem_spec.
Qed.

End PatchesFacts.

(* ===================================================================== *)
(** * Properties of the preparation of the produce rounds *)
(* ===================================================================== *)

Module ProducePrepareFacts.

Import HasherFacts EvalScriptFacts Patches ProducePrepare.

Lemma prepare_step_inv tfo bl σ acc i σ1 acc1 :
  prepare_step tfo bl (σ, acc) i = inr (σ1, acc1) ->
  exists l kvs cmd test_patch rest,
    spec_dict i = VRef l /\ σ !! l = Some (ODict kvs) /\
    dict_get "test_cmd" kvs = Some (VStr cmd) /\
    patches i = test_patch :: rest /\
    σ1 = <[l := ODict (dict_set "test_cmd" (VStr (cmd ++ CONTINUE_FLAG)) kvs)]> σ /\
    acc1 = (acc ++ [{| repo := repo i; instance_id := instance_id i;
                       base_commit := base_commit i; patches := patches i;
                       inst_tests :=
                         elements (extract_modified_test_files tfo test_patch bl);
                       spec_dict := spec_dict i |}])%list.
Proof.
  unfold prepare_step, append_flag. cbn [fst snd].
  destruct (patches i) as [|test_patch rest] eqn:Hp; [done|].
  destruct (spec_dict i) as [| | | | |l] eqn:Hs; try done.
  destruct (σ !! l) as [[xs|kvs]|] eqn:Hl; try done.
  unfold getitem. destruct (dict_get "test_cmd" kvs) as [[| | | |cmd|]|] eqn:Hc; try done.
  cbn [bind ret]. intros [= <- <-]. by exists l, kvs, cmd, test_patch, rest.
Qed.

Lemma prepare_loop tfo bl dataset σ acc σ' out :
  for_each (prepare_step tfo bl) dataset (σ, acc) = inr (σ', out) ->
  map instance_id out = (map instance_id acc ++ map instance_id dataset)%list /\
  map spec_dict out = (map spec_dict acc ++ map spec_dict dataset)%list /\
  forall l cmd,
    test_cmd_of σ (VRef l) = Some cmd ->
    test_cmd_of σ' (VRef l)
    = Some (cmd ++ repeated CONTINUE_FLAG
                     (List.length (filter (fun i => spec_dict i = VRef l) dataset))).
Proof.
  revert σ acc. induction dataset as [|i dataset IH]; intros σ acc; cbn [for_each].
  - intros [= <- <-]. rewrite !app_nil_r. split; [done|]. split; [done|].
    intros l cmd ->. cbn [filter list_filter List.length repeated].
    f_equal. clear. induction cmd as [|c cmd IH]; [done|].
    by rewrite StringFacts.append_cons, <- IH.
  - intros H. apply bind_inr in H as ([σ1 acc1] & Hstep & Hloop).
    apply prepare_step_inv in Hstep
      as (l0 & kvs & cmd0 & test_patch & rest & Hspec & Hl0 & Hcmd0 & _ & -> & ->).
    apply IH in Hloop as (Hids & Hspecs & Hcmd).
    rewrite Hids, Hspecs, !map_app. cbn [map instance_id Evaluate.spec_dict].
    rewrite <- !app_assoc. split; [done|]. split; [done|].
    intros l cmd Hl. rewrite filter_cons.
    destruct (decide (spec_dict i = VRef l)) as [Heq|Hne].
    + rewrite Hspec in Heq. injection Heq as <-.
      unfold test_cmd_of in Hl. rewrite Hl0, Hcmd0 in Hl. injection Hl as <-.
      rewrite (Hcmd l0 (cmd0 ++ CONTINUE_FLAG)).
      * cbn [List.length repeated]. by rewrite append_assoc.
      * unfold test_cmd_of. by rewrite lookup_insert_eq, dict_get_set_eq.
    + apply Hcmd. unfold test_cmd_of in *.
      rewrite lookup_insert_ne; [done|]. intros <-. by rewrite Hspec in Hne.
Qed.

(** The preparation adds the collection flag once per instance to the
    dictionary object that the instance refers to: a spec shared by [n]
    instances of the dataset ends with [n] copies of the flag after its test
    command, a spec of its own with one. The ids and the spec references of
    the instances stay as they are. *)
Theorem prepare_rounds_appends_flag_per_reference
    (test_file_of : string -> option string) (black_list : list string)
    (σ σ' : store) (dataset dataset' : list instance) :
  prepare_rounds test_file_of black_list σ dataset = inr (σ', dataset') ->
  map instance_id dataset' = map instance_id dataset /\
  map spec_dict dataset' = map spec_dict dataset /\
  forall l cmd,
    test_cmd_of σ (VRef l) = Some cmd ->
    test_cmd_of σ' (VRef l)
    = Some (cmd ++ repeated CONTINUE_FLAG
                     (List.length (filter (fun i => spec_dict i = VRef l) dataset))).
Proof.
  unfold prepare_rounds. intros H. by apply prepare_loop in H.
Qed.

End ProducePrepareFacts.

(* ===================================================================== *)
(** * More properties of the differential classifier *)
(* ===================================================================== *)

Module ProduceMoreFacts.

Import ProduceFacts RunInstanceFacts.

(** ** Which instances get an entry *)

Lemma gather_step_dom pres st id g st' :
  gather_step pres st (id, g) = inr st' ->
  dom (instance_id2results st')
  = dom (instance_id2results st) ∪ (match pres !! id with Some _ => {[id]} | None => ∅ end).
Proof.
  unfold gather_step. destruct (pres !! id) as [pre|].
  - destruct g as [e tb|golden].
    + intros [= <-]. cbn [instance_id2results]. rewrite dom_insert_L. set_solver.
    + destruct (match extract_crash_details_from_report golden with
                | inr cd => Some cd | inl _ => crash_details_var st end); [|done].
      intros [= <-]. cbn [instance_id2results]. rewrite dom_insert_L. set_solver.
  - intros [= <-]. set_solver.
Qed.

Lemma gather_loop_dom pres goldens st st' :
  for_each (gather_step pres) goldens st = inr st' ->
  dom (instance_id2results st')
  = dom (instance_id2results st) ∪ (dom pres ∩ list_to_set goldens.*1).
Proof.
  revert st. induction goldens as [|[id g] goldens IH]; intros st; cbn [for_each].
  - intros [= <-]. set_solver.
  - intros H. apply bind_inr in H as (st1 & H1 & H2).
    rewrite (IH _ H2), (gather_step_dom _ _ _ _ _ H1).
    cbn [fmap list_fmap fst list_to_set].
    destruct (pres !! id) as [pre|] eqn:Hid.
    + apply (elem_of_dom_2 (D := gset string)) in Hid. set_solver.
    + apply (not_elem_of_dom (D := gset string)) in Hid. set_solver.
Qed.

Lemma gather_loop_error pres goldens st st' iid error tb :
  for_each (gather_step pres) goldens st = inr st' ->
  NoDup goldens.*1 -> (iid, RoundError error tb) ∈ goldens -> is_Some (pres !! iid) ->
  instance_id2results st' !! iid = Some (ClsError error).
Proof.
  revert st. induction goldens as [|[id g] goldens IH]; intros st H Hnd Hin Hpre.
  - by apply elem_of_nil in Hin.
  - cbn [for_each] in H. apply bind_inr in H as (st1 & H1 & H2).
    cbn [fmap list_fmap fst] in Hnd. apply NoDup_cons in Hnd as [Hfresh Hnd].
    apply elem_of_cons in Hin as [[= <- <-]|Hin].
    + rewrite (gather_loop_other _ _ _ _ iid H2 Hfresh).
      unfold gather_step in H1. destruct Hpre as [pre Hpre]. rewrite Hpre in H1.
      injection H1 as <-. cbn [instance_id2results]. by rewrite lookup_insert_eq.
    + by apply (IH st1).
Qed.

(** The classification has an entry exactly for the instances that have a
    result in both rounds: an instance of the golden round without a
    pre-golden result is left out. An error of the golden round is passed on
    with its message, whatever the pre-golden round gave. *)
Theorem gather_results_keeps_instances_of_both_rounds
    (pres : gmap string round_result) (goldens : list (string * round_result))
    (out : gmap string classification) :
  gather_results pres goldens = inr out ->
  dom out = dom pres ∩ list_to_set goldens.*1 /\
  (NoDup goldens.*1 ->
   forall iid error tb,
     (iid, RoundError error tb) ∈ goldens -> is_Some (pres !! iid) ->
     out !! iid = Some (ClsError error)).
Proof.
  unfold gather_results. intros H. apply bind_inr in H as (st & Hloop & [= <-]).
  split.
  - rewrite (gather_loop_dom _ _ _ _ Hloop). cbn [instance_id2results]. set_solver.
  - intros Hnd iid error tb Hin Hpre. by eapply gather_loop_error.
Qed.

(** ** A golden report whose crash details cannot be extracted *)

(** When the extraction of crash details raises for a golden report, the
    exception is swallowed. For the first report of the golden round the
    loop then fails on the unbound local [crash_details]; for a later one
    the instance is classified with the crash details of the instance
    before it. *)
Theorem failed_extraction_reuses_earlier_crash_details
    (pres : gmap string round_result) (a b : string) (ga gb : report)
    (pa pb : round_result) (rest : list (string * round_result))
    (crash_details : gmap string string) :
  pres !! a = Some pa -> pres !! b = Some pb ->
  extract_crash_details_from_report ga = inr crash_details ->
  raises (extract_crash_details_from_report gb) ->
  gather_results pres ((b, RoundReport gb) :: rest)
    = inl (UnboundLocalError "crash_details") /\
  (b ∉ rest.*1 ->
   forall out,
     gather_results pres ((a, RoundReport ga) :: (b, RoundReport gb) :: rest) = inr out ->
     out !! b
     = Some (ClsEntry (relocate (root gb)
               (classify pb (nodeids_with PASS_OUTCOMES (get_tests gb))
                  crash_details)))).
Proof.
  intros Ha Hb Hga Hgb. split.
  - unfold gather_results. cbn [for_each gather_step]. rewrite Hb.
    by destruct (extract_crash_details_from_report gb).
  - intros Hfresh out. unfold gather_results. cbn [for_each gather_step].
    rewrite Ha, Hga. cbn [bind ret crash_details_var]. rewrite Hb.
    destruct (extract_crash_details_from_report gb) as [e|cd]; [|done].
    cbn [bind ret]. intros H. apply bind_inr in H as (st & Hloop & [= <-]).
    rewrite (gather_loop_other _ _ _ _ b Hloop Hfresh). cbn [instance_id2results].
    by rewrite lookup_insert_eq.
Qed.

(** ** A test that the golden report does not list *)

Lemma full_report_tests results tests skipped_ok ignore r :
  RunInstance.gather_results results tests skipped_ok false ignore = inr (Full r) ->
  (List.length (get_tests results) < List.length tests)%nat ->
  exists pcs,
    get_tests r
    = (get_tests results
       ++ map (fun t => compose_a_report_for_missing_test t (matching_longrepr pcs t))
            (tests_missing (get_tests results) tests))%list.
Proof.
  unfold RunInstance.gather_results, get_tests.
  destruct (Report.tests results) as [ts|]; [|done].
  change (default [] (Some ts)) with ts.
  intros H Hlt. apply bind_inr in H as (pcs & _ & H). exists pcs.
  destruct tests as [|t0 tests']; [simpl in Hlt; lia|].
  apply Nat.ltb_lt in Hlt. rewrite Hlt, tests_missing_filter in H.
  injection H as <-. cbn [Report.tests default].
  by rewrite reconcile_result_tests.
Qed.

(** A requested test that is missing from the golden report of an instance
    gets a synthesized [error] entry in the full report. Whenever
    [produce.gather_results] returns for a golden round with distinct
    instance ids that holds this report (and it returns when every report of
    the round yields its crash details), the entry it stores for the instance
    lists the test neither under FAIL_TO_PASS nor under PASS_TO_PASS, whatever
    the pre-golden round gave and whatever crash details were used. When the
    report yields its crash details, the test is among them: after a failed
    pre-golden round it is listed under FAIL_TO_FAIL, otherwise under
    FAIL_TO_FAIL or PASS_TO_FAIL according to its pre-golden outcome. The
    lists are those before the root-marker rewrite, which changes nothing
    under a default marker. *)
Theorem missing_test_is_never_classified_as_passing
    (results : report) (tests : list string) (skipped_ok ignore : bool)
    (r : report) (test : string)
    (pres : gmap string round_result) (goldens : list (string * round_result))
    (iid : string) (pre : round_result) :
  RunInstance.gather_results results tests skipped_ok false ignore = inr (Full r) ->
  (List.length (get_tests results) < List.length tests)%nat ->
  test ∈ tests -> test ∉ map nodeid (get_tests results) ->
  NoDup goldens.*1 -> (iid, RoundReport r) ∈ goldens -> pres !! iid = Some pre ->
  (test ∉ nodeids_with PASS_OUTCOMES (get_tests r)) /\
  (Forall extractable goldens.*2 -> returns (gather_results pres goldens)) /\
  forall out, gather_results pres goldens = inr out ->
    exists e,
      out !! iid = Some (ClsEntry (relocate (root r) e)) /\
      (default_root (root r) -> relocate (root r) e = e) /\
      (test ∉ f2p e) /\ (test ∉ p2p e) /\
      forall crash_details,
        extract_crash_details_from_report r = inr crash_details ->
        test ∈ dom crash_details /\
        match pre with
        | RoundError _ _ => test ∈ f2f e
        | RoundReport p =>
            (test ∈ f2f e <-> test ∈ nodeids_with FAIL_OUTCOMES (get_tests p)) /\
            (test ∈ p2f e <-> test ∈ nodeids_with PASS_OUTCOMES (get_tests p))
        end.
Proof.
  intros Hfull Hlt Hin Hmiss Hnd Hgolden Hpre.
  destruct (full_report_tests _ _ _ _ _ Hfull Hlt) as (pcs & Htests).
  set (golden_tests_passed := nodeids_with PASS_OUTCOMES (get_tests r)) in *.
  assert (test ∉ golden_tests_passed) as Hpass.
  { unfold golden_tests_passed. rewrite elem_of_nodeids_with.
    intros (t & Ht & Hid & Hout). rewrite Htests in Ht.
    apply elem_of_app in Ht as [Ht|Ht].
    - apply Hmiss. rewrite <- Hid. by apply (list_elem_of_fmap_2 nodeid).
    - apply list_elem_of_fmap in Ht as (t' & -> & _).
      destruct (compose_outcome t' (matching_longrepr pcs t')) as [Ho _].
      rewrite Ho in Hout. by apply mem_spec in Hout. }
  split; [exact Hpass|]. split.
  { intros Hall. unfold gather_results.
    destruct (gather_loop_returns pres goldens
                {| crash_details_var := None; instance_id2results := ∅ |} Hall)
      as [st' ->]. done. }
  intros out Hout. unfold gather_results in Hout.
  apply bind_inr in Hout as (st' & Hloop & [= <-]).
  destruct (gather_loop_report _ _ _ _ _ _ _ Hloop Hnd Hgolden Hpre)
    as (used & Hlook & Hown).
  exists (classify pre golden_tests_passed used).
  split; [exact Hlook|]. split; [apply relocate_default|].
  split; [|split].
  - destruct pre as [err tb|p]; cbn [classify f2p]; rewrite elem_of_elements; set_solver.
  - destruct pre as [err tb|p]; cbn [classify p2p];
      [apply not_elem_of_nil|rewrite elem_of_elements; set_solver].
  - intros crash_details Hcd. rewrite (Hown _ Hcd).
    assert (test ∈ dom crash_details) as Hdom.
    { rewrite (crash_details_dom _ _ Hcd), elem_of_nodeids_with.
      exists (compose_a_report_for_missing_test test (matching_longrepr pcs test)).
      destruct (compose_outcome test (matching_longrepr pcs test)) as [Ho Hn].
      split; [|split; [done|]].
      - rewrite Htests. apply elem_of_app. right. apply list_elem_of_fmap.
        exists test. split; [done|]. by apply elem_of_tests_missing.
      - rewrite Ho. by apply mem_spec. }
    split; [exact Hdom|].
    destruct pre as [err tb|p]; cbn [classify f2f p2f]; rewrite !elem_of_elements;
      [done|set_solver].
Qed.

End ProduceMoreFacts.

(* ===================================================================== *)
(** * Properties of the patch script *)
(* ===================================================================== *)

Module PatchCodeFacts.

Import PatchCode.

Lemma index_app_fresh x pre post :
  x ∉ pre -> index x (pre ++ x :: post) = inr (List.length pre).
Proof.
  induction pre as [|y pre IH]; intros Hnin; cbn [index app List.length].
  - by rewrite String.eqb_refl.
  - apply not_elem_of_cons in Hnin as [Hne Hnin].
    destruct (String.eqb_spec y x) as [->|_]; [by destruct Hne|].
    by rewrite IH.
Qed.

Lemma apply_loop_fails patch_ok patch_files pre f post cmds :
  Forall (fun g => patch_ok g = true) pre -> patch_ok f = false ->
  _rollback_patches patch_files f = inr cmds ->
  apply_loop patch_ok patch_files (pre ++ f :: post)
  = inr ((map Apply pre ++ Apply f :: cmds)%list, Exited 1).
Proof.
  intros Hpre Hf Hroll.
  induction Hpre as [|g pre Hg Hpre IH]; cbn [apply_loop app map].
  - by rewrite Hf, Hroll.
  - by rewrite Hg, IH.
Qed.

(** When a patch fails to apply, no later patch is tried and the script
    exits with code 1 after the rollback. The rollback goes back over every
    patch up to and including the one that just failed, last first, and each
    of its reverse runs reads [tmp.patch], not the patch file. *)
Theorem failed_patch_stops_and_rolls_back (patch_ok : string -> bool)
    (pre : list string) (f : string) (post : list string) :
  NoDup (pre ++ f :: post) ->
  Forall (fun g => patch_ok g = true) pre -> patch_ok f = false ->
  apply_patch patch_ok (pre ++ f :: post)
  = inr ((map Apply pre ++ [Apply f]
          ++ List.concat (map (fun g => [Echo g; RevertTmp]) (rev (pre ++ [f]))))%list,
         Exited 1).
Proof.
  intros Hnd Hpre Hf. unfold apply_patch.
  apply apply_loop_fails; [done..|].
  unfold _rollback_patches. rewrite index_app_fresh; cycle 1.
  { apply NoDup_app in Hnd as (_ & Hdisj & _). intros Hin.
    apply (Hdisj f Hin). by left. }
  cbn [bind ret]. do 3 f_equal.
  rewrite (cons_middle f pre post), app_assoc.
  rewrite take_app_length'; [done|]. rewrite length_app. simpl. lia.
Qed.

(** When every patch applies, the script runs one [patch] per file, in
    order, and returns. *)
Theorem all_patches_applied_in_order (patch_ok : string -> bool)
    (patch_files : list string) :
  Forall (fun g => patch_ok g = true) patch_files ->
  apply_patch patch_ok patch_files = inr (map Apply patch_files, Returned).
Proof.
  unfold apply_patch. generalize patch_files at 2 as all.
  intros all Hall. induction Hall as [|g l Hg Hall IH]; cbn [apply_loop map]; [done|].
  by rewrite Hg, IH.
Qed.

End PatchCodeFacts.

(* ===================================================================== *)
(** * Collisions of the spec hasher *)
(* ===================================================================== *)

Module CollisionFacts.

Import DictFacts CanonicalFacts Hashable.

Lemma pyval_nested_ind (P : pyval -> Prop) :
  P PNone -> (forall b, P (PBool b)) -> (forall n, P (PInt n)) ->
  (forall x, P (PFloat x)) -> (forall s, P (PStr s)) ->
  (forall xs, Forall P xs -> P (PList xs)) ->
  (forall kvs, Forall (fun kv => P kv.2) kvs -> P (PDict kvs)) ->
  forall v, P v.
Proof.
  intros HN HB HI HF HS HL HD. fix IH 1. intros [| b | n | x | s | xs | kvs].
  - exact HN.
  - apply HB.
  - apply HI.
  - apply HF.
  - apply HS.
  - apply HL. induction xs as [|x xs IHxs]; constructor; [apply IH|exact IHxs].
  - apply HD. induction kvs as [|[k v] kvs IHkvs]; constructor; [apply IH|exact IHkvs].
Qed.

(** On values without dictionaries the conversion loses nothing. *)
Lemma make_hashable_inj (v v' : pyval) :
  dict_free v = true -> dict_free v' = true ->
  make_hashable v = make_hashable v' -> v = v'.
Proof.
  revert v'. induction v as [| b | n | x | s | xs IH | kvs _] using pyval_nested_ind;
    intros [| b' | n' | x' | s' | ys | kvs'] Hv Hv' H; try done;
    try (by injection H as ->).
  cbn [make_hashable] in H. injection H as H. f_equal.
  cbn [dict_free] in Hv, Hv'.
  revert ys Hv Hv' H. induction IH as [|x xs Hx _ IHxs]; intros [|y ys] Hv Hv' H;
    try done.
  cbn [forallb map] in *. apply andb_true_iff in Hv as [Hx1 Hxs].
  apply andb_true_iff in Hv' as [Hy1 Hys]. injection H as H1 H2.
  f_equal; [by apply Hx|by apply IHxs].
Qed.

Lemma Permutation_map_inj_on {A B} (f : A -> B) (l l' : list A) :
  (forall x y, x ∈ l -> y ∈ l' -> f x = f y -> x = y) ->
  map f l ≡ₚ map f l' -> l ≡ₚ l'.
Proof.
  revert l'. induction l as [|x l IH]; intros l' Hinj Hperm.
  - cbn [map] in Hperm. apply Permutation_nil_l in Hperm.
    by destruct l'.
  - assert (f x ∈ map f l') as Hin.
    { rewrite <- Hperm. by left. }
    change (map f l') with (f <$> l') in Hin.
    apply list_elem_of_fmap in Hin as (y & Hfy & Hy).
    assert (x = y) as <-. { apply Hinj; [by left|done..]. }
    apply elem_of_Permutation in Hy as (l'' & Hl'').
    rewrite Hl''. apply perm_skip. apply IH.
    + intros a b Ha Hb. apply Hinj; [by right|]. rewrite Hl''. by right.
    + change (map f ?l) with (f <$> l) in *. rewrite Hl'' in Hperm.
      cbn [fmap list_fmap] in Hperm. by apply Permutation_cons_inv in Hperm.
Qed.

Lemma pair_tuple_inj (l l' : list (string * hval)) :
  pair_tuple <$> l = pair_tuple <$> l' -> l = l'.
Proof.
  revert l'. induction l as [|[k v] l IH]; intros [|[k' v'] l']; try done.
  cbn [fmap list_fmap]. unfold pair_tuple at 1 3. cbn [fst snd].
  intros [= -> -> H]. f_equal. by apply IH.
Qed.

(** Two specs whose hashed fields hold no dictionary get the same canonical
    tuple exactly when they have the same hashed fields up to the order of
    the keys. *)
Theorem canonical_identifies_only_reorderings (d d' : dict pyval) :
  NoDup d.*1 ->
  Forall (fun kv => dict_free kv.2 = true) (hashed_fields d) ->
  Forall (fun kv => dict_free kv.2 = true) (hashed_fields d') ->
  canonical d = canonical d' <-> hashed_fields d ≡ₚ hashed_fields d'.
Proof.
  intros Hnd Hfree Hfree'. unfold canonical. split.
  - cbn [make_hashable]. intros [= H].
    apply pair_tuple_inj in H.
    apply (Permutation_map_inj_on (fun '(k, v) => (k, make_hashable v))).
    + rewrite Forall_forall in Hfree, Hfree'.
      intros [k v] [k' v'] Hin Hin' [= -> Hv]. f_equal.
      apply make_hashable_inj; [by apply (Hfree (k', v))|by apply (Hfree' (k', v'))|done].
    + rewrite <- (sorted_items_Permutation (map _ (hashed_fields d))), H.
      apply sorted_items_Permutation.
  - intros Hperm. apply (make_hashable_Permutation _ _); [|done].
    unfold hashed_fields. by apply filter_keys_NoDup.
Qed.

End CollisionFacts.

(* ===================================================================== *)
(** * Scenarios *)
(* ===================================================================== *)

Module Scenarios.

Import StringFacts DockerUtilsFacts BuilderFacts EvalScriptFacts EvaluateReportFacts.
Import PatchesFacts ProducePrepareFacts ProduceMoreFacts PatchCodeFacts CollisionFacts.
Import ImageBuilderFacts PatchCode Hashable.
Import BuildAll Patches EvalScript EvaluateReport ProducePrepare.

(** The list of the sample spec gets its update step once: the second call
    finds it in place. *)
Lemma repeatable_scenario :
  exists σ' r,
    format_dockerfile Samples.full_templates "httpx" "3.9" [] None (VRef 2%positive)
      false (heap Samples.fresh_world) = (σ', r) /\
    σ' !! 2%positive = Some (OList [VStr "apt-get update"; VStr "sleep 100"]) /\
    format_dockerfile Samples.full_templates "httpx" "3.9" [] None (VRef 2%positive)
      false σ' = (σ', r).
Proof.
  destruct (format_dockerfile Samples.full_templates "httpx" "3.9" [] None
              (VRef 2%positive) false (heap Samples.fresh_world)) as [σ' r] eqn:E.
  exists σ', r. split; [done|]. split.
  - pose proof (f_equal fst E) as E1. cbn [fst] in E1. rewrite <- E1.
    rewrite (format_dockerfile_inserts _ _ _ _ _ _ _ _ [VStr "sleep 100"]).
    + by rewrite lookup_insert_eq.
    + reflexivity.
    + done.
    + rewrite elem_of_cons, elem_of_nil. intros [H|H]; [discriminate|done].
  - by apply (format_dockerfile_repeatable _ _ _ _ _ _ _ _ _ _ E).
Defined.

(** Two interpreter versions, one Dockerfile. *)
Lemma python_prefix_scenario :
  format_dockerfile Samples.full_templates "httpx" "python3.9" [] None VNone false ∅
  = format_dockerfile Samples.full_templates "httpx" "python3.11" [] None VNone false ∅.
Proof.
  by apply (format_dockerfile_python_prefix Samples.full_templates "httpx"
              "python3.9" "python3.11").
Defined.

(** The sample spec against a runtime that holds its image. *)
Lemma cached_scenario :
  exists image w',
    build_docker_image_from_specs Samples.plain_lib Samples.plain_templates
      Samples.stocked_docker "encode/httpx" Samples.spec_ref false false None
      Samples.fresh_world = (w', ret (ImageName image)) /\
    trace w' = [EvAcquire image; EvCacheCheck image; EvRelease image] /\
    heap w' = heap Samples.fresh_world.
Proof.
  pose (json := [("python", PStr "3.9"); ("pre_install", PList [PStr "sleep 100"]);
                 ("test_cmd", PStr "pytest")]).
  destruct (cached_image_is_not_rebuilt Samples.plain_lib Samples.plain_templates
              Samples.stocked_docker "encode/httpx" Samples.spec_ref false None
              Samples.fresh_world json
              (get_image_name Samples.plain_lib "encode/httpx" json ++ ":latest"))
    as (w' & Hbuild & Htrace & Hheap & _).
  - reflexivity.
  - cbn [failed_images Samples.fresh_world]. apply not_elem_of_empty.
  - reflexivity.
  - by exists (get_image_name Samples.plain_lib "encode/httpx" json), w'.
Defined.

(** The sample spec against an empty runtime with pulling switched on. *)
Lemma pull_scenario :
  exists image w',
    build_docker_image_from_specs Samples.plain_lib Samples.plain_templates
      Samples.fresh_docker "encode/httpx" Samples.spec_ref false false
      (Some Samples.pulling) Samples.fresh_world = (w', ret (PullCoroutine image)) /\
    trace w' = [EvAcquire image; EvCacheCheck image; EvPullCoroutine image;
                EvRelease image] /\
    heap w' = heap Samples.fresh_world.
Proof.
  pose (json := [("python", PStr "3.9"); ("pre_install", PList [PStr "sleep 100"]);
                 ("test_cmd", PStr "pytest")]).
  destruct (pull_returns_unawaited_coroutine Samples.plain_lib Samples.plain_templates
              Samples.fresh_docker "encode/httpx" Samples.spec_ref false
              Samples.pulling Samples.fresh_world json)
    as (w' & Hbuild & Htrace & Hheap & _).
  - reflexivity.
  - cbn [failed_images Samples.fresh_world]. apply not_elem_of_empty.
  - reflexivity.
  - reflexivity.
  - by exists (get_image_name Samples.plain_lib "encode/httpx" json), w'.
Defined.

(** A data file whose first record fails to build: two more records change
    nothing. *)
Lemma build_all_scenario :
  raises (build_all_images Samples.plain_lib Samples.plain_templates
            Samples.failing_docker
            {| push_to_registry := false; pull_from_registry := false |}
            [Samples.data_line] false false Samples.fresh_world).2 /\
  build_all_images Samples.plain_lib Samples.plain_templates Samples.failing_docker
    {| push_to_registry := false; pull_from_registry := false |}
    ([Samples.data_line] ++ [Samples.data_line; Samples.data_line]) false false
    Samples.fresh_world
  = build_all_images Samples.plain_lib Samples.plain_templates Samples.failing_docker
      {| push_to_registry := false; pull_from_registry := false |}
      [Samples.data_line] false false Samples.fresh_world.
Proof.
  assert (raises (build_all_images Samples.plain_lib Samples.plain_templates
                    Samples.failing_docker
                    {| push_to_registry := false; pull_from_registry := false |}
                    [Samples.data_line] false false Samples.fresh_world).2) as Hr.
  { by vm_compute. }
  split; [exact Hr|].
  by apply build_all_images_stops_at_first_failure.
Defined.

(** A plain [pytest] command with one test under [failfast]. *)
Lemma eval_test_cmd_scenario :
  contains "json-report"
    (eval_test_cmd (fun s => s) ["tests/test_a.py"] "pytest -q" 150 true) = true /\
  (contains "-x "
     (eval_test_cmd (fun s => s) ["tests/test_a.py"] "pytest -q" 150 true) = true \/
   contains "--exitfirst"
     (eval_test_cmd (fun s => s) ["tests/test_a.py"] "pytest -q" 150 true) = true).
Proof.
  destruct (eval_test_cmd_flags (fun s => s) ["tests/test_a.py"] "pytest -q" 150 true)
    as (Hjson & Hfast & _); [done|].
  split; [exact Hjson|by apply Hfast].
Defined.

Lemma four_ids_NoDup : NoDup (map instance_id Samples.four_instances).
Proof.
  cbn. repeat (apply NoDup_cons; split;
    [rewrite ?elem_of_cons, elem_of_nil; intros H; intuition discriminate|]).
  apply NoDup_nil_2.
Qed.


(** The same four instances in chunks of three: no chunk fails as a whole,
    and batch mode ends with the results of streaming mode. *)
Lemma batch_stream_scenario :
  exists st,
    evaluate_batch Samples.first_two_fail Samples.four_instances 3 = inr st /\
    submitted st = chunks Samples.four_instances 3 /\
    evaluate_stream Samples.first_two_fail Samples.four_instances 3
      = Some (results st).
Proof.
  apply (batch_agrees_with_stream Samples.first_two_fail Samples.four_instances 3).
  - intros batch. symmetry. apply Permutation_rev.
  - lia.
  - exact four_ids_NoDup.
  - change (chunks Samples.four_instances 3)
      with [[Samples.inst "a"; Samples.inst "b"; Samples.inst "c"]; [Samples.inst "d"]].
    constructor; [|constructor; [|constructor]].
    + apply Exists_cons_tl, Exists_cons_tl, Exists_cons_hd. exact I.
    + apply Exists_cons_hd. exact I.
Defined.

(** One error, one empty test map and one failed test: one instance in each
    class, the empty map among the resolved. *)
Lemma report_scenario :
  exists out,
    compose_report Samples.three_results = inr out /\
    total out = 3%nat /\
    (resolved out + unresolved out + errors out = total out)%nat /\
    "b" ∈ resolved_instances out.
Proof.
  destruct (compose_report Samples.three_results) as [e|out] eqn:E;
    [by vm_compute in E|].
  destruct (compose_report_partitions _ _ E)
    as (Htotal & Hsum & _ & _ & _ & _ & _ & Hempty).
  exists out. split; [done|]. split; [exact Htotal|]. split; [exact Hsum|].
  apply Hempty. right. by left.
Defined.

(** The three-file patch with the second file on the black list: the first
    file is reported; it is not black-listed and a header names it. *)
Lemma reported_scenario :
  "tests/test_a.py"
    ∈ extract_modified_test_files Samples.header_file Samples.three_file_patch
        ["tests/test_slow.py"] /\
  ("tests/test_a.py" ∉ ["tests/test_slow.py"]) /\
  exists line,
    line ∈ split_on (ascii_of_nat 10) Samples.three_file_patch /\
    startswith "diff --git" line = true /\
    Samples.header_file line = Some "tests/test_a.py".
Proof.
  assert ("tests/test_a.py"
            ∈ extract_modified_test_files Samples.header_file
                Samples.three_file_patch ["tests/test_slow.py"]) as Hin.
  { apply (bool_decide_eq_true _). by vm_compute. }
  split; [exact Hin|].
  by apply (reported_files_are_named_and_not_blacklisted Samples.header_file
              Samples.three_file_patch).
Defined.

(** The same patch: what follows the header of the black-listed file, the
    third file included, does not count. *)
Lemma blacklist_scenario :
  extract_modified_test_files Samples.header_file
    (Samples.first_file_patch ++ nl
       ++ "diff --git a/tests/test_slow.py b/tests/test_slow.py" ++ nl
       ++ Samples.rest_of_patch)
    ["tests/test_slow.py"]
  = extract_modified_test_files Samples.header_file Samples.first_file_patch
      ["tests/test_slow.py"].
Proof.
  apply (blacklisted_file_hides_the_rest Samples.header_file
           Samples.first_file_patch
           "diff --git a/tests/test_slow.py b/tests/test_slow.py"
           Samples.rest_of_patch ["tests/test_slow.py"] "tests/test_slow.py").
  - reflexivity.
  - reflexivity.
  - reflexivity.
  - by left.
Defined.

(** Two instances that share one spec: its test command ends with the flag
    twice. *)
Lemma shared_spec_scenario :
  exists σ' dataset',
    prepare_rounds Samples.header_file ["tests/test_slow.py"]
      (heap Samples.fresh_world) Samples.sharing_instances = inr (σ', dataset') /\
    map instance_id dataset' = ["a"; "b"] /\
    test_cmd_of σ' Samples.spec_ref
    = Some "pytest --continue-on-collection-errors --continue-on-collection-errors".
Proof.
  destruct (prepare_rounds Samples.header_file ["tests/test_slow.py"]
              (heap Samples.fresh_world) Samples.sharing_instances)
    as [e|[σ' dataset']] eqn:E;
    [by vm_compute in E|].
  destruct (prepare_rounds_appends_flag_per_reference _ _ _ _ _ _ E)
    as (Hids & _ & Hcmd).
  exists σ', dataset'. split; [done|]. split; [exact Hids|].
  apply (Hcmd 1%positive "pytest"). reflexivity.
Defined.

(** An instance of the golden round only gets no entry. *)
Lemma both_rounds_scenario :
  exists out,
    gather_results {["i" := RoundReport Samples.pre_round]}
      [("i", RoundReport Samples.post_round); ("j", Samples.failed_round)] = inr out /\
    dom out = {["i"]} /\ out !! "j" = None.
Proof.
  destruct (gather_results {["i" := RoundReport Samples.pre_round]}
              [("i", RoundReport Samples.post_round); ("j", Samples.failed_round)])
    as [e|out] eqn:E; [by vm_compute in E|].
  destruct (gather_results_keeps_instances_of_both_rounds _ _ _ E) as [Hdom _].
  assert (dom out = ({["i"]} : gset string)) as Hi.
  { rewrite Hdom, dom_singleton_L. cbn [fmap list_fmap fst list_to_set]. set_solver. }
  exists out. split; [done|]. split; [exact Hi|].
  apply (not_elem_of_dom (D := gset string)). rewrite Hi. set_solver.
Defined.

(** A golden report with a crash in a setup phase, first in the round and
    after another report. *)
Lemma failed_extraction_scenario :
  gather_results {["a" := Samples.failed_round; "b" := Samples.failed_round]}
    [("b", RoundReport (Samples.report_of [Samples.failed_in_setup]))]
  = inl (UnboundLocalError "crash_details").
Proof.
  destruct (extract_crash_details_from_report
              (Samples.report_of [Samples.failed_in_call])) as [e|cd] eqn:E;
    [by vm_compute in E|].
  refine (proj1 (failed_extraction_reuses_earlier_crash_details
                   {["a" := Samples.failed_round; "b" := Samples.failed_round]}
                   "a" "b" (Samples.report_of [Samples.failed_in_call])
                   (Samples.report_of [Samples.failed_in_setup])
                   Samples.failed_round Samples.failed_round [] cd _ _ E _)).
  - reflexivity.
  - reflexivity.
  - exact I.
Defined.

(** Two tests requested, one reported: in the classification of a run the
    other one is not among the tests that pass after the patch, and it is
    listed under FAIL_TO_FAIL. *)
Lemma missing_test_scenario :
  exists r out e,
    RunInstance.gather_results Samples.only_b ["a"; "b"] true false true
      = inr (Full r) /\
    gather_results {["i" := Samples.failed_round]} [("i", RoundReport r)] = inr out /\
    out !! "i" = Some (ClsEntry e) /\
    ("a" ∉ f2p e) /\ ("a" ∉ p2p e) /\ "a" ∈ f2f e.
Proof.
  destruct (RunInstance.gather_results Samples.only_b ["a"; "b"] true false true)
    as [e|[m|r]] eqn:E; [by vm_compute in E..|].
  destruct (extract_crash_details_from_report r) as [e|cd] eqn:Ecd.
  { exfalso. vm_compute in E. injection E as <-. by vm_compute in Ecd. }
  assert (root r = None) as Hroot.
  { vm_compute in E. by injection E as <-. }
  destruct (missing_test_is_never_classified_as_passing Samples.only_b ["a"; "b"]
              true true r "a" {["i" := Samples.failed_round]} [("i", RoundReport r)]
              "i" Samples.failed_round E)
    as (_ & Hret & Hout).
  - cbn. lia.
  - by left.
  - cbn. rewrite elem_of_cons, elem_of_nil. intros [H|H]; [discriminate|done].
  - repeat constructor; set_solver.
  - by left.
  - reflexivity.
  - assert (returns (gather_results {["i" := Samples.failed_round]}
                       [("i", RoundReport r)])) as Hr.
    { apply Hret. repeat constructor. cbn. by rewrite Ecd. }
    apply returns_inr in Hr as [out Hgather].
    destruct (Hout out Hgather) as (e & Hlook & Hdef & Hf2p & Hp2p & Hcd).
    exists r, out, e. split; [done|]. split; [exact Hgather|].
    split; [rewrite Hlook, Hdef; [done|by left]|].
    split; [done|]. split; [done|]. by apply (Hcd cd).
Defined.

(** Three patch files of which the second fails: the third is not tried,
    and the rollback goes over the second and the first. *)
Lemma rollback_scenario :
  apply_patch Samples.only_first_applies Samples.patch_files
  = inr ([Apply "/patches/patch_0.patch"; Apply "/patches/patch_1.patch";
          Echo "/patches/patch_1.patch"; RevertTmp;
          Echo "/patches/patch_0.patch"; RevertTmp], Exited 1).
Proof.
  apply (failed_patch_stops_and_rolls_back Samples.only_first_applies
           ["/patches/patch_0.patch"] "/patches/patch_1.patch"
           ["/patches/patch_2.patch"]).
  - cbn. repeat (apply NoDup_cons; split;
      [rewrite ?elem_of_cons, elem_of_nil; intros H; intuition discriminate|]).
    apply NoDup_nil_2.
  - by constructor.
  - reflexivity.
Defined.

Lemma all_applied_scenario :
  apply_patch (fun _ => true) Samples.patch_files
  = inr (map Apply Samples.patch_files, Returned).
Proof.
  apply all_patches_applied_in_order. by repeat constructor.
Defined.

(** The sample spec has the canonical tuple of its reordering, and not the
    one of the spec with another interpreter. *)
Lemma collision_scenario :
  canonical Samples.small_spec = canonical Samples.small_spec_reordered /\
  canonical Samples.small_spec
    <> canonical (dict_set "python" (PStr "3.10") Samples.small_spec).
Proof.
  assert (NoDup Samples.small_spec.*1) as Hnd.
  { cbn. repeat (apply NoDup_cons; split;
      [rewrite ?elem_of_cons, elem_of_nil; intros H; intuition discriminate|]).
    apply NoDup_nil_2. }
  split.
  - apply (canonical_identifies_only_reorderings Samples.small_spec
             Samples.small_spec_reordered Hnd); [by repeat constructor..|].
    by cbn.
  - intros H.
    apply (canonical_identifies_only_reorderings Samples.small_spec
             (dict_set "python" (PStr "3.10") Samples.small_spec) Hnd) in H;
      [|by repeat constructor..].
    assert (("python", PStr "3.9")
              ∈ hashed_fields (dict_set "python" (PStr "3.10") Samples.small_spec))
      as Hin.
    { rewrite <- H. by left. }
    cbn in Hin. rewrite !elem_of_cons, elem_of_nil in Hin.
    intuition discriminate.
Defined.

End Scenarios.

(* ===================================================================== *)
(** * The evaluation run, end to end *)
(* ===================================================================== *)

Module PipelineFacts.

Import DictFacts Dataset DatasetFacts EvaluateFacts EvaluateReport EvaluateReportFacts.

(** ** The prepared dataset *)

Lemma entries_carry_their_key (preds : dict string) (sel : dict raw) :
  Forall (fun kv : string * instance => instance_id kv.2 = kv.1)
    (map (fun '(iid, data) => (iid, prepared preds iid data)) sel).
Proof.
  induction sel as [|[k data] sel IH]; cbn [map]; constructor; [done|exact IH].
Qed.

Lemma prepared_keys raw_dataset instance_ids predictions dataset :
  prepare_dataset_for_evaluation raw_dataset instance_ids predictions = inr dataset ->
  NoDup dataset.*1 /\
  Forall (fun kv : string * instance => instance_id kv.2 = kv.1) dataset.
Proof.
  unfold prepare_dataset_for_evaluation.
  set (dd := dict_of (map (fun data => (d_instance_id data, data)) raw_dataset)).
  set (preds := dict_of predictions).
  assert (forall sel : dict raw,
            NoDup sel.*1 ->
            dict_of (map (fun '(iid, data) => (iid, prepared preds iid data)) sel) = dataset ->
            NoDup dataset.*1 /\
            Forall (fun kv : string * instance => instance_id kv.2 = kv.1) dataset)
    as Hmain.
  { intros sel Hnd Hds.
    rewrite dict_of_NoDup in Hds by (by rewrite entries_keys). subst dataset.
    rewrite entries_keys. split; [done|]. apply entries_carry_their_key. }
  assert (NoDup dd.*1) as Hdd by (apply dict_update_NoDup, NoDup_nil_2).
  destruct instance_ids as [[|id0 ids]|]; cbn [bind ret].
  - intros [= Hds]. by apply (Hmain dd).
  - destruct (has_missing_id (id0 :: ids) dd); [done|]. cbn [bind ret].
    intros [= Hds]. eapply Hmain; [|exact Hds].
    apply dict_update_NoDup, NoDup_nil_2.
  - intros [= Hds]. by apply (Hmain dd).
Qed.

Lemma values_ids (dataset : dict instance) :
  Forall (fun kv : string * instance => instance_id kv.2 = kv.1) dataset ->
  map instance_id (values dataset) = dataset.*1.
Proof.
  unfold values. induction 1 as [|[k i] dataset Hk _ IH]; cbn; [done|].
  cbn in Hk. by rewrite Hk, IH.
Qed.

(** ** The report of a streamed run *)

Lemma report_returns items :
  Forall (fun kv : string * eval_result =>
            match kv.2 with EvalFull _ => False | _ => True end) items ->
  forall out0, exists out, for_each report_step items out0 = inr out.
Proof.
  induction 1 as [|[iid r] items Hr _ IH]; intros out0; cbn [for_each].
  - by eexists.
  - destruct r as [err tb|tests|rep]; cbn [report_step]; [|destruct (all_codes tests)|done];
      cbn [bind ret]; apply IH.
Qed.

(** [run_evaluate] from the raw dataset to the report, with a pool of at
    least one worker whose runs return short maps: the run prepares the
    selected instances, evaluates each of them once and reports each of
    them once. The total is the number of selected instances, an instance
    is listed as an error exactly when its evaluation raised, and as
    resolved exactly when its short map holds no failed test. *)
Theorem run_evaluate_accounts_for_every_instance (p : pool)
    (raw_dataset : list raw) (instance_ids : option (list string))
    (predictions : list (string * string)) (dataset : dict instance)
    (max_workers : nat) :
  prepare_dataset_for_evaluation raw_dataset instance_ids predictions = inr dataset ->
  fair p -> (0 < max_workers)%nat ->
  (forall i r, attempt p i <> inr (Full r)) ->
  exists results,
    evaluate_stream p (values dataset) max_workers = Some results /\
    forall items, items ≡ₚ map_to_list results ->
      exists out,
        compose_report items = inr out /\
        total out = List.length dataset /\
        forall iid i, dict_get iid dataset = Some i ->
          (iid ∈ errors_instances out <-> raises (attempt p i)) /\
          (iid ∈ resolved_instances out <->
           exists m, attempt p i = inr (Short m) /\
                     forall t code, m !! t = Some code -> code = true).
Proof.
  intros Hprep Hfair Hn Hshort.
  apply prepared_keys in Hprep as [Hnd Hkeys].
  pose proof (values_ids dataset Hkeys) as Hids.
  assert (NoDup (map instance_id (values dataset))) as Hnd' by by rewrite Hids.
  unfold evaluate_stream. destruct max_workers as [|n]; [lia|].
  eexists. split; [reflexivity|].
  rewrite drain_fold by done.
  set (results := foldl (record_result p) ∅ (values dataset)).
  assert (forall iid i, dict_get iid dataset = Some i ->
            results !! iid = Some (result_of p i)) as Hlook.
  { intros iid i Hget. apply dict_get_Some_elem in Hget.
    rewrite Forall_forall in Hkeys. pose proof (Hkeys _ Hget) as Hk.
    cbn [fst snd] in Hk. rewrite <- Hk.
    apply foldl_record_lookup; [done|]. unfold values.
    change (map snd dataset) with (snd <$> dataset).
    apply list_elem_of_fmap. by exists (iid, i). }
  assert (forall iid r, results !! iid = Some r ->
            exists i, dict_get iid dataset = Some i /\ r = result_of p i) as Hback.
  { intros iid r Hr.
    assert (iid ∈ dataset.*1) as Hin.
    { rewrite <- Hids. apply (elem_of_list_to_set (C := gset string)).
      apply elem_of_dom_2 in Hr. unfold results in Hr.
      rewrite foldl_record_dom, dom_empty_L in Hr. set_solver. }
    apply dict_get_is_Some in Hin as [i Hi]. exists i. split; [done|].
    rewrite (Hlook _ _ Hi) in Hr. by injection Hr. }
  intros items Hitems.
  assert (forall iid r, (iid, r) ∈ items <-> results !! iid = Some r) as Helem.
  { intros iid r. by rewrite Hitems, elem_of_map_to_list. }
  assert (Forall (fun kv : string * eval_result =>
                    match kv.2 with EvalFull _ => False | _ => True end) items) as Hfa.
  { apply Forall_forall. intros [iid r] Hin. apply Helem in Hin.
    apply Hback in Hin as (i & _ & ->). cbn [snd]. unfold result_of.
    destruct (attempt p i) as [e|[m|rep]] eqn:E; try done. by destruct (Hshort i rep). }
  unfold compose_report.
  destruct (report_returns items Hfa
              {| resolved := 0; unresolved := 0; errors := 0;
                 total := List.length items; resolved_instances := [];
                 unresolved_instances := []; errors_instances := [] |}) as [out Hout].
  exists out. split; [exact Hout|].
  apply report_loop in Hout as (Ht & _ & _ & _ & Hri & _ & Hei & _).
  cbn [total resolved_instances errors_instances app] in *.
  split.
  - rewrite Ht, Hitems, length_map_to_list.
    rewrite <- (size_dom (D := gset string)). unfold results.
    rewrite foldl_record_dom, dom_empty_L, union_empty_l_L.
    rewrite size_list_to_set by done. by rewrite Hids, length_fmap.
  - intros iid i Hget. rewrite Hri, Hei. unfold ids_where.
    rewrite !list_elem_of_fmap. split.
    + split.
      * intros ([iid' r] & -> & Hin). apply elem_of_bool_filter in Hin as [Hin Herr].
        apply Helem in Hin. cbn [fst snd] in *. rewrite (Hlook _ _ Hget) in Hin.
        injection Hin as <-. unfold result_of in Herr.
        by destruct (attempt p i) as [e|[m|rep]].
      * intros Hr. exists (iid, result_of p i). split; [done|].
        apply elem_of_bool_filter. split; [by apply Helem, Hlook|].
        by apply result_of_raises.
    + split.
      * intros ([iid' r] & -> & Hin). apply elem_of_bool_filter in Hin as [Hin Hres].
        apply Helem in Hin. cbn [fst snd] in *. rewrite (Hlook _ _ Hget) in Hin.
        injection Hin as <-. unfold result_of in Hres.
        destruct (attempt p i) as [e|[m|rep]]; try done.
        exists m. split; [done|]. cbn [is_resolved] in Hres. unfold all_codes in Hres.
        by apply bool_decide_eq_true in Hres.
      * intros (m & Hm & Hall). exists (iid, result_of p i). split; [done|].
        apply elem_of_bool_filter. split; [by apply Helem, Hlook|].
        unfold result_of. rewrite Hm. cbn [snd is_resolved]. unfold all_codes.
        by apply bool_decide_eq_true.
Qed.

(** The sample rows, three records with two ids, through one worker: two
    instances are selected, evaluated and reported. *)
Lemma run_evaluate_scenario :
  exists dataset results out,
    prepare_dataset_for_evaluation Samples.raw_rows None Samples.model_patches
      = inr dataset /\
    evaluate_stream Samples.first_two_fail (values dataset) 1 = Some results /\
    compose_report (map_to_list results) = inr out /\
    total out = 2%nat.
Proof.
  destruct (prepare_dataset_for_evaluation Samples.raw_rows None Samples.model_patches)
    as [e|dataset] eqn:E; [by vm_compute in E|].
  destruct (run_evaluate_accounts_for_every_instance Samples.first_two_fail
              Samples.raw_rows None Samples.model_patches dataset 1 E)
    as (results & Hres & Hrep).
  - intros batch. symmetry. apply Permutation_rev.
  - lia.
  - intros i r. unfold Samples.first_two_fail. cbn [attempt].
    destruct (mem (instance_id i) ["a"; "b"]); intros H; discriminate H.
  - destruct (Hrep (map_to_list results)) as (out & Hout & Htotal & _); [done|].
    exists dataset, results, out. split; [done|]. split; [exact Hres|].
    split; [exact Hout|]. rewrite Htotal.
    vm_compute in E. by injection E as <-.
Defined.

End PipelineFacts.

(* ===================================================================== *)
(** * Which files the scan reports *)
(* ===================================================================== *)

Module PatchScanFacts.

Import StringFacts Patches PatchesFacts.

Lemma hunk_is_no_header line :
  startswith "@@" line = true ->
  startswith "diff --git" line = false /\ startswith "+++" line = false.
Proof. unfold startswith. by intros (t & ->)%prefix_spec. Qed.

Lemma deletion_mark_is_no_header line :
  startswith "+++ /dev/null" line = true ->
  startswith "diff --git" line = false /\ startswith "+++" line = true.
Proof. unfold startswith. by intros (t & ->)%prefix_spec. Qed.

Lemma scan_line_mono tfo bl st line :
  modified_files st ⊆ modified_files (scan_line tfo bl st line).
Proof.
  unfold scan_line. destruct (blocked bl st); [done|].
  destruct (startswith "diff --git" line); [by destruct (tfo line)|].
  destruct (startswith "+++" line); [by destruct (_ || _)|].
  destruct (startswith "@@" line); [|done].
  destruct (current_file st) as [g|]; [|done].
  destruct (_ && _); [|done]. cbn [modified_files]. set_solver.
Qed.

Lemma scan_lines_mono tfo bl lines st :
  modified_files st ⊆ modified_files (scan_lines tfo bl lines st).
Proof.
  unfold scan_lines. revert st.
  induction lines as [|line lines IH]; intros st; cbn [foldl]; [done|].
  etrans; [apply (scan_line_mono tfo bl st line)|apply IH].
Qed.

(** ** Deleted files *)

Lemma scan_lines_before_hunks tfo bl lines st :
  Forall (fun l => startswith "diff --git" l = false /\ startswith "@@" l = false) lines ->
  modified_files (scan_lines tfo bl lines st) = modified_files st /\
  current_file (scan_lines tfo bl lines st) = current_file st.
Proof.
  unfold scan_lines. intros Hall. revert st.
  induction Hall as [|line lines [Hd Hh] _ IH]; intros st; cbn [foldl]; [done|].
  destruct (IH (scan_line tfo bl st line)) as [-> ->].
  unfold scan_line. destruct (blocked bl st); [done|]. rewrite Hd, Hh.
  destruct (startswith "+++" line); [by destruct (_ || _)|done].
Qed.

Lemma scan_lines_deleted tfo bl lines st :
  Forall (fun l => startswith "diff --git" l = false) lines ->
  is_deleted st = true ->
  modified_files (scan_lines tfo bl lines st) = modified_files st.
Proof.
  unfold scan_lines. intros Hall. revert st.
  induction Hall as [|line lines Hd _ IH]; intros st Hdel; cbn [foldl]; [done|].
  assert (is_deleted (scan_line tfo bl st line) = true /\
          modified_files (scan_line tfo bl st line) = modified_files st) as [Hdel' Hmod].
  { unfold scan_line. destruct (blocked bl st); [done|]. rewrite Hd.
    destruct (startswith "+++" line); [by destruct (_ || _)|].
    destruct (startswith "@@" line); [|done].
    destruct (current_file st) as [g|]; [|done].
    by rewrite Hdel, andb_false_r. }
  by rewrite IH.
Qed.

(** The hunks of a file whose header is followed by a [+++ /dev/null] line
    add nothing: a deleted file is not reported on account of its own
    block. The block runs from the header to the line before the next
    header; no hunk line stands before the deletion mark. *)
Theorem deleted_file_adds_nothing (test_file_of : string -> option string)
    (black_list : list string) (st : scan) (header mark : string)
    (middle hunks : list string) :
  startswith "diff --git" header = true ->
  Forall (fun l => startswith "diff --git" l = false /\ startswith "@@" l = false)
    middle ->
  startswith "+++ /dev/null" mark = true ->
  Forall (fun l => startswith "diff --git" l = false) hunks ->
  modified_files
    (scan_lines test_file_of black_list (header :: middle ++ mark :: hunks) st)
  = modified_files st.
Proof.
  intros Hh Hmid Hmark Hhunks.
  change (header :: middle ++ mark :: hunks)
    with ([header] ++ (middle ++ [mark] ++ hunks))%list.
  rewrite !scan_lines_app.
  set (st1 := scan_lines test_file_of black_list [header] st).
  assert (modified_files st1 = modified_files st) as H1.
  { unfold st1, scan_lines. cbn [foldl]. unfold scan_line.
    destruct (blocked black_list st); [done|]. rewrite Hh.
    by destruct (test_file_of header). }
  destruct (scan_lines_before_hunks test_file_of black_list middle st1 Hmid)
    as [H2 _].
  set (st2 := scan_lines test_file_of black_list middle st1) in *.
  destruct (blocked black_list st2) eqn:Hb.
  - rewrite (scan_lines_blocked _ _ [mark]) by done.
    rewrite scan_lines_blocked by done. by rewrite H2.
  - destruct (deletion_mark_is_no_header mark Hmark) as [Hd Hp].
    rewrite scan_lines_deleted; [| done |].
    + unfold scan_lines. cbn [foldl]. unfold scan_line.
      rewrite Hb, Hd, Hp. unfold startswith in Hmark. unfold startswith at 1.
      rewrite Hmark. cbn [orb modified_files]. by rewrite H2.
    + unfold scan_lines. cbn [foldl]. unfold scan_line.
      rewrite Hb, Hd, Hp. unfold startswith in Hmark. unfold startswith at 1.
      by rewrite Hmark.
Qed.

(** ** Modified files *)

Lemma scan_lines_keeps_current tfo lines st f :
  Forall (fun l => startswith "diff --git" l = false /\
                   startswith "+++ /dev/null" l = false) lines ->
  current_file st = Some f -> is_deleted st = false ->
  current_file (scan_lines tfo [] lines st) = Some f /\
  is_deleted (scan_lines tfo [] lines st) = false.
Proof.
  unfold scan_lines. intros Hall. revert st.
  induction Hall as [|line lines [Hd Hm] _ IH]; intros st Hcur Hdel; cbn [foldl]; [done|].
  apply IH.
  - unfold scan_line, blocked. rewrite Hcur. cbn [mem existsb]. rewrite Hd.
    destruct (startswith "+++" line) eqn:Hp.
    + rewrite Hm. cbn [orb].
      assert (startswith "--- /dev/null" line = false) as ->; [|done].
      unfold startswith in *. apply prefix_spec in Hp as (t & ->). done.
    + destruct (startswith "@@" line); [|done]. by destruct (_ && _).
  - unfold scan_line, blocked. rewrite Hcur. cbn [mem existsb]. rewrite Hd.
    destruct (startswith "+++" line) eqn:Hp.
    + rewrite Hm. cbn [orb].
      assert (startswith "--- /dev/null" line = false) as ->; [|done].
      unfold startswith in *. apply prefix_spec in Hp as (t & ->). done.
    + destruct (startswith "@@" line); [|done]. by destruct (_ && _).
Qed.

(** With an empty black list, a test file is reported as soon as its header
    is followed by a hunk line, with no other header and no
    [+++ /dev/null] line in between. *)
Theorem modified_test_file_is_reported (test_file_of : string -> option string)
    (test_patch : string) (before : list string) (header : string)
    (middle : list string) (hunk : string) (after : list string) (f : string) :
  split_on (ascii_of_nat 10) test_patch
    = (before ++ header :: middle ++ hunk :: after)%list ->
  startswith "diff --git" header = true ->
  test_file_of header = Some f -> f <> "" ->
  Forall (fun l => startswith "diff --git" l = false /\
                   startswith "+++ /dev/null" l = false) middle ->
  startswith "@@" hunk = true ->
  f ∈ extract_modified_test_files test_file_of test_patch [].
Proof.
  intros Hsplit Hh Hf Hne Hmid Hhunk. unfold extract_modified_test_files.
  rewrite Hsplit.
  change (header :: middle ++ hunk :: after)
    with ([header] ++ (middle ++ [hunk] ++ after))%list.
  rewrite !scan_lines_app.
  set (st0 := scan_lines test_file_of [] before _).
  set (st1 := scan_lines test_file_of [] [header] st0).
  assert (current_file st1 = Some f /\ is_deleted st1 = false) as [Hc1 Hd1].
  { unfold st1, scan_lines. cbn [foldl]. unfold scan_line, blocked.
    assert (match current_file st0 with Some f0 => mem f0 [] | None => false end = false)
      as -> by by destruct (current_file st0).
    by rewrite Hh, Hf. }
  destruct (scan_lines_keeps_current test_file_of middle st1 f Hmid Hc1 Hd1)
    as [Hc2 Hd2].
  set (st2 := scan_lines test_file_of [] middle st1) in *.
  apply (scan_lines_mono test_file_of [] after).
  unfold scan_lines at 1. cbn [foldl]. unfold scan_line, blocked.
  rewrite Hc2. cbn [mem existsb].
  destruct (hunk_is_no_header hunk Hhunk) as [-> ->]. rewrite Hhunk, Hd2.
  destruct (String.eqb_spec f "") as [->|_]; [done|].
  cbn [negb andb modified_files]. set_solver.
Qed.

(** The block of a deleted file after the block of a modified one: the
    scan keeps the first file and adds nothing for the second. *)
Lemma deleted_file_scenario :
  let st := {| modified_files := {["tests/test_a.py"]};
               current_file := Some "tests/test_a.py"; is_deleted := false |} in
  modified_files
    (scan_lines Samples.header_file []
       ("diff --git a/tests/test_c.py b/tests/test_c.py"
        :: ["--- a/tests/test_c.py"] ++ "+++ /dev/null" :: ["@@ -1 +0,0 @@"; "-import c"])
       st)
  = modified_files st.
Proof.
  cbv zeta.
  apply (deleted_file_adds_nothing Samples.header_file []
           {| modified_files := {["tests/test_a.py"]};
              current_file := Some "tests/test_a.py"; is_deleted := false |}
           "diff --git a/tests/test_c.py b/tests/test_c.py" "+++ /dev/null"
           ["--- a/tests/test_c.py"] ["@@ -1 +0,0 @@"; "-import c"]).
  - reflexivity.
  - by repeat constructor.
  - reflexivity.
  - by repeat constructor.
Defined.

(** The first file of the sample patch is reported. *)
Lemma modified_file_scenario :
  "tests/test_a.py"
    ∈ extract_modified_test_files Samples.header_file Samples.first_file_patch [].
Proof.
  apply (modified_test_file_is_reported Samples.header_file Samples.first_file_patch
           [] "diff --git a/tests/test_a.py b/tests/test_a.py"
           ["--- a/tests/test_a.py"; "+++ b/tests/test_a.py"] "@@ -1 +1 @@" []).
  - reflexivity.
  - reflexivity.
  - reflexivity.
  - done.
  - by repeat constructor.
  - reflexivity.
Defined.

End PatchScanFacts.
